(** * MyTube mobile client: transport and session resilience layer

    A shallow embedding of the client-side transport code
    ([core/api/errors.ts], [core/api/unwrap.ts], [core/api/inFlight.ts],
    [core/api/client.ts], [core/utils/polling.ts], [core/auth/AuthContext.tsx])
    together with the properties its specification states about it.

    Modelling conventions.
    - JavaScript numbers are exact rationals ([Q]).  NaN and the infinities,
      which a JSON body cannot carry, are left out, and arithmetic is exact.
    - JavaScript strings are [string]s of ASCII characters; [trim] removes the
      ASCII white space characters and [toUpperCase] maps [a-z] to [A-Z].
    - Runtime services the code calls but does not define ([Number(text)],
      [Date.parse], [Date.now], number formatting, [Math.random]) are
      explicit inputs.
    - Promises are handles into an explicit store; the event loop is a
      labelled transition system whose steps are the jobs the code queues. *)

From Stdlib Require Import String Ascii List ZArith QArith Qround Lia Lqa Bool.
From stdpp Require Import gmap strings.

Import ListNotations.
Local Set Warnings "-register-all".
Local Open Scope string_scope.

(* ===================================================================== *)
(** * JavaScript values and string primitives                            *)
(* ===================================================================== *)

Module JS.

(** A JSON-like runtime value.  Objects keep their fields in insertion
    order; a key occurs at most once in a well-formed object and [lookup]
    reads the first occurrence. *)
Inductive value : Type :=
| VUndefined
| VNull
| VBool (b : bool)
| VNum (q : Q)
| VStr (s : string)
| VArr (items : list value)
| VObj (fields : list (string * value)).

Fixpoint assoc (k : string) (fields : list (string * value)) : option value :=
  match fields with
  | [] => None
  | (k', v) :: rest => if String.eqb k k' then Some v else assoc k rest
  end.

(** [k in v] for an own, named key.  None of the keys this layer inspects
    ([success], [data], [statusCode], ...) exists on an array or on
    [Object.prototype]. *)
Definition hasKey (k : string) (v : value) : bool :=
  match v with
  | VObj fields => match assoc k fields with Some _ => true | None => false end
  | _ => false
  end.

(** [v.k] (or [v?.k]) on a value that is neither [null] nor [undefined]. *)
Definition getProp (v : value) (k : string) : value :=
  match v with
  | VObj fields => match assoc k fields with Some x => x | None => VUndefined end
  | _ => VUndefined
  end.

(** [typeof v === 'object'] *)
Definition isTypeofObject (v : value) : bool :=
  match v with
  | VNull | VArr _ | VObj _ => true
  | _ => false
  end.

(** ToBoolean *)
Definition truthy (v : value) : bool :=
  match v with
  | VUndefined | VNull => false
  | VBool b => b
  | VNum q => negb (Qeq_bool q 0)
  | VStr s => negb (String.eqb s "")
  | VArr _ | VObj _ => true
  end.

(** [v == null] *)
Definition isNullish (v : value) : bool :=
  match v with
  | VUndefined | VNull => true
  | _ => false
  end.

(** [a ?? b] *)
Definition nullish (a b : value) : value := if isNullish a then b else a.

(** [v === true] and [v === false] *)
Definition isTrue (v : value) : bool :=
  match v with VBool true => true | _ => false end.

Definition isFalse (v : value) : bool :=
  match v with VBool false => true | _ => false end.

(** [typeof v === 'number' ? Some v : None] *)
Definition asNumber (v : value) : option Q :=
  match v with VNum q => Some q | _ => None end.

(** White space removed by [String.prototype.trim] (ASCII part):
    TAB, LF, VT, FF, CR and SPACE. *)
Definition isWhiteSpace (c : ascii) : bool :=
  let n := nat_of_ascii c in
  ((9 <=? n)%nat && (n <=? 13)%nat) || (n =? 32)%nat.

Fixpoint trimStart (s : string) : string :=
  match s with
  | String c rest => if isWhiteSpace c then trimStart rest else s
  | EmptyString => EmptyString
  end.

(** Drops the trailing white space: a character survives when it is not
    white space or when something survives after it. *)
Fixpoint trimEnd (s : string) : string :=
  match s with
  | EmptyString => EmptyString
  | String c rest =>
      match trimEnd rest with
      | EmptyString => if isWhiteSpace c then EmptyString else String c EmptyString
      | kept => String c kept
      end
  end.

Definition trim (s : string) : string := trimEnd (trimStart s).

Definition upperChar (c : ascii) : ascii :=
  let n := nat_of_ascii c in
  if ((97 <=? n)%nat && (n <=? 122)%nat)%bool then ascii_of_nat (n - 32) else c.

Fixpoint toUpperCase (s : string) : string :=
  match s with
  | EmptyString => EmptyString
  | String c rest => String (upperChar c) (toUpperCase rest)
  end.

(** [s.startsWith(p)] *)
Fixpoint startsWith (p s : string) : bool :=
  match p with
  | EmptyString => true
  | String a p' =>
      match s with
      | String b s' => Ascii.eqb a b && startsWith p' s'
      | EmptyString => false
      end
  end.

(** [Math.round]: the nearest integer, halves going up. *)
Definition Math_round (x : Q) : Z := Qfloor (x + (1 # 2)).

(** [Math.max] on two numbers. *)
Definition Math_max (a b : Q) : Q := if Qle_bool a b then b else a.

(** The services of the JavaScript runtime used by the error classifier. *)
Record Runtime : Type := {
  (** [Number(text)], [None] when the result is not a finite number *)
  Number_of_string : string -> option Q;
  (** [Date.parse(text)], [None] for NaN *)
  Date_parse : string -> option Q;
  (** [Date.now()] *)
  Date_now : Q;
  (** the decimal rendering used by template literals *)
  Number_toString : Q -> string
}.

End JS.

Import JS.

(* ===================================================================== *)
(** * core/api/errors.ts                                                  *)
(* ===================================================================== *)

Module Errors.

Local Open Scope Q_scope.

Inductive AppErrorCode : Type :=
| UNAUTHENTICATED
| FORBIDDEN
| VALIDATION
| NOT_FOUND
| CONFLICT
| RATE_LIMIT
| SERVER
| NETWORK
| UNKNOWN.

Definition AppErrorCode_eqb (a b : AppErrorCode) : bool :=
  match a, b with
  | UNAUTHENTICATED, UNAUTHENTICATED | FORBIDDEN, FORBIDDEN
  | VALIDATION, VALIDATION | NOT_FOUND, NOT_FOUND | CONFLICT, CONFLICT
  | RATE_LIMIT, RATE_LIMIT | SERVER, SERVER | NETWORK, NETWORK
  | UNKNOWN, UNKNOWN => true
  | _, _ => false
  end.

(** Optional fields are [option]s ([None] is an absent or [undefined]
    field); fields copied from the body without a check keep whatever value
    the body had. *)
Record AppError : Type := {
  code : AppErrorCode;
  httpStatus : option Q;
  message : value;
  backendType : value;
  recoverable : value;
  waitTimeMs : option Q;
  retryAfterMs : option Q;
  raw : value
}.

Definition mapStatusToCode (status : Q) : AppErrorCode :=
  if Qeq_bool status 401 then UNAUTHENTICATED
  else if Qeq_bool status 403 then FORBIDDEN
  else if Qeq_bool status 404 then NOT_FOUND
  else if Qeq_bool status 409 then CONFLICT
  else if Qeq_bool status 429 then RATE_LIMIT
  else if Qeq_bool status 400 then VALIDATION
  else if Qle_bool 500 status then SERVER
  else UNKNOWN.

(** [body?.error ?? body?.message ?? fallback] *)
Definition getMessage (body : value) (fallback : string) : value :=
  nullish (nullish (getProp body "error") (getProp body "message")) (VStr fallback).

Definition roundMs (seconds : Q) : Q := inject_Z (Math_round (seconds * 1000)).

(** The tail of [parseRetryAfterMs]: an HTTP date, as a delay from now. *)
Definition parseRetryDate (rt : Runtime) (text : string) : option Q :=
  match Date_parse rt text with
  | None => None
  | Some at_ =>
      let deltaMs := at_ - Date_now rt in
      if Qle_bool deltaMs 0 then Some 0 else Some (inject_Z (Math_round deltaMs))
  end.

Definition parseRetryAfterMs (rt : Runtime) (v : value) : option Q :=
  match v with
  | VNum q =>
      (* a negative number is not a string either *)
      if Qle_bool 0 q then Some (roundMs q) else None
  | VStr s =>
      let text := trim s in
      if String.eqb text "" then None
      else
        match Number_of_string rt text with
        | Some numeric =>
            if Qle_bool 0 numeric then Some (roundMs numeric)
            else parseRetryDate rt text
        | None => parseRetryDate rt text
        end
  | _ => None
  end.

(** [networkMessage] is [None] for [undefined]; the test [networkMessage]
    is its truthiness, so the empty string does not count. *)
Definition parseApiError (rt : Runtime) (httpStatus : Q) (body : value)
    (networkMessage : option string) (retryAfter : value) : AppError :=
  let retryAfterMs := parseRetryAfterMs rt retryAfter in
  let hasNetworkMessage :=
    match networkMessage with
    | Some m => negb (String.eqb m "")
    | None => false
    end in
  if isNullish body && hasNetworkMessage then
    {| code := NETWORK;
       httpStatus := None;
       message := match networkMessage with Some m => VStr m | None => VUndefined end;
       backendType := VUndefined;
       recoverable := VUndefined;
       waitTimeMs := None;
       retryAfterMs := retryAfterMs;
       raw := VUndefined |}
  else
    let b := nullish body (VObj []) in
    let effectiveStatus :=
      match isFalse (getProp b "success"), asNumber (getProp b "statusCode") with
      | true, Some statusCode => statusCode
      | _, _ => httpStatus
      end in
    let code := mapStatusToCode effectiveStatus in
    let message :=
      getMessage b ("Request failed (" ++ Number_toString rt effectiveStatus ++ ")")%string in
    {| code := code;
       httpStatus := Some effectiveStatus;
       message := message;
       backendType := getProp b "type";
       recoverable := getProp b "recoverable";
       waitTimeMs := asNumber (getProp b "waitTime");
       retryAfterMs := retryAfterMs;
       raw := body |}.

(** Status codes that should not be auto-retried. *)
Definition NO_RETRY_STATUSES : list Q := [400; 401; 403; 404; 409; 429].

(** [xs.includes(x)] on numbers *)
Definition includes (xs : list Q) (x : Q) : bool := existsb (Qeq_bool x) xs.

(** [error.httpStatus && ...]: a present, non-zero status. *)
Definition statusTruthy (s : option Q) : bool :=
  match s with Some q => negb (Qeq_bool q 0) | None => false end.

Definition statusAtLeast (s : option Q) (bound : Q) : bool :=
  match s with Some q => Qle_bool bound q | None => false end.

Definition statusIn (s : option Q) (xs : list Q) : bool :=
  match s with Some q => includes xs q | None => false end.

Definition shouldRetry (error : AppError) : bool :=
  if AppErrorCode_eqb (code error) NETWORK then true
  else if AppErrorCode_eqb (code error) SERVER
          && statusTruthy (httpStatus error)
          && statusAtLeast (httpStatus error) 500 then true
  else if statusTruthy (httpStatus error)
          && statusIn (httpStatus error) NO_RETRY_STATUSES then false
  else false.

End Errors.

(* ===================================================================== *)
(** * core/api/unwrap.ts                                                  *)
(* ===================================================================== *)

Module Unwrap.

Definition unwrap (raw : value) : value :=
  if truthy raw
     && isTypeofObject raw
     && hasKey "success" raw
     && isTrue (getProp raw "success")
     && hasKey "data" raw
  then getProp raw "data"
  else raw.

End Unwrap.

(* ===================================================================== *)
(** * core/api/inFlight.ts                                                *)
(* ===================================================================== *)

Module InFlight.

Definition isSlash (c : ascii) : bool := Ascii.eqb c "/".

(** [s.split(sep)] for a one-character separator: always at least one
    piece. *)
Fixpoint split (sep : ascii) (s : string) : list string :=
  match s with
  | EmptyString => [EmptyString]
  | String c rest =>
      if Ascii.eqb c sep then EmptyString :: split sep rest
      else
        match split sep rest with
        | piece :: pieces => String c piece :: pieces
        | [] => [String c EmptyString]
        end
  end.

(** [s.replace(/\/{2,}/g, '/')]: every run of two or more slashes becomes
    one slash. *)
Fixpoint collapseSlashes (s : string) : string :=
  match s with
  | EmptyString => EmptyString
  | String c rest =>
      if isSlash c then
        match rest with
        | String c' _ =>
            if isSlash c' then collapseSlashes rest
            else String c (collapseSlashes rest)
        | EmptyString => String c EmptyString
        end
      else String c (collapseSlashes rest)
  end.

(** [s.replace(/\/+$/, '')]: the trailing run of slashes is removed. *)
Fixpoint stripTrailingSlashes (s : string) : string :=
  match s with
  | EmptyString => EmptyString
  | String c rest =>
      match stripTrailingSlashes rest with
      | EmptyString => if isSlash c then EmptyString else String c EmptyString
      | kept => String c kept
      end
  end.

(** [x || '/'] on strings *)
Definition orRoot (s : string) : string :=
  match s with EmptyString => "/" | _ => s end.

(** [p.replace(/\/{2,}/g, '/').replace(/\/+$/, '') || '/'] *)
Definition normalizedPath (p : string) : string :=
  orRoot (stripTrailingSlashes (collapseSlashes p)).

Definition normalizePath (path : string) : string :=
  let trimmed := trim path in
  if String.eqb trimmed "" then "/"
  else
    let withLeadingSlash :=
      if startsWith "/" trimmed then trimmed else "/" ++ trimmed in
    let pieces := split "?" withLeadingSlash in
    let rawPath := nth 0 pieces "" in
    let rawQuery := nth 1 pieces "" in
    if String.eqb rawQuery "" then normalizedPath rawPath
    else normalizedPath rawPath ++ "?" ++ rawQuery.

(** The longest prefix of characters satisfying [p], and the rest. *)
Fixpoint span (p : ascii -> bool) (s : string) : string * string :=
  match s with
  | EmptyString => (EmptyString, EmptyString)
  | String c rest =>
      if p c then let '(taken, remaining) := span p rest in (String c taken, remaining)
      else (EmptyString, s)
  end.

Definition notIn (stops : list ascii) (c : ascii) : bool :=
  negb (existsb (Ascii.eqb c) stops).

(** A case-insensitive match of the literal [p] at the start of [s]: the
    text matched, in the case it has in [s], and the rest. *)
Fixpoint matchPrefixCI (p s : string) : option (string * string) :=
  match p with
  | EmptyString => Some (EmptyString, s)
  | String a p' =>
      match s with
      | String b s' =>
          if Ascii.eqb (upperChar a) (upperChar b) then
            match matchPrefixCI p' s' with
            | Some (matched, remaining) => Some (String b matched, remaining)
            | None => None
            end
          else None
      | EmptyString => None
      end
  end.

(** The scheme of the match: [http], an optional [s] tried first, then
    [://], ignoring case. *)
Definition matchScheme (s : string) : option (string * string) :=
  match matchPrefixCI "https://" s with
  | Some found => Some found
  | None => matchPrefixCI "http://" s
  end.

(** The match of [normalizeAbsoluteUrl], case-insensitive and anchored at the
    start: group 1 is the scheme [http://] or [https://] followed by a
    non-empty host without [/], [?] or [#]; group 2, optional, is a path that
    starts with [/] and runs up to the first [?] or [#]; group 3, optional, is
    a query that starts with [?] and runs up to the first [#].  A group that
    did not take part is [None]. *)
Definition matchAbsoluteUrl (s : string)
  : option (string * option string * option string) :=
  match matchScheme s with
  | None => None
  | Some (scheme, afterScheme) =>
      let '(host, afterHost) := span (notIn ["/"; "?"; "#"]%char) afterScheme in
      if String.eqb host "" then None
      else
        let '(group2, afterPath) :=
          match afterHost with
          | String "/" tail =>
              let '(p, remaining) := span (notIn ["?"; "#"]%char) tail in
              (Some (String "/" p), remaining)
          | _ => (None, afterHost)
          end in
        let group3 :=
          match afterPath with
          | String "?" tail =>
              Some (String "?" (fst (span (notIn ["#"]%char) tail)))
          | _ => None
          end in
        Some (scheme ++ host, group2, group3)
  end.

Definition normalizeAbsoluteUrl (urlText : string) : string :=
  match matchAbsoluteUrl (trim urlText) with
  | None => normalizePath urlText
  | Some (group1, group2, group3) =>
      let origin := stripTrailingSlashes group1 in
      let path := normalizedPath (match group2 with Some p => p | None => "/" end) in
      let query := match group3 with Some q => q | None => "" end in
      origin ++ path ++ query
  end.

Definition normalizeTarget (target : string) : string :=
  let trimmed := trim target in
  if String.eqb trimmed "" then "/"
  else if startsWith "http://" trimmed || startsWith "https://" trimmed
  then normalizeAbsoluteUrl trimmed
  else normalizePath trimmed.

Definition buildInFlightKey (method target : string) : string :=
  toUpperCase (trim method) ++ " " ++ normalizeTarget target.

(** ** The in-flight ledger

    A promise created by [withInFlightKey] is a handle into [requests].  Its
    life is: the [then] job that will call the factory is queued; the
    factory has been called and its result is awaited; the promise has
    settled and the [finally] job is queued; the [finally] job has run. *)

Abbreviation Handle := nat (only parsing).

Section Ledger.

Context {F R : Type}.

Inductive Phase : Type :=
| Queued (requestFactory : F)
| Running (requestFactory : F)
| Settled (outcome : R) (finallyRan : bool).

Record Request : Type := {
  reqKey : string;
  reqPhase : Phase
}.

Record Ledger : Type := {
  inFlightRequests : gmap string Handle;
  requests : list Request;
  (** the factories called so far, oldest first *)
  invocations : list (Handle * F)
}.

Definition emptyLedger : Ledger :=
  {| inFlightRequests := ∅; requests := []; invocations := [] |}.

Definition withInFlightKey (key : string) (requestFactory : F) (st : Ledger)
  : Handle * Ledger :=
  match inFlightRequests st !! key with
  | Some existing => (existing, st)
  | None =>
      let request := List.length (requests st) in
      (request,
       {| inFlightRequests := <[key := request]> (inFlightRequests st);
          requests := requests st ++ [{| reqKey := key; reqPhase := Queued requestFactory |}];
          invocations := invocations st |})
  end.

Definition setPhase (h : Handle) (p : Phase) (st : Ledger) : Ledger :=
  {| inFlightRequests := inFlightRequests st;
     requests := alter (fun r => {| reqKey := reqKey r; reqPhase := p |}) h (requests st);
     invocations := invocations st |}.

(** The [then] job: [requestFactory] is called. *)
Definition runFactory (h : Handle) (st : Ledger) : option Ledger :=
  match requests st !! h with
  | Some {| reqKey := _; reqPhase := Queued f |} =>
      let st' := setPhase h (Running f) st in
      Some {| inFlightRequests := inFlightRequests st';
              requests := requests st';
              invocations := invocations st ++ [(h, f)] |}
  | _ => None
  end.

(** The operation started by the factory settles, with a value or a
    failure. *)
Definition settle (h : Handle) (outcome : R) (st : Ledger) : option Ledger :=
  match requests st !! h with
  | Some {| reqKey := _; reqPhase := Running _ |} =>
      Some (setPhase h (Settled outcome false) st)
  | _ => None
  end.

(** The [finally] job:
    [if (inFlightRequests.get(key) === request) inFlightRequests.delete(key)] *)
Definition runFinally (h : Handle) (st : Ledger) : option Ledger :=
  match requests st !! h with
  | Some {| reqKey := key; reqPhase := Settled outcome false |} =>
      let st' := setPhase h (Settled outcome true) st in
      if decide (inFlightRequests st !! key = Some h) then
        Some {| inFlightRequests := delete key (inFlightRequests st');
                requests := requests st';
                invocations := invocations st' |}
      else Some st'
  | _ => None
  end.

Definition __getInFlightRequestCount (st : Ledger) : nat :=
  size (inFlightRequests st).

Definition __resetInFlightRequestsForTests (st : Ledger) : Ledger :=
  {| inFlightRequests := ∅; requests := requests st; invocations := invocations st |}.

(** What the application and the event loop can do to the ledger. *)
Inductive Event : Type :=
| Call (key : string) (requestFactory : F)
| RunFactory (h : Handle)
| Settle (h : Handle) (outcome : R)
| RunFinally (h : Handle).

Definition step (ev : Event) (st : Ledger) : option Ledger :=
  match ev with
  | Call key f => Some (snd (withInFlightKey key f st))
  | RunFactory h => runFactory h st
  | Settle h outcome => settle h outcome st
  | RunFinally h => runFinally h st
  end.

Fixpoint run (evs : list Event) (st : Ledger) : option Ledger :=
  match evs with
  | [] => Some st
  | ev :: rest =>
      match step ev st with
      | Some st' => run rest st'
      | None => None
      end
  end.

(** What a holder of [h] observes: nothing yet, or the outcome. *)
Definition observed (st : Ledger) (h : Handle) : option R :=
  match requests st !! h with
  | Some {| reqKey := _; reqPhase := Settled outcome _ |} => Some outcome
  | _ => None
  end.

(** The request has been created and has not settled. *)
Definition pending (st : Ledger) (h : Handle) (key : string) : Prop :=
  exists f, requests st !! h = Some {| reqKey := key; reqPhase := Queued f |}
         \/ requests st !! h = Some {| reqKey := key; reqPhase := Running f |}.

End Ledger.

Arguments Phase : clear implicits.
Arguments Request : clear implicits.
Arguments Ledger : clear implicits.
Arguments Event : clear implicits.

End InFlight.

(* ===================================================================== *)
(** * core/api/client.ts                                                  *)
(* ===================================================================== *)

Module Client.

Import Errors.
Local Open Scope Q_scope.

Definition MAX_RETRIES : Q := 2.
Definition RETRY_DELAY_MS : Q := 1000.
Definition RETRYABLE_METHODS : gset string := {[ "GET"; "HEAD"; "OPTIONS" ]}.

(** [set.has(s)] on a set of strings *)
Definition has (set : gset string) (s : string) : bool :=
  bool_decide (s ∈ set).

(** The request configuration, as far as the interceptor reads it. *)
Record RequestConfig : Type := {
  method : option string;
  url : string;
  _retryCount : option Q
}.

(** Response headers: an object with a [get] method, or a plain record. *)
Inductive Headers : Type :=
| HeadersWithGet (get : string -> value)
| HeadersRecord (fields : list (string * value)).

Record Response : Type := {
  status : Q;
  data : value;
  headers : option Headers
}.

Record AxiosError : Type := {
  config : option RequestConfig;
  response : option Response;
  errorCode : option string;
  errorMessage : string
}.

(** The module state: the handler slot, and the handlers called so far. *)
Record ClientState (H : Type) : Type := {
  onUnauthorized : option H;
  unauthorizedCalls : list H
}.

Arguments onUnauthorized {H}.
Arguments unauthorizedCalls {H}.

Definition setUnauthorizedHandler {H} (handler : H) (st : ClientState H)
  : ClientState H :=
  {| onUnauthorized := Some handler; unauthorizedCalls := unauthorizedCalls st |}.

(** [onUnauthorized?.()] *)
Definition callUnauthorized {H} (st : ClientState H) : ClientState H :=
  match onUnauthorized st with
  | Some handler =>
      {| onUnauthorized := onUnauthorized st;
         unauthorizedCalls := unauthorizedCalls st ++ [handler] |}
  | None => st
  end.

Definition getRetryAfterHeader (response : option Response) : value :=
  match response with
  | None => VUndefined
  | Some r =>
      match headers r with
      | None => VUndefined
      | Some (HeadersWithGet get) => get "retry-after"%string
      | Some (HeadersRecord record) =>
          nullish (getProp (VObj record) "retry-after") (getProp (VObj record) "Retry-After")
      end
  end.

Definition isRetryableMethod (method : option string) : bool :=
  match method with
  | None => false
  | Some m =>
      let normalizedMethod := toUpperCase (trim m) in
      if (String.length normalizedMethod =? 0)%nat then false
      else has RETRYABLE_METHODS normalizedMethod
  end.

Definition shouldTriggerReauth (method : option string) (appError : AppError) : bool :=
  if AppErrorCode_eqb (code appError) UNAUTHENTICATED then true
  else if AppErrorCode_eqb (code appError) FORBIDDEN && isRetryableMethod method then true
  else false.

(** [a < b] on numbers *)
Definition Qlt_bool (a b : Q) : bool := negb (Qle_bool b a).

(** [error.message || 'Network error'] *)
Definition messageOrDefault (error : AxiosError) : string :=
  if String.eqb (errorMessage error) "" then "Network error"%string
  else errorMessage error.

(** [error.response?.status ?? 0] and [error.response?.data] *)
Definition responseStatus (error : AxiosError) : Q :=
  match response error with Some r => status r | None => 0 end.

Definition responseData (error : AxiosError) : value :=
  match response error with Some r => data r | None => VUndefined end.

(** The error built when the failure carries no request configuration. *)
Definition fallbackError (rt : Runtime) (error : AxiosError) : AppError :=
  parseApiError rt (responseStatus error) (responseData error)
    (Some (messageOrDefault error)) (getRetryAfterHeader (response error)).

(** The error built when the request configuration is known. *)
Definition appErrorOf (rt : Runtime) (error : AxiosError) : AppError :=
  let networkMessage :=
    match errorCode error with
    | Some c => if String.eqb c "ECONNABORTED" then "Request timeout"%string
                else messageOrDefault error
    | None => messageOrDefault error
    end in
  parseApiError rt (responseStatus error) (responseData error)
    (match response error with Some _ => None | None => Some networkMessage end)
    (getRetryAfterHeader (response error)).

(** What the rejection handler of the response interceptor does. *)
Inductive Outcome : Type :=
| Retry (delayMs : Q) (again : RequestConfig)
| Reject (appError : AppError).

Definition onResponseError {H} (rt : Runtime) (st : ClientState H)
    (error : AxiosError) : ClientState H * Outcome :=
  match config error with
  | None =>
      let fallback := fallbackError rt error in
      let st' :=
        if AppErrorCode_eqb (code fallback) UNAUTHENTICATED
        then callUnauthorized st else st in
      (st', Reject fallback)
  | Some cfg =>
      let retryCount := match _retryCount cfg with Some n => n | None => 0 end in
      let appError := appErrorOf rt error in
      if Qlt_bool retryCount MAX_RETRIES
         && isRetryableMethod (method cfg)
         && shouldRetry appError
      then
        (st,
         Retry (RETRY_DELAY_MS * (retryCount + 1))
               {| method := method cfg; url := url cfg;
                  _retryCount := Some (retryCount + 1) |})
      else
        let st' :=
          if shouldTriggerReauth (method cfg) appError
          then callUnauthorized st else st in
        (st', Reject appError)
  end.

(** What one send of a request meets: an answer that axios accepts, or a
    failure, with the response, the error code and the message axios puts on
    the error. *)
Inductive Attempt : Type :=
| Answers (response : Response)
| Fails (response : option Response) (errorCode : option string) (errorMessage : string).

(** How the promise of a request settles. *)
Inductive Settlement : Type :=
| Fulfilled (response : Response)
| RejectedWith (appError : AppError).

(** [api.request(config)] behind the response interceptor.  [network] lists
    what the successive sends of the request meet.  An answer passes the
    fulfilment handler unchanged; a failure reaches the rejection handler as
    an error carrying the configuration that was sent, and a retry waits and
    sends the configuration the handler updated.  The result has the state of
    the module, the delays waited, oldest first, and the settlement; it is
    [None] when [network] ends while the request is still being retried. *)
Fixpoint request {H} (rt : Runtime) (network : list Attempt) (cfg : RequestConfig)
    (st : ClientState H) : option (ClientState H * list Q * Settlement) :=
  match network with
  | [] => None
  | Answers r :: _ => Some (st, [], Fulfilled r)
  | Fails r c m :: rest =>
      match onResponseError rt st
              {| config := Some cfg; response := r; errorCode := c; errorMessage := m |} with
      | (st', Reject appError) => Some (st', [], RejectedWith appError)
      | (st', Retry delayMs again) =>
          match request rt rest again st' with
          | Some (st'', delays, settlement) => Some (st'', delayMs :: delays, settlement)
          | None => None
          end
      end
  end.

End Client.

(* ===================================================================== *)
(** * core/utils/polling.ts                                               *)
(* ===================================================================== *)

Module Polling.

Local Open Scope Q_scope.

(** [random] is the value drawn by [Math.random()], in [[0, 1)]. *)
Definition getJitteredIntervalMs (random : Q) (baseMs : Q) : Q :=
  let factor := (8 # 10) + random * (4 # 10) in
  Math_max 1000 (inject_Z (Math_round (baseMs * factor))).

Definition BACKOFF_STEPS_MS : list Q := [2000; 5000; 10000; 20000; 60000].

(** [Math.min] on two numbers. *)
Definition Math_min (a b : Q) : Q := if Qle_bool a b then a else b.

(** [xs[index]] for a number [index]: [None] is [undefined], the result
    when the index is no integer or lies outside the array. *)
Definition elementAt (xs : list Q) (index : Q) : option Q :=
  if Qeq_bool (inject_Z (Qfloor index)) index && (0 <=? Qfloor index)%Z
  then nth_error xs (Z.to_nat (Qfloor index))
  else None.

Definition getPollingRetryDelayMs (attempt : Q) : option Q :=
  let index :=
    Math_max 0 (Math_min (inject_Z (Z.of_nat (List.length BACKOFF_STEPS_MS)) - 1) attempt) in
  elementAt BACKOFF_STEPS_MS index.

Definition shouldRetryPollingError (error : option Errors.AppError) : bool :=
  match error with
  | None => true
  | Some e =>
      Errors.AppErrorCode_eqb (Errors.code e) Errors.NETWORK
      || Errors.AppErrorCode_eqb (Errors.code e) Errors.SERVER
  end.

End Polling.

(* ===================================================================== *)
(** * core/auth/roleStorage.ts and core/auth/AuthContext.tsx              *)
(* ===================================================================== *)

Module AuthContext.

Import Errors.

Inductive RoleName : Type := admin | visitor.

(** [Role = 'admin' | 'visitor' | null] *)
Definition Role := option RoleName.

(** The persisted role: the text under the key [auth.role], and whether the
    storage backend works at all (a broken backend throws on every call). *)
Record RoleStorage : Type := {
  slot : option string;
  working : bool
}.

Definition roleOfText (text : option string) : Role :=
  match text with
  | Some s =>
      if String.eqb s "admin" then Some admin
      else if String.eqb s "visitor" then Some visitor
      else None
  | None => None
  end.

Definition textOfRole (r : RoleName) : string :=
  match r with admin => "admin" | visitor => "visitor" end.

(** [getStoredRole] and [setStoredRole]; [None] when the backend throws. *)
Definition getStoredRole (s : RoleStorage) : option Role :=
  if working s then Some (roleOfText (slot s)) else None.

Definition setStoredRole (role : Role) (s : RoleStorage) : option RoleStorage :=
  if working s then
    match role with
    | None => Some {| slot := None; working := working s |}
    | Some r => Some {| slot := Some (textOfRole r); working := working s |}
    end
  else None.

Definition safeGetStoredRole (s : RoleStorage) : Role :=
  match getStoredRole s with Some r => r | None => None end.

Definition safeSetStoredRole (role : Role) (s : RoleStorage) : RoleStorage :=
  match setStoredRole role s with Some s' => s' | None => s end.

(** The answer of [/settings/password-enabled], as far as it is read. *)
Record PasswordEnabledResponse : Type := {
  pe_loginRequired : option bool;
  pe_enabled : option bool
}.

Record AuthState : Type := {
  role : Role;
  hasValidSession : bool;
  loginRequired : bool;
  passwordEnabled : option PasswordEnabledResponse;
  loading : bool;
  error : option AppError;
  waitTimeMs : option Q
}.

(** The provider's state and the storage it writes to. *)
Record Session : Type := {
  state : AuthState;
  storage : RoleStorage
}.

(** The result of an awaited call. *)
Inductive Awaited (A : Type) : Type :=
| Resolved (a : A)
| Rejected (e : AppError).

Arguments Resolved {A}.
Arguments Rejected {A}.

Definition normalizeRole (role : value) : Role :=
  match role with
  | VStr s =>
      if String.eqb s "admin" then Some admin
      else if String.eqb s "visitor" then Some visitor
      else None
  | _ => None
  end.

Definition resolveStartupRole (loginRequired hasValidSession : bool)
    (probeRole : Role) : Role :=
  if negb loginRequired then None
  else if hasValidSession then probeRole else None.

(** [a ?? b] on roles *)
Definition orRole (a b : Role) : Role :=
  match a with Some _ => a | None => b end.

Definition getRoleFromSettings (settings : value) : Role :=
  if isNullish settings || negb (isTypeofObject settings) then None
  else
    orRole (normalizeRole (getProp settings "role"))
      (orRole (normalizeRole (getProp settings "userRole"))
              (normalizeRole (getProp settings "currentRole"))).

Definition isAuthFailure (e : AppError) : bool :=
  AppErrorCode_eqb (code e) UNAUTHENTICATED || AppErrorCode_eqb (code e) FORBIDDEN.

(** [refreshAuthConfig], given what [getPasswordEnabled()] and
    [getSettings()] answer.  [getSettings] is awaited at most once. *)
Definition refreshAuthConfig (passwordEnabledResult : Awaited PasswordEnabledResponse)
    (settingsResult : Awaited value) (w : Session) : Session :=
  let s0 := state w in
  (* setState(s => ({ ...s, loading: true, error: null })) *)
  let s1 := {| role := role s0; hasValidSession := hasValidSession s0;
               loginRequired := loginRequired s0;
               passwordEnabled := passwordEnabled s0;
               loading := true; error := None; waitTimeMs := waitTimeMs s0 |} in
  match passwordEnabledResult with
  | Resolved pe =>
      let loginRequired0 :=
        match pe_loginRequired pe with
        | Some b => b
        | None => match pe_enabled pe with Some b => b | None => false end
        end in
      let probeRole0 : Role :=
        if loginRequired0 then safeGetStoredRole (storage w) else None in
      let '(loginRequired1, hasValidSession1, probeRole1, probeError) :=
        if loginRequired0 then
          match settingsResult with
          | Resolved settings =>
              (loginRequired0, true,
               orRole (getRoleFromSettings settings) probeRole0, None)
          | Rejected err =>
              if isAuthFailure err then (loginRequired0, false, probeRole0, None)
              else (false, false, probeRole0, Some err)
          end
        else (loginRequired0, negb loginRequired0, probeRole0, None) in
      let resolvedRole :=
        resolveStartupRole loginRequired1 hasValidSession1 probeRole1 in
      {| state :=
           {| role := resolvedRole; hasValidSession := hasValidSession1;
              loginRequired := loginRequired1; passwordEnabled := Some pe;
              loading := false; error := probeError;
              waitTimeMs := waitTimeMs s1 |};
         storage := safeSetStoredRole resolvedRole (storage w) |}
  | Rejected err =>
      let '(loginRequired1, hasValidSession1, resolvedRole, startupError) :=
        match settingsResult with
        | Resolved settings => (false, true, getRoleFromSettings settings, None)
        | Rejected probeErr =>
            if isAuthFailure probeErr then (true, false, None, None)
            else (false, false, None, Some probeErr)
        end in
      {| state :=
           {| role := resolvedRole; hasValidSession := hasValidSession1;
              loginRequired := loginRequired1;
              passwordEnabled := passwordEnabled s1;
              loading := false; error := startupError;
              waitTimeMs := waitTimeMs s1 |};
         storage := safeSetStoredRole resolvedRole (storage w) |}
  end.

(** The handler given to [setUnauthorizedHandler]. *)
Definition unauthorizedHandler (w : Session) : Session :=
  {| state :=
       {| role := None; hasValidSession := false;
          loginRequired := loginRequired (state w);
          passwordEnabled := passwordEnabled (state w);
          loading := loading (state w); error := error (state w);
          waitTimeMs := waitTimeMs (state w) |};
     storage := safeSetStoredRole None (storage w) |}.

(** [logout]: [try { await apiLogout() } finally { ... }].  The result is
    what the promise returned by [logout()] settles with. *)
Definition logout (apiLogout : Awaited value) (w : Session)
  : Session * Awaited unit :=
  let w' :=
    {| state :=
         {| role := None; hasValidSession := false;
            loginRequired := loginRequired (state w);
            passwordEnabled := passwordEnabled (state w);
            loading := loading (state w); error := None;
            waitTimeMs := None |};
       storage := safeSetStoredRole None (storage w) |} in
  match apiLogout with
  | Resolved _ => (w', Resolved tt)
  | Rejected e => (w', Rejected e)
  end.

(** [LoginResponse]: a success with the role granted, or a failure. *)
Record LoginFailure : Type := {
  lf_waitTime : option Q;
  lf_message : option string;
  lf_statusCode : option Q
}.

Inductive LoginResponse : Type :=
| LoginSucceeded (granted : RoleName)
| LoginFailed (fail : LoginFailure).

Definition loginFailureErrorCode (body : LoginFailure) : AppErrorCode :=
  match lf_statusCode body with
  | Some statusCode => if Qeq_bool statusCode 429 then RATE_LIMIT else UNAUTHENTICATED
  | None => UNAUTHENTICATED
  end.

(** The error object a failed login puts in the state: a code, a message
    and the wait time, nothing else. *)
Definition loginError (fallback : string) (fail : LoginFailure) : AppError :=
  {| code := loginFailureErrorCode fail;
     httpStatus := None;
     message := VStr (match lf_message fail with Some m => m | None => fallback end);
     backendType := VUndefined;
     recoverable := VUndefined;
     Errors.waitTimeMs := lf_waitTime fail;
     retryAfterMs := None;
     raw := VUndefined |}.

(** The body shared, word for word, by [loginAsAdmin], [loginAsVisitor] and
    [loginWithPasskey]; they differ in the endpoint awaited and in the
    fallback message.  The result is what the returned promise resolves
    with. *)
Definition loginWith (fallback : string) (verify : Awaited LoginResponse) (w : Session)
  : Session * bool :=
  let s := state w in
  match verify with
  | Resolved (LoginSucceeded granted) =>
      ({| state :=
            {| role := Some granted; hasValidSession := true;
               loginRequired := loginRequired s; passwordEnabled := passwordEnabled s;
               loading := loading s; error := None; waitTimeMs := None |};
          storage := safeSetStoredRole (Some granted) (storage w) |},
       true)
  | Resolved (LoginFailed fail) =>
      ({| state :=
            {| role := role s; hasValidSession := false;
               loginRequired := loginRequired s; passwordEnabled := passwordEnabled s;
               loading := loading s; error := Some (loginError fallback fail);
               waitTimeMs := lf_waitTime fail |};
          storage := storage w |},
       false)
  | Rejected err =>
      ({| state :=
            {| role := role s; hasValidSession := false;
               loginRequired := loginRequired s; passwordEnabled := passwordEnabled s;
               loading := loading s; error := Some err;
               waitTimeMs := Errors.waitTimeMs err |};
          storage := storage w |},
       false)
  end.

Definition loginAsAdmin (verifyAdminPassword : Awaited LoginResponse) :=
  loginWith "Login failed" verifyAdminPassword.

Definition loginAsVisitor (verifyVisitorPassword : Awaited LoginResponse) :=
  loginWith "Login failed" verifyVisitorPassword.

Definition loginWithPasskey (passkeysAuthenticateVerify : Awaited LoginResponse) :=
  loginWith "Passkey login failed" passkeysAuthenticateVerify.


(** The session [AuthProvider] starts with: the state given to [useState],
    whose role is the stored one. *)
Definition initialSession (store : RoleStorage) : Session :=
  {| state :=
       {| role := safeGetStoredRole store; hasValidSession := false;
          loginRequired := false; passwordEnabled := None;
          loading := true; error := None; waitTimeMs := None |};
     storage := store |}.

End AuthContext.

(* ===================================================================== *)
(** * core/auth/passkey.ts: the base64url codec                           *)
(* ===================================================================== *)

Module Passkey.

Local Open Scope Z_scope.

Definition BASE64_CHARS : string :=
  "ABCDEFGHIJKLMNOPQRSTUVWXYZabcdefghijklmnopqrstuvwxyz0123456789+/".

(** [s.indexOf(ch)] for a one-character [ch]: the first position, or -1. *)
Fixpoint indexFrom (ch : ascii) (s : string) (i : Z) : Z :=
  match s with
  | EmptyString => -1
  | String c rest => if Ascii.eqb c ch then i else indexFrom ch rest (i + 1)
  end.

Definition indexOf (s : string) (ch : ascii) : Z := indexFrom ch s 0.

(** [output += BASE64_CHARS[i]]: the text appended, which is [undefined]
    spelled out when the index is outside the alphabet. *)
Definition charAt (i : Z) : string :=
  if i <? 0 then "undefined"%string
  else
    match String.get (Z.to_nat i) BASE64_CHARS with
    | Some ch => String ch EmptyString
    | None => "undefined"%string
    end.

(** The characters kept by [replace(/[^A-Za-z0-9+/=]/g, '')]. *)
Definition isBase64Char (c : ascii) : bool :=
  let n := nat_of_ascii c in
  ((65 <=? n)%nat && (n <=? 90)%nat)
  || ((97 <=? n)%nat && (n <=? 122)%nat)
  || ((48 <=? n)%nat && (n <=? 57)%nat)
  || Ascii.eqb c "+" || Ascii.eqb c "/" || Ascii.eqb c "=".

Fixpoint keepChars (ok : ascii -> bool) (s : string) : string :=
  match s with
  | EmptyString => EmptyString
  | String c rest =>
      if ok c then String c (keepChars ok rest) else keepChars ok rest
  end.

(** [clean[i] ?? 'A'] *)
Definition orA (c : option ascii) : ascii :=
  match c with Some ch => ch | None => "A"%char end.

(** [clean[i] === '=' ? -1 : BASE64_CHARS.indexOf(clean[i] ?? 'A')] *)
Definition indexOrPad (c : option ascii) : Z :=
  match c with
  | Some ch => if Ascii.eqb ch "=" then -1 else indexOf BASE64_CHARS ch
  | None => indexOf BASE64_CHARS "A"
  end.

(** One turn of the loop of [decodeBase64]: the bytes pushed for the four
    characters at [i .. i+3], the first of which exists. *)
Definition decodeQuad (a : ascii) (b c d : option ascii) : list Z :=
  let c1 := indexOf BASE64_CHARS a in
  let c2 := indexOf BASE64_CHARS (orA b) in
  let c3 := indexOrPad c in
  let c4 := indexOrPad d in
  let n1 := Z.lor (Z.shiftl c1 2) (Z.shiftr c2 4) in
  [Z.land n1 255]
  ++ (if 0 <=? c3
      then [Z.land (Z.lor (Z.shiftl (Z.land c2 15) 4) (Z.shiftr c3 2)) 255]
      else [])
  ++ (if (0 <=? c3) && (0 <=? c4)
      then [Z.land (Z.lor (Z.shiftl (Z.land c3 3) 6) c4) 255]
      else []).

(** The loop [for (i = 0; i < clean.length; i += 4)]. *)
Fixpoint decodeQuads (clean : string) : list Z :=
  match clean with
  | EmptyString => []
  | String a rest1 =>
      match rest1 with
      | EmptyString => decodeQuad a None None None
      | String b rest2 =>
          match rest2 with
          | EmptyString => decodeQuad a (Some b) None None
          | String c rest3 =>
              match rest3 with
              | EmptyString => decodeQuad a (Some b) (Some c) None
              | String d rest =>
                  decodeQuad a (Some b) (Some c) (Some d) ++ decodeQuads rest
              end
          end
      end
  end.

Definition decodeBase64 (base64 : string) : list Z :=
  decodeQuads (keepChars isBase64Char base64).

(** One turn of the loop of [encodeBase64]: the four characters appended
    for the bytes at [i .. i+2], an absent byte being read as 0. *)
Definition encodeTriple (b1 b2 b3 : Z) (hasB2 hasB3 : bool) : string :=
  let c1 := Z.shiftr b1 2 in
  let c2 := Z.lor (Z.shiftl (Z.land b1 3) 4) (Z.shiftr b2 4) in
  let c3 := Z.lor (Z.shiftl (Z.land b2 15) 2) (Z.shiftr b3 6) in
  let c4 := Z.land b3 63 in
  (charAt c1 ++ charAt c2
   ++ (if hasB2 then charAt c3 else "=")
   ++ (if hasB3 then charAt c4 else "="))%string.

(** The loop [for (i = 0; i < bytes.length; i += 3)].  A [Uint8Array] is a
    list of integers between 0 and 255. *)
Fixpoint encodeBase64 (bytes : list Z) : string :=
  match bytes with
  | [] => EmptyString
  | b1 :: rest1 =>
      match rest1 with
      | [] => encodeTriple b1 0 0 false false
      | b2 :: rest2 =>
          match rest2 with
          | [] => encodeTriple b1 b2 0 true false
          | b3 :: rest => (encodeTriple b1 b2 b3 true true ++ encodeBase64 rest)%string
          end
      end
  end.

(** [s.replace(/x/g, 'y')] for single characters *)
Fixpoint replaceChar (x y : ascii) (s : string) : string :=
  match s with
  | EmptyString => EmptyString
  | String c rest =>
      String (if Ascii.eqb c x then y else c) (replaceChar x y rest)
  end.

(** [s.replace(/=+$/g, '')]: the trailing run of [=] is removed. *)
Fixpoint stripPadding (s : string) : string :=
  match s with
  | EmptyString => EmptyString
  | String c rest =>
      match stripPadding rest with
      | EmptyString => if Ascii.eqb c "=" then EmptyString else String c EmptyString
      | kept => String c kept
      end
  end.

(** [while (base64.length % 4 !== 0) base64 += '=']; the loop body runs at
    most three times, which is the fuel given by [base64UrlToArrayBuffer]. *)
Fixpoint padLoop (fuel : nat) (base64 : string) : string :=
  match fuel with
  | O => base64
  | S fuel' =>
      if (Nat.modulo (String.length base64) 4 =? 0)%nat then base64
      else padLoop fuel' (base64 ++ "=")%string
  end.

Definition base64UrlToArrayBuffer (base64Url : string) : list Z :=
  let base64 := padLoop 3 (replaceChar "_" "/" (replaceChar "-" "+" base64Url)) in
  decodeBase64 base64.

Definition toBase64Url (value : list Z) : string :=
  stripPadding (replaceChar "/" "_" (replaceChar "+" "-" (encodeBase64 value))).

End Passkey.

(* ===================================================================== *)
(** * core/utils/duration.ts                                              *)
(* ===================================================================== *)

From Stdlib Require Import DecimalString DecimalN.

Module Duration.

Import InFlight.
Local Open Scope Z_scope.

Definition isDigit (c : ascii) : bool :=
  let n := nat_of_ascii c in (48 <=? n)%nat && (n <=? 57)%nat.


(** [parseInt(text, 10)]: leading white space is skipped, a sign is read,
    then the longest run of digits; [None] is NaN, the result when no digit
    is found. *)
Definition parseInt10 (text : string) : option Z :=
  let s := trimStart text in
  let '(negative, unsigned) :=
    match s with
    | String c rest =>
        if Ascii.eqb c "-" then (true, rest)
        else if Ascii.eqb c "+" then (false, rest)
        else (false, s)
    | EmptyString => (false, s)
    end in
  let digits := fst (span isDigit unsigned) in
  match digits with
  | EmptyString => None
  | _ =>
      match NilEmpty.uint_of_string digits with
      | Some d =>
          let magnitude := Z.of_N (N.of_uint d) in
          Some (if negative then - magnitude else magnitude)
      | None => None
      end
  end.

Definition isNaN (n : option Z) : bool :=
  match n with Some _ => false | None => true end.

Definition parseDurationToSeconds (hhmmss : string) : Z :=
  if String.eqb hhmmss "" then 0
  else
    let parts := map parseInt10 (split ":" (trim hhmmss)) in
    let part i := match nth i parts None with Some n => n | None => 0 end in
    if existsb isNaN parts then 0
    else if (List.length parts =? 1)%nat then part 0%nat
    else if (List.length parts =? 2)%nat then part 0%nat * 60 + part 1%nat
    else if (3 <=? List.length parts)%nat
         then part 0%nat * 3600 + part 1%nat * 60 + part 2%nat
    else 0.



End Duration.

(* ===================================================================== *)
(** * features/downloads: the polling callbacks of the downloads screen   *)
(* ===================================================================== *)

Module DownloadsScreen.

Import Errors Polling.
Local Open Scope Q_scope.

(** [DownloadStatusResponse]; the code guards both fields with [?.], so
    each may be missing. *)
Record DownloadStatusResponse : Type := {
  activeDownloads : option (list value);
  queuedDownloads : option (list value)
}.

Definition shouldStopPolling (error : option AppError) : bool :=
  match error with
  | Some e =>
      AppErrorCode_eqb (code e) UNAUTHENTICATED || AppErrorCode_eqb (code e) FORBIDDEN
  | None => false
  end.

Definition isRateLimited (error : option AppError) : bool :=
  match error with
  | Some e => AppErrorCode_eqb (code e) RATE_LIMIT
  | None => false
  end.

(** [items?.length ?? 0] *)
Definition lengthOrZero (items : option (list value)) : Q :=
  match items with
  | Some xs => inject_Z (Z.of_nat (List.length xs))
  | None => 0
  end.

(** [data?.field] *)
Definition field (data : option DownloadStatusResponse)
    (get : DownloadStatusResponse -> option (list value)) : option (list value) :=
  match data with
  | Some d => get d
  | None => None
  end.

(** The branch taken after a rate limit: the hint of the server when the
    error carries one, else a long jittered interval. *)
Definition rateLimitInterval (random : Q) (error : option AppError) : Q :=
  match error with
  | Some {| retryAfterMs := Some hint |} => Math_max 1000 hint
  | _ => getJitteredIntervalMs random 60000
  end.

(** [refetchInterval] of the status query; [None] is [false], no refetch
    is scheduled.  [random] is what [Math.random()] draws when it is
    called. *)
Definition statusRefetchInterval (random : Q) (canPoll : bool)
    (error : option AppError) (data : option DownloadStatusResponse) : option Q :=
  if negb canPoll then None
  else if shouldStopPolling error then None
  else if isRateLimited error then Some (rateLimitInterval random error)
  else
    let active := lengthOrZero (field data activeDownloads) in
    let queued := lengthOrZero (field data queuedDownloads) in
    if Client.Qlt_bool 0 active || Client.Qlt_bool 0 queued
    then Some (getJitteredIntervalMs random 2000)
    else None.

(** [hasQueueWork], from the data of the status query:
    [data?.activeDownloads ?? []] is not empty, or the queued list is not. *)
Definition hasQueueWork (data : option DownloadStatusResponse) : bool :=
  let activeDownloads := match field data activeDownloads with Some xs => xs | None => [] end in
  let queuedDownloads := match field data queuedDownloads with Some xs => xs | None => [] end in
  Client.Qlt_bool 0 (inject_Z (Z.of_nat (List.length activeDownloads)))
  || Client.Qlt_bool 0 (inject_Z (Z.of_nat (List.length queuedDownloads))).

(** [refetchInterval] of the history query. *)
Definition historyRefetchInterval (random : Q) (canPoll : bool)
    (error : option AppError) (hasQueueWork : bool) : option Q :=
  if negb canPoll then None
  else if shouldStopPolling error then None
  else if isRateLimited error then Some (rateLimitInterval random error)
  else if hasQueueWork then Some (getJitteredIntervalMs random 5000)
  else Some (getJitteredIntervalMs random 30000).

(** [retry] of both queries. *)
Definition retry (canPoll : bool) (failureCount : Q) (appError : AppError) : bool :=
  if negb canPoll then false
  else if shouldStopPolling (Some appError)
          || AppErrorCode_eqb (code appError) RATE_LIMIT
          || negb (shouldRetryPollingError (Some appError))
  then false
  else Client.Qlt_bool failureCount 5.

End DownloadsScreen.

(* ===================================================================== *)
(** * core/utils/roleGate.ts and hooks/useCanMutate.ts                    *)
(* ===================================================================== *)

Module RoleGate.

Import AuthContext.

Definition VISITOR_SETTINGS_EDITABLE_KEYS : gset string :=
  {[ "cloudflaredTunnelEnabled"; "cloudflaredToken" ]}.

Definition isAdmin (role : Role) : bool :=
  match role with Some admin => true | _ => false end.

Definition isVisitor (role : Role) : bool :=
  match role with Some visitor => true | _ => false end.

Definition canMutate (role : Role) (loginRequired : bool) : bool :=
  if negb loginRequired then negb (isVisitor role)
  else isAdmin role.

Definition canEditSettings (role : Role) (keys : list string) (loginRequired : bool) : bool :=
  if negb loginRequired && negb (isVisitor role) then true
  else if isAdmin role then true
  else if negb (isVisitor role) then false
  else forallb (Client.has VISITOR_SETTINGS_EDITABLE_KEYS) keys.

(** [useCanMutate], on the state the provider holds. *)
Definition useCanMutate (s : AuthState) : bool :=
  canMutate (role s) (loginRequired s).

End RoleGate.

(* ===================================================================== *)
(** * Vocabulary of the specification                                     *)
(* ===================================================================== *)

Import Errors Unwrap InFlight Client Polling AuthContext.

(** A runtime whose text conversions recognise nothing; no property below
    depends on the runtime. *)
Definition testRuntime : Runtime :=
  {| Number_of_string := fun _ => None;
     Date_parse := fun _ => None;
     Date_now := 0;
     Number_toString := fun _ => "0" |}.

(** The body is an object with [success === false] and a numeric
    [statusCode]. *)
Definition declaresStatus (body : value) (statusCode : Q) : Prop :=
  exists fields,
    body = VObj fields
    /\ assoc "success" fields = Some (VBool false)
    /\ assoc "statusCode" fields = Some (VNum statusCode).

(** There is no body and a non-empty network message is given. *)
Definition networkFailure (body : value) (networkMessage : option string) : Prop :=
  isNullish body = true /\ exists m, networkMessage = Some m /\ m <> "".

(** The status-to-code table of the specification. *)
Definition codeForStatus (status : Q) (c : AppErrorCode) : Prop :=
  (status == 401 /\ c = UNAUTHENTICATED)%Q
  \/ (status == 403 /\ c = FORBIDDEN)%Q
  \/ (status == 404 /\ c = NOT_FOUND)%Q
  \/ (status == 409 /\ c = CONFLICT)%Q
  \/ (status == 429 /\ c = RATE_LIMIT)%Q
  \/ (status == 400 /\ c = VALIDATION)%Q
  \/ (500 <= status /\ c = SERVER)%Q
  \/ (~ status == 401 /\ ~ status == 403 /\ ~ status == 404 /\ ~ status == 409
      /\ ~ status == 429 /\ ~ status == 400 /\ status < 500 /\ c = UNKNOWN)%Q.

(** The status is one of the statuses that are never retried. *)
Definition nonRetryableStatus (status : Q) : Prop :=
  Exists (Qeq status) NO_RETRY_STATUSES.

(** An error that carries a code, a status and a message, and nothing else. *)
Definition plainError (c : AppErrorCode) (status : option Q) (text : string) : AppError :=
  {| code := c; httpStatus := status; message := VStr text;
     backendType := VUndefined; recoverable := VUndefined;
     Errors.waitTimeMs := None; retryAfterMs := None; raw := VUndefined |}.

(** The value is an envelope around [payload]: an object with
    [success === true] and a [data] key holding [payload]. *)
Definition isEnvelope (raw payload : value) : Prop :=
  exists fields,
    raw = VObj fields
    /\ assoc "success" fields = Some (VBool true)
    /\ assoc "data" fields = Some payload.

(** The value is not an envelope around anything: a bare payload. *)
Definition isBare (raw : value) : Prop := forall payload, ~ isEnvelope raw payload.

(** The method, trimmed and uppercased, is one of [names]. *)
Definition methodAmong (names : list string) (m : option string) : Prop :=
  exists s, m = Some s /\ In (toUpperCase (trim s)) names.

(** The idempotent read methods and the write methods. *)
Definition isReadMethod : option string -> Prop :=
  methodAmong ["GET"; "HEAD"; "OPTIONS"].

Definition isWriteMethod : option string -> Prop :=
  methodAmong ["POST"; "PUT"; "PATCH"; "DELETE"].

(** The method, the retry count and the classified error of a failed
    request, as the interceptor reads them. *)
Definition requestMethod (error : AxiosError) : option string :=
  match config error with Some cfg => method cfg | None => None end.

Definition retryCountOf (error : AxiosError) : Q :=
  match config error with
  | Some cfg => match _retryCount cfg with Some n => n | None => 0%Q end
  | None => 0%Q
  end.

Definition classified (rt : Runtime) (error : AxiosError) : AppError :=
  match config error with
  | Some _ => appErrorOf rt error
  | None => fallbackError rt error
  end.

(** The policy of the reauthentication trigger. *)
Definition reauthRequired (m : option string) (e : AppError) : Prop :=
  code e = UNAUTHENTICATED \/ (code e = FORBIDDEN /\ isReadMethod m).

(** A failed [GET] without a response: the connection was lost. *)
Definition lostGet (retries : option Q) : AxiosError :=
  {| config := Some {| method := Some "get"; url := "/videos"; _retryCount := retries |};
     response := None; errorCode := None; errorMessage := "Network Error" |}.

(** A request answered with [status] and an empty body. *)
Definition answered (m : string) (code : Q) : AxiosError :=
  {| config := Some {| method := Some m; url := "/videos"; _retryCount := None |};
     response := Some {| status := code; data := VObj []; headers := None |};
     errorCode := None; errorMessage := "Request failed" |}.

(** The range the specification gives for a jittered interval:
    [[max(1000, 0.8 B), 1.2 B]]. *)
Definition inJitterBand (baseMs v : Q) : Prop :=
  (Math_max 1000 ((8 # 10) * baseMs) <= v /\ v <= (12 # 10) * baseMs)%Q.

(** The same range with both ends rounded to whole milliseconds, as the
    sample is, and the floor of one second applied to both ends. *)
Definition inRoundedJitterBand (baseMs v : Q) : Prop :=
  (Math_max 1000 (inject_Z (Math_round ((8 # 10) * baseMs))) <= v
   /\ v <= Math_max 1000 (inject_Z (Math_round ((12 # 10) * baseMs))))%Q.

Section LedgerVocabulary.

Context {F R : Type}.

(** The [finally] job of the request has run. *)
Definition cleanedUp (p : Phase F R) : bool :=
  match p with Settled _ true => true | _ => false end.

(** The ledger and the requests agree: a registered handle is a request
    made under that key whose [finally] job has not run, and every request
    whose [finally] job has not run is the one registered under its key. *)
Record consistent (st : Ledger F R) : Prop := {
  registered_live : forall k h,
    inFlightRequests st !! k = Some h ->
    exists p, requests st !! h = Some {| reqKey := k; reqPhase := p |}
              /\ cleanedUp p = false;
  live_registered : forall h k p,
    requests st !! h = Some {| reqKey := k; reqPhase := p |} ->
    cleanedUp p = false ->
    inFlightRequests st !! k = Some h
}.

(** The ledger is what some sequence of calls and jobs makes of the empty
    ledger. *)
Definition reachable (st : Ledger F R) : Prop :=
  exists evs, run evs emptyLedger = Some st.

(** The event is not the [finally] job of [h]. *)
Definition notFinallyOf (h : Handle) (ev : Event F R) : Prop :=
  match ev with RunFinally h' => h' <> h | _ => True end.

End LedgerVocabulary.

(** The non-empty pieces of a path between its slashes. *)
Definition nonEmpty (s : string) : bool := negb (String.eqb s "").

Definition segments (p : string) : list string :=
  List.filter nonEmpty (split "/" p).

(** The normal form of a path in the words of the specification: repeated
    slashes collapsed and trailing slashes stripped, that is, every segment
    preceded by exactly one slash; the path without segments is the root. *)
Definition canonicalPath (p : string) : string :=
  "/" ++ String.concat "/" (segments p).

Fixpoint allChars (ok : ascii -> bool) (s : string) : bool :=
  match s with
  | EmptyString => true
  | String c rest => ok c && allChars ok rest
  end.

(** The parts of an absolute http(s) URL. *)
Definition isHttpScheme (scheme : string) : Prop :=
  scheme = "http://" \/ scheme = "https://".





(** A relative target: after trimming it starts with neither [http://] nor
    [https://]. *)
Definition isRelative (target : string) : Prop :=
  startsWith "http://" (trim target) = false
  /\ startsWith "https://" (trim target) = false.


(** A target that starts with the scheme of an absolute URL but names no
    host: nothing, or one of [/], [?], [#], follows the scheme. *)
Definition isHostless (target : string) : Prop :=
  exists scheme rest,
    isHttpScheme scheme
    /\ trim target = scheme ++ rest
    /\ match rest with
       | EmptyString => True
       | String c _ => notIn ["/"; "?"; "#"]%char c = false
       end.

(** A relative target with its leading slash, and its query as it is kept:
    the text between the first and the second question mark, when not
    empty. *)
Definition withLeadingSlash (target : string) : string :=
  if startsWith "/" (trim target) then trim target else "/" ++ trim target.

Definition keptQuery (target : string) : string :=
  match nth 1 (split "?" (withLeadingSlash target)) "" with
  | EmptyString => ""
  | q => "?" ++ q
  end.

(** The text [stripTrailingSlashes (collapseSlashes p)] in terms of the
    segments of [p]: the segments joined by single slashes, after a slash
    when [p] starts with one. *)
Definition joined (lead : bool) (segs : list string) : string :=
  match segs with
  | [] => ""
  | _ => (if lead then "/" else "") ++ String.concat "/" segs
  end.

(** [b] is empty or starts with a character outside [ok]. *)
Definition stopsAt (ok : ascii -> bool) (b : string) : Prop :=
  match b with
  | EmptyString => True
  | String c _ => ok c = false
  end.





(* ===================================================================== *)
(** * Vocabulary for the rest of the code                                 *)
(* ===================================================================== *)

Import Passkey Duration DownloadsScreen RoleGate.

(** An element of a [Uint8Array]. *)
Definition isByte (b : Z) : Prop := (0 <= b < 256)%Z.

(** The character of the alphabet for a six-bit value. *)
Definition sextetChar (c : Z) : ascii :=
  match String.get (Z.to_nat c) BASE64_CHARS with
  | Some ch => ch
  | None => "A"%char
  end.

(** The characters of base64url text: letters, digits, [-] and [_]. *)
Definition isUrlSafeChar (c : ascii) : bool :=
  let n := nat_of_ascii c in
  ((65 <=? n)%nat && (n <=? 90)%nat)
  || ((97 <=? n)%nat && (n <=? 122)%nat)
  || ((48 <=? n)%nat && (n <=? 57)%nat)
  || Ascii.eqb c "-" || Ascii.eqb c "_".

(** A character of the base64 alphabet proper, padding excluded. *)
Definition isSextetChar (c : ascii) : bool :=
  isBase64Char c && negb (Ascii.eqb c "=").

(** [k] padding characters. *)
Fixpoint padding (k : nat) : string :=
  match k with
  | O => EmptyString
  | S k' => String "=" (padding k')
  end.

(** The four six-bit values the encoder derives from three bytes. *)
Definition sextet1 (b1 : Z) : Z := Z.shiftr b1 2.
Definition sextet2 (b1 b2 : Z) : Z := Z.lor (Z.shiftl (Z.land b1 3) 4) (Z.shiftr b2 4).
Definition sextet3 (b2 b3 : Z) : Z := Z.lor (Z.shiftl (Z.land b2 15) 2) (Z.shiftr b3 6).
Definition sextet4 (b3 : Z) : Z := Z.land b3 63.

(** The integers from 0 up to, not including, [n]. *)
Definition below (n : nat) : list Z := map Z.of_nat (seq 0 n).

(** The two replacements of [toBase64Url], and those of
    [base64UrlToArrayBuffer] that undo them. *)
Definition toUrlChars (s : string) : string :=
  replaceChar "/" "_" (replaceChar "+" "-" s).

Definition fromUrlChars (s : string) : string :=
  replaceChar "_" "/" (replaceChar "-" "+" s).




(** The error is an authentication failure. *)
Definition isAuthError (error : option AppError) : Prop :=
  exists e, error = Some e /\ (code e = UNAUTHENTICATED \/ code e = FORBIDDEN).


(** The delay the server asked for: the retry hint of a rate-limit error. *)
Definition serverHint (error : option AppError) : option Q :=
  match error with
  | Some e => if AppErrorCode_eqb (code e) RATE_LIMIT then retryAfterMs e else None
  | None => None
  end.

(** The last poll was rate limited. *)
Definition rateLimited (error : option AppError) : Prop :=
  exists e, error = Some e /\ code e = RATE_LIMIT.

(** The code of a transient failure. *)
Definition isTransient (c : AppErrorCode) : Prop := c = NETWORK \/ c = SERVER.


(** The error axios reports for a failed send of [cfg]. *)
Definition failureOf (cfg : RequestConfig) (r : option Response) (c : option string)
    (m : string) : AxiosError :=
  {| config := Some cfg; response := r; errorCode := c; errorMessage := m |}.

(** A request as the [api*] helpers send it: no retry counted yet. *)
Definition freshRequest (cfg : RequestConfig) : Prop := _retryCount cfg = None.

(** The handlers the client has called, run in order on a session. *)
Definition runCalls (calls : list (Session -> Session)) (w : Session) : Session :=
  fold_left (fun w' handler => handler w') calls w.

(** The session holds no role, neither in the state nor in the storage. *)
Definition signedOut (w : Session) : Prop :=
  role (state w) = None /\ hasValidSession (state w) = false
  /\ safeGetStoredRole (storage w) = None.




(** The three ways to log in. *)
Definition logins : list (Awaited LoginResponse -> Session -> Session * bool) :=
  [loginAsAdmin; loginAsVisitor; loginWithPasskey].

(** A settings key a visitor may write. *)
Definition visitorEditable (key : string) : Prop :=
  key = "cloudflaredTunnelEnabled" \/ key = "cloudflaredToken".

Section LedgerVocabularyMore.

Context {F R : Type}.



(** Every request made so far has settled and had its [finally] job run. *)
Definition allCleanedUp (st : Ledger F R) : Prop :=
  forall h r, requests st !! h = Some r -> cleanedUp (reqPhase r) = true.

(** The jobs that complete a request from the phase it is in, [outcome]
    being what its operation settles with. *)
Definition finish (outcome : R) (h : nat) (p : Phase F R) : list (Event F R) :=
  match p with
  | Queued _ => [RunFactory h; Settle h outcome; RunFinally h]
  | Running _ => [Settle h outcome; RunFinally h]
  | Settled _ false => [RunFinally h]
  | Settled _ true => []
  end.

End LedgerVocabularyMore.

(** The method, trimmed, is one word: it contains no space. *)
Definition notSpace (c : ascii) : bool := negb (Ascii.eqb c " ").

Definition isToken (method : string) : Prop := allChars notSpace (trim method) = true.

(** The path of a relative target: the text before its first question
    mark, with the leading slash. *)
Definition pathPart (target : string) : string :=
  nth 0 (split "?" (withLeadingSlash target)) "".

(** A character of a path segment: neither a slash nor a question mark. *)
Definition isSegmentChar (c : ascii) : bool := notIn ["/"; "?"]%char c.

(* ===================================================================== *)
(** * Properties of the error classifier                                  *)
(* ===================================================================== *)

Lemma Qeq_bool_false_neq (a b : Q) : Qeq_bool a b = false -> ~ (a == b)%Q.
Proof. intros H E. apply Qeq_bool_iff in E. congruence. Qed.

Lemma Qle_bool_false_lt (a b : Q) : Qle_bool a b = false -> (b < a)%Q.
Proof.
  intros H. apply Qnot_le_lt. intros L. apply Qle_bool_iff in L. congruence.
Qed.

Lemma mapStatusToCode_table (status : Q) :
  codeForStatus status (mapStatusToCode status).
Proof.
  unfold codeForStatus, mapStatusToCode.
  destruct (Qeq_bool status 401) eqn:E401;
    [ apply Qeq_bool_iff in E401; tauto | apply Qeq_bool_false_neq in E401 ].
  destruct (Qeq_bool status 403) eqn:E403;
    [ apply Qeq_bool_iff in E403; tauto | apply Qeq_bool_false_neq in E403 ].
  destruct (Qeq_bool status 404) eqn:E404;
    [ apply Qeq_bool_iff in E404; tauto | apply Qeq_bool_false_neq in E404 ].
  destruct (Qeq_bool status 409) eqn:E409;
    [ apply Qeq_bool_iff in E409; tauto | apply Qeq_bool_false_neq in E409 ].
  destruct (Qeq_bool status 429) eqn:E429;
    [ apply Qeq_bool_iff in E429; tauto | apply Qeq_bool_false_neq in E429 ].
  destruct (Qeq_bool status 400) eqn:E400;
    [ apply Qeq_bool_iff in E400; tauto | apply Qeq_bool_false_neq in E400 ].
  destruct (Qle_bool 500 status) eqn:E500;
    [ apply Qle_bool_iff in E500; tauto | apply Qle_bool_false_lt in E500 ].
  repeat right. tauto.
Qed.

Lemma declaresStatus_effective (body : value) (sc : Q) :
  declaresStatus body sc ->
  isNullish body = false
  /\ isFalse (getProp (nullish body (VObj [])) "success") = true
  /\ asNumber (getProp (nullish body (VObj [])) "statusCode") = Some sc.
Proof.
  intros (fields & -> & Hs & Hc). cbn. rewrite Hs, Hc. auto.
Qed.

Lemma not_declaresStatus_effective (body : value) :
  (forall sc, ~ declaresStatus body sc) ->
  match isFalse (getProp (nullish body (VObj [])) "success"),
        asNumber (getProp (nullish body (VObj [])) "statusCode") with
  | true, Some _ => False
  | _, _ => True
  end.
Proof.
  intros Hno.
  destruct body as [ | | b | q | s | items | fields ]; cbn; auto.
  destruct (assoc "success" fields) as [ [ | | [ | ] | | | | ] | ] eqn:Hs; cbn; auto.
  destruct (assoc "statusCode" fields) as [ [ | | | sc | | | ] | ] eqn:Hc; cbn; auto.
  apply (Hno sc). exists fields. auto.
Qed.

Lemma networkFailure_test (body : value) (nm : option string) :
  networkFailure body nm <->
  isNullish body && match nm with Some m => negb (String.eqb m "") | None => false end = true.
Proof.
  unfold networkFailure. split.
  - intros (Hb & m & -> & Hm). rewrite Hb. cbn [andb].
    destruct (String.eqb_spec m ""); [contradiction | reflexivity].
  - intros H. apply andb_prop in H as [Hb Hm]. split; [assumption|].
    destruct nm as [m|]; [|discriminate]. exists m. split; [reflexivity|].
    destruct (String.eqb_spec m ""); [discriminate|assumption].
Qed.

(** C1, as the code has it.  A body object with [success === false] and a
    numeric [statusCode] yields that status code as [httpStatus], whatever the
    wire status, with the code read off the table from it.  For any other
    body [httpStatus] is the wire status, with the code read off the table
    from the wire status, unless the body is [null] or [undefined] and a
    non-empty network message is given: that is the network failure, whose
    code is [NETWORK] and which carries no [httpStatus]. *)
Theorem parseApiError_effective_status
    (rt : Runtime) (wire : Q) (body : value) (networkMessage : option string)
    (retryAfter : value) :
  (forall sc, declaresStatus body sc ->
     httpStatus (parseApiError rt wire body networkMessage retryAfter) = Some sc
     /\ codeForStatus sc (code (parseApiError rt wire body networkMessage retryAfter)))
  /\ ((forall sc, ~ declaresStatus body sc) ->
      ~ networkFailure body networkMessage ->
      httpStatus (parseApiError rt wire body networkMessage retryAfter) = Some wire
      /\ codeForStatus wire (code (parseApiError rt wire body networkMessage retryAfter)))
  /\ (networkFailure body networkMessage ->
      httpStatus (parseApiError rt wire body networkMessage retryAfter) = None
      /\ code (parseApiError rt wire body networkMessage retryAfter) = NETWORK).
Proof.
  split; [|split].
  - intros sc Hd. destruct (declaresStatus_effective _ _ Hd) as (Hn & Hs & Hc).
    unfold parseApiError. rewrite Hn. cbn [andb]. rewrite Hs, Hc. cbn.
    split; [reflexivity | apply mapStatusToCode_table].
  - intros Hno Hnet. rewrite networkFailure_test in Hnet.
    apply not_true_is_false in Hnet.
    pose proof (not_declaresStatus_effective body Hno) as Heff.
    unfold parseApiError. rewrite Hnet.
    destruct (isFalse _), (asNumber _); cbn; try contradiction;
      (split; [reflexivity | apply mapStatusToCode_table]).
  - intros Hnet. rewrite networkFailure_test in Hnet.
    unfold parseApiError. rewrite Hnet. cbn. auto.
Qed.

Lemma parseApiError_effective_status_witness :
  httpStatus (parseApiError testRuntime 200
                (VObj [("success", VBool false); ("message", VStr "Too many attempts");
                       ("statusCode", VNum 429); ("waitTime", VNum 120000)])
                None VUndefined) = Some 429%Q
  /\ httpStatus (parseApiError testRuntime 409
                (VObj [("error", VStr "Duplicate")]) None VUndefined) = Some 409%Q
  /\ code (parseApiError testRuntime 0 VNull (Some "Request timeout") VUndefined) = NETWORK.
Proof.
  split; [|split].
  - refine (proj1 (proj1 (parseApiError_effective_status testRuntime 200 _ None VUndefined) 429%Q _)).
    eexists. split; [reflexivity|]. split; reflexivity.
  - refine (proj1 (proj1 (proj2 (parseApiError_effective_status testRuntime 409 _ None VUndefined)) _ _)).
    + intros sc (fields & E & Hs & _). injection E as <-. discriminate Hs.
    + intros (Hn & _). discriminate Hn.
  - refine (proj2 (proj2 (proj2 (parseApiError_effective_status testRuntime 0 VNull (Some "Request timeout") VUndefined)) _)).
    split; [reflexivity|]. eexists. split; [reflexivity|]. discriminate.
Defined.

(** C1 as stated fails: with no body and the network message of a timed-out
    request, the body declares no status, yet [httpStatus] is not the wire
    status 0: it is absent. *)
Lemma parseApiError_no_body_has_no_status :
  (forall sc, ~ declaresStatus VNull sc)
  /\ httpStatus (parseApiError testRuntime 0 VNull (Some "Request timeout") VUndefined)
     <> Some 0%Q.
Proof.
  split.
  - intros sc (fields & E & _). discriminate E.
  - cbn. discriminate.
Qed.

Lemma AppErrorCode_eqb_eq (a b : AppErrorCode) :
  AppErrorCode_eqb a b = true <-> a = b.
Proof. destruct a, b; cbn; split; congruence. Qed.

Lemma nonRetryableStatus_below_500 (s : Q) : nonRetryableStatus s -> (s < 500)%Q.
Proof.
  unfold nonRetryableStatus, NO_RETRY_STATUSES. intros H.
  repeat match goal with
         | H : Exists _ (_ :: _) |- _ => apply Exists_cons in H as [H|H]
         | H : Exists _ [] |- _ => apply Exists_nil in H; contradiction
         end; rewrite H; reflexivity.
Qed.

Lemma shouldRetry_true_iff (e : AppError) :
  shouldRetry e = true <->
  code e = NETWORK
  \/ (code e = SERVER /\ exists s, httpStatus e = Some s /\ (500 <= s)%Q).
Proof.
  unfold shouldRetry.
  destruct (AppErrorCode_eqb (code e) NETWORK) eqn:En.
  - apply AppErrorCode_eqb_eq in En. tauto.
  - assert (code e <> NETWORK) as Hn
      by (intros E; apply AppErrorCode_eqb_eq in E; congruence).
    destruct (AppErrorCode_eqb (code e) SERVER) eqn:Es; cbn [andb].
    + apply AppErrorCode_eqb_eq in Es.
      destruct (httpStatus e) as [s|] eqn:Hs; cbn [statusTruthy statusAtLeast statusIn].
      * destruct (Qle_bool 500 s) eqn:Hle.
        -- apply Qle_bool_iff in Hle.
           assert (Qeq_bool s 0 = false) as ->.
           { destruct (Qeq_bool s 0) eqn:E0; [|reflexivity].
             apply Qeq_bool_iff in E0. rewrite E0 in Hle. lra. }
           cbn. split; [|reflexivity]. intros _. right. eauto.
        -- apply Qle_bool_false_lt in Hle. rewrite andb_false_r.
           split.
           ++ destruct (negb (Qeq_bool s 0) && includes NO_RETRY_STATUSES s); discriminate.
           ++ intros [E | (_ & s' & [= <-] & Hle')]; [contradiction|].
              exfalso. apply (Qlt_not_le _ _ Hle). assumption.
      * cbn. split; [discriminate|].
        intros [E | (_ & s' & E & _)]; [contradiction | discriminate].
    + assert (code e <> SERVER) as Hs
        by (intros E; apply AppErrorCode_eqb_eq in E; congruence).
      split.
      * destruct (statusTruthy (httpStatus e) && statusIn (httpStatus e) NO_RETRY_STATUSES);
          discriminate.
      * intros [E | (E & _)]; contradiction.
Qed.

(** C2, as the code has it.  [shouldRetry] is true exactly for the code
    [NETWORK], and for the code [SERVER] with an [httpStatus] of at least 500.
    An error whose [httpStatus] is one of 400, 401, 403, 404, 409, 429 is not
    retried under any code other than [NETWORK]. *)
Theorem shouldRetry_policy (e : AppError) :
  (shouldRetry e = true <->
   code e = NETWORK
   \/ (code e = SERVER /\ exists s, httpStatus e = Some s /\ (500 <= s)%Q))
  /\ (forall s, httpStatus e = Some s -> nonRetryableStatus s ->
      code e <> NETWORK -> shouldRetry e = false).
Proof.
  split; [apply shouldRetry_true_iff|].
  intros s Hs Hno Hcode. apply not_true_is_false. intros Hr.
  apply shouldRetry_true_iff in Hr as [E | (_ & s' & Hs' & Hle)]; [contradiction|].
  rewrite Hs in Hs'. injection Hs' as <-.
  apply nonRetryableStatus_below_500 in Hno.
  apply (Qlt_not_le _ _ Hno). assumption.
Qed.

Lemma shouldRetry_policy_witness :
  shouldRetry (plainError RATE_LIMIT (Some 429%Q) "slow down") = false.
Proof.
  refine (proj2 (shouldRetry_policy _) 429%Q _ _ _).
  - reflexivity.
  - unfold nonRetryableStatus, NO_RETRY_STATUSES.
    do 5 apply Exists_cons_tl. apply Exists_cons_hd. reflexivity.
  - discriminate.
Defined.

(** C2 as stated fails: an error that carries the code [NETWORK] together
    with the non-retryable status 429 is retried. *)
Lemma shouldRetry_network_overrides_status :
  nonRetryableStatus 429
  /\ shouldRetry (plainError NETWORK (Some 429%Q) "offline") = true.
Proof.
  split; [|reflexivity].
  unfold nonRetryableStatus, NO_RETRY_STATUSES.
  do 5 apply Exists_cons_tl. apply Exists_cons_hd. reflexivity.
Qed.

(* ===================================================================== *)
(** * Properties of the envelope unwrapper                                *)
(* ===================================================================== *)

Lemma assoc_app_unknown (k k' : string) (v : value) (fields : list (string * value)) :
  k <> k' -> assoc k (fields ++ [(k', v)]) = assoc k fields.
Proof.
  intros Hne. induction fields as [|[k0 v0] rest IH]; cbn.
  - destruct (String.eqb_spec k k'); [contradiction | reflexivity].
  - destruct (String.eqb k k0); [reflexivity | exact IH].
Qed.

Lemma unwrap_envelope_data (raw payload : value) :
  isEnvelope raw payload -> unwrap raw = payload.
Proof.
  intros (fields & -> & Hs & Hd). unfold unwrap. cbn. rewrite Hs, Hd. reflexivity.
Qed.

Lemma unwrap_bare_id (raw : value) : isBare raw -> unwrap raw = raw.
Proof.
  intros Hbare. unfold unwrap.
  destruct raw as [ | | b | q | s | items | fields ]; cbn;
    try reflexivity; try (rewrite ?andb_false_r; reflexivity).
  destruct (assoc "success" fields) as [ [ | | [ | ] | | | | ] | ] eqn:Hs;
    cbn; try reflexivity.
  destruct (assoc "data" fields) as [payload|] eqn:Hd; cbn; try reflexivity.
  exfalso. apply (Hbare payload). exists fields. auto.
Qed.

Lemma failure_is_bare (fields : list (string * value)) :
  assoc "success" fields = Some (VBool false) -> isBare (VObj fields).
Proof.
  intros Hs payload (fields' & [= <-] & Hs' & _). congruence.
Qed.

Lemma bare_with_unknown_field (fields : list (string * value)) (k : string) (v : value) :
  k <> "success" -> k <> "data" ->
  isBare (VObj fields) -> isBare (VObj (fields ++ [(k, v)])).
Proof.
  intros Hks Hkd Hbare payload (fields' & [= <-] & Hs & Hd).
  rewrite assoc_app_unknown in Hs by congruence.
  rewrite assoc_app_unknown in Hd by congruence.
  apply (Hbare payload). exists fields. auto.
Qed.

(** C6.  [unwrap] returns the [data] of an object with [success === true]
    and a [data] key, and returns every other value unchanged: a bare
    payload, so that unwrapping it any number of times is the identity; an
    object with [success === false]; and a bare object to which a field with
    an unknown key has been added, which comes back with that field.  An
    unknown field added to an envelope does not stop the unwrapping. *)
Theorem unwrap_envelope_or_identity (raw : value) :
  (forall payload, isEnvelope raw payload -> unwrap raw = payload)
  /\ (isBare raw -> unwrap raw = raw /\ unwrap (unwrap raw) = raw)
  /\ (forall fields, raw = VObj fields ->
        assoc "success" fields = Some (VBool false) -> unwrap raw = raw)
  /\ (forall fields k v, raw = VObj fields -> k <> "success" -> k <> "data" ->
        (isBare raw -> unwrap (VObj (fields ++ [(k, v)])) = VObj (fields ++ [(k, v)]))
        /\ (forall payload, isEnvelope raw payload ->
              unwrap (VObj (fields ++ [(k, v)])) = payload)).
Proof.
  split; [|split; [|split]].
  - apply unwrap_envelope_data.
  - intros Hbare. rewrite !unwrap_bare_id by assumption. auto.
  - intros fields -> Hs. apply unwrap_bare_id, failure_is_bare, Hs.
  - intros fields k v -> Hks Hkd. split.
    + intros Hbare. apply unwrap_bare_id, bare_with_unknown_field; assumption.
    + intros payload (fields' & [= <-] & Hs & Hd). apply unwrap_envelope_data.
      exists (fields ++ [(k, v)])%list. rewrite !assoc_app_unknown by congruence. auto.
Qed.

Lemma unwrap_envelope_or_identity_witness :
  unwrap (VObj [("success", VBool true);
                ("data", VObj [("id", VStr "v2"); ("title", VStr "Video 2")])])
  = VObj [("id", VStr "v2"); ("title", VStr "Video 2")]
  /\ unwrap (VArr [VObj [("id", VStr "v1"); ("title", VStr "Video 1")]])
     = VArr [VObj [("id", VStr "v1"); ("title", VStr "Video 1")]]
  /\ unwrap (VObj [("success", VBool false); ("error", VStr "no")])
     = VObj [("success", VBool false); ("error", VStr "no")].
Proof.
  split; [|split].
  - refine (proj1 (unwrap_envelope_or_identity _) _ _).
    eexists. split; [reflexivity|]. split; reflexivity.
  - refine (proj1 (proj1 (proj2 (unwrap_envelope_or_identity _)) _)).
    intros payload (fields & E & _). discriminate E.
  - refine (proj1 (proj2 (proj2 (unwrap_envelope_or_identity _))) _ eq_refl _).
    reflexivity.
Defined.

(* ===================================================================== *)
(** * Properties of the session controller                                *)
(* ===================================================================== *)

Lemma safeSetStoredRole_working (r : Role) (s : RoleStorage) :
  working s = true ->
  getStoredRole (safeSetStoredRole r s) = Some r.
Proof.
  intros Hw. unfold safeSetStoredRole, setStoredRole.
  rewrite Hw. destruct r as [[|]|]; unfold getStoredRole; cbn; reflexivity.
Qed.

Lemma refreshAuthConfig_role_resolved (pe : PasswordEnabledResponse)
    (settingsResult : Awaited value) (w : Session) :
  exists probeRole,
    role (state (refreshAuthConfig (Resolved pe) settingsResult w))
    = resolveStartupRole
        (loginRequired (state (refreshAuthConfig (Resolved pe) settingsResult w)))
        (hasValidSession (state (refreshAuthConfig (Resolved pe) settingsResult w)))
        probeRole
    /\ storage (refreshAuthConfig (Resolved pe) settingsResult w)
       = safeSetStoredRole
           (role (state (refreshAuthConfig (Resolved pe) settingsResult w)))
           (storage w).
Proof.
  unfold refreshAuthConfig.
  destruct (match pe_loginRequired pe with
            | Some b => b
            | None => match pe_enabled pe with Some b => b | None => false end
            end) eqn:Hreq.
  - destruct settingsResult as [settings|err].
    + exists (orRole (getRoleFromSettings settings) (safeGetStoredRole (storage w))).
      cbn. split; reflexivity.
    + destruct (isAuthFailure err); exists None; cbn; split; reflexivity.
  - exists None. cbn. split; reflexivity.
Qed.

Lemma refreshAuthConfig_fallback_role (err : AppError)
    (settingsResult : Awaited value) (w : Session) :
  role (state (refreshAuthConfig (Rejected err) settingsResult w))
  = match settingsResult with
    | Resolved settings => getRoleFromSettings settings
    | Rejected _ => None
    end
  /\ storage (refreshAuthConfig (Rejected err) settingsResult w)
     = safeSetStoredRole
         (role (state (refreshAuthConfig (Rejected err) settingsResult w)))
         (storage w).
Proof.
  unfold refreshAuthConfig. destruct settingsResult as [settings|probeErr].
  - cbn. split; reflexivity.
  - destruct (isAuthFailure probeErr); cbn; split; reflexivity.
Qed.

(** C8.  [resolveStartupRole] returns [null] whenever login is not
    required, whatever the session and the probed role; the probed role when
    login is required and the session is valid; [null] when login is required
    and the session is not valid.  When the password probe answers,
    [refreshAuthConfig] ends with the role so resolved, and writes that role
    to the role storage: if it ends with login not required, the role is
    [null] and, the storage working, the cached role is cleared.  When the
    password probe fails, the role is the one the settings carry or [null],
    never the cached one, and it is written to the storage as well. *)
Theorem resolveStartupRole_startup (probeRole : Role) :
  (forall hasValidSession, resolveStartupRole false hasValidSession probeRole = None)
  /\ resolveStartupRole true true probeRole = probeRole
  /\ resolveStartupRole true false probeRole = None
  /\ (forall pe settingsResult w,
        loginRequired (state (refreshAuthConfig (Resolved pe) settingsResult w)) = false ->
        role (state (refreshAuthConfig (Resolved pe) settingsResult w)) = None
        /\ (working (storage w) = true ->
            slot (storage (refreshAuthConfig (Resolved pe) settingsResult w)) = None
            /\ getStoredRole (storage (refreshAuthConfig (Resolved pe) settingsResult w))
               = Some None))
  /\ (forall err settingsResult w,
        role (state (refreshAuthConfig (Rejected err) settingsResult w))
        = match settingsResult with
          | Resolved settings => getRoleFromSettings settings
          | Rejected _ => None
          end
        /\ (working (storage w) = true ->
            getStoredRole (storage (refreshAuthConfig (Rejected err) settingsResult w))
            = Some (role (state (refreshAuthConfig (Rejected err) settingsResult w))))).
Proof.
  split; [|split; [|split; [|split]]]; try reflexivity;
    [|intros err settingsResult w;
      destruct (refreshAuthConfig_fallback_role err settingsResult w) as [Hrole Hst];
      split; [exact Hrole|];
      intros Hw; rewrite Hst; apply safeSetStoredRole_working; exact Hw].
  intros pe settingsResult w.
  destruct (refreshAuthConfig_role_resolved pe settingsResult w) as (pr & Hrole & Hst).
  generalize dependent (refreshAuthConfig (Resolved pe) settingsResult w).
  intros w' Hrole Hst Hreq.
  rewrite Hreq in Hrole. cbn in Hrole. split; [exact Hrole|].
  intros Hw. rewrite Hst, Hrole.
  split; [|apply safeSetStoredRole_working; exact Hw].
  unfold safeSetStoredRole, setStoredRole. rewrite Hw. reflexivity.
Qed.

Lemma resolveStartupRole_startup_witness :
  role (state (refreshAuthConfig
                 (Resolved {| pe_loginRequired := Some false; pe_enabled := Some true |})
                 (Resolved (VObj [("role", VStr "admin")]))
                 {| state := {| role := Some admin; hasValidSession := false;
                                loginRequired := false; passwordEnabled := None;
                                loading := true; error := None;
                                AuthContext.waitTimeMs := None |};
                    storage := {| slot := Some "admin"; working := true |} |})) = None.
Proof.
  refine (proj1 (proj1 (proj2 (proj2 (proj2 (resolveStartupRole_startup (Some admin)))))
                  _ _ _ _)).
  reflexivity.
Defined.

(** C10.  [logout] always leaves the session with [role = null],
    [hasValidSession = false], [error = null] and [waitTimeMs = null], the
    other fields as they were, whether the remote logout resolves or rejects;
    and when the remote logout rejects with an error, the promise returned by
    [logout] rejects with that same error, while it resolves when the remote
    logout resolves. *)
Theorem logout_clears_and_propagates (apiLogout : Awaited value) (w : Session) :
  role (state (fst (logout apiLogout w))) = None
  /\ hasValidSession (state (fst (logout apiLogout w))) = false
  /\ error (state (fst (logout apiLogout w))) = None
  /\ AuthContext.waitTimeMs (state (fst (logout apiLogout w))) = None
  /\ loginRequired (state (fst (logout apiLogout w))) = loginRequired (state w)
  /\ passwordEnabled (state (fst (logout apiLogout w))) = passwordEnabled (state w)
  /\ loading (state (fst (logout apiLogout w))) = loading (state w)
  /\ storage (fst (logout apiLogout w)) = safeSetStoredRole None (storage w)
  /\ (forall e, apiLogout = Rejected e -> snd (logout apiLogout w) = Rejected e)
  /\ (forall v, apiLogout = Resolved v -> snd (logout apiLogout w) = Resolved tt).
Proof.
  destruct apiLogout as [v|e]; cbn; repeat split; try reflexivity;
    intros x Hx; congruence.
Qed.

Lemma logout_clears_and_propagates_witness :
  snd (logout (Rejected (plainError NETWORK None "Network error"))
         {| state := {| role := Some admin; hasValidSession := true;
                        loginRequired := true; passwordEnabled := None;
                        loading := false; error := None;
                        AuthContext.waitTimeMs := None |};
            storage := {| slot := Some "admin"; working := true |} |})
  = Rejected (plainError NETWORK None "Network error").
Proof.
  refine (proj1 (proj2 (proj2 (proj2 (proj2 (proj2 (proj2 (proj2 (proj2
            (logout_clears_and_propagates _ _))))))))) _ eq_refl).
Defined.

(* ===================================================================== *)
(** * Properties of the transport client                                  *)
(* ===================================================================== *)

Lemma has_retryable (s : string) :
  has RETRYABLE_METHODS s = true <-> In s ["GET"; "HEAD"; "OPTIONS"].
Proof.
  unfold has, RETRYABLE_METHODS. rewrite bool_decide_eq_true.
  rewrite !elem_of_union, !elem_of_singleton. cbn. intuition congruence.
Qed.

Lemma isRetryableMethod_read (m : option string) :
  isRetryableMethod m = true <-> isReadMethod m.
Proof.
  unfold isRetryableMethod, isReadMethod, methodAmong. destruct m as [s|].
  - destruct (toUpperCase (trim s)) as [|c rest] eqn:Hn.
    + cbn. split; [discriminate|].
      intros (s' & [= <-] & Hin). rewrite Hn in Hin. cbn in Hin.
      intuition discriminate.
    + change (String.length (String c rest) =? 0)%nat with false. cbv iota.
      rewrite has_retryable. split.
      * intros Hin. exists s. rewrite Hn. auto.
      * intros (s' & [= <-] & Hin). rewrite Hn in Hin. exact Hin.
  - split; [discriminate|]. intros (s & E & _). discriminate E.
Qed.

Lemma write_not_read (m : option string) : isWriteMethod m -> ~ isReadMethod m.
Proof.
  intros (s & -> & Hw) (s' & [= <-] & Hr). cbn in Hw, Hr.
  intuition congruence.
Qed.

Lemma Qlt_bool_iff (a b : Q) : Client.Qlt_bool a b = true <-> (a < b)%Q.
Proof.
  unfold Client.Qlt_bool. split.
  - intros H. apply negb_true_iff in H. apply Qle_bool_false_lt. exact H.
  - intros H. apply negb_true_iff. apply not_true_is_false. intros L.
    apply Qle_bool_iff in L. apply (Qlt_not_le _ _ H L).
Qed.

Lemma shouldTriggerReauth_iff (m : option string) (e : AppError) :
  shouldTriggerReauth m e = true <-> reauthRequired m e.
Proof.
  unfold shouldTriggerReauth, reauthRequired.
  destruct (AppErrorCode_eqb (code e) UNAUTHENTICATED) eqn:Eu.
  - apply AppErrorCode_eqb_eq in Eu. tauto.
  - assert (code e <> UNAUTHENTICATED) as Hu
      by (intros E; apply AppErrorCode_eqb_eq in E; congruence).
    destruct (AppErrorCode_eqb (code e) FORBIDDEN) eqn:Ef; cbn [andb].
    + apply AppErrorCode_eqb_eq in Ef.
      destruct (isRetryableMethod m) eqn:Hm.
      * apply isRetryableMethod_read in Hm. tauto.
      * split; [discriminate|]. intros [E | (_ & Hr)]; [contradiction|].
        apply isRetryableMethod_read in Hr. congruence.
    + assert (code e <> FORBIDDEN) as Hf
        by (intros E; apply AppErrorCode_eqb_eq in E; congruence).
      split; [discriminate|]. intros [E | (E & _)]; contradiction.
Qed.

(** The test of the retry branch, in the vocabulary of the specification. *)
Lemma retry_test_iff (rt : Runtime) (error : AxiosError) (cfg : RequestConfig) :
  config error = Some cfg ->
  Client.Qlt_bool (retryCountOf error) MAX_RETRIES
    && isRetryableMethod (method cfg) && shouldRetry (appErrorOf rt error) = true
  <-> isReadMethod (requestMethod error)
      /\ shouldRetry (classified rt error) = true
      /\ (retryCountOf error < 2)%Q.
Proof.
  intros Hcfg. unfold requestMethod, classified. rewrite Hcfg.
  rewrite !andb_true_iff, Qlt_bool_iff, isRetryableMethod_read.
  unfold MAX_RETRIES. tauto.
Qed.

Lemma onResponseError_with_config {H : Type} (rt : Runtime) (st : ClientState H)
    (error : AxiosError) (cfg : RequestConfig) :
  config error = Some cfg ->
  onResponseError rt st error =
  if Client.Qlt_bool (retryCountOf error) MAX_RETRIES
     && isRetryableMethod (method cfg) && shouldRetry (appErrorOf rt error)
  then (st, Retry (RETRY_DELAY_MS * (retryCountOf error + 1))
                  {| method := method cfg; url := url cfg;
                     _retryCount := Some (retryCountOf error + 1)%Q |})
  else (if shouldTriggerReauth (method cfg) (appErrorOf rt error)
        then callUnauthorized st else st,
        Reject (appErrorOf rt error)).
Proof.
  intros Hcfg. unfold onResponseError, retryCountOf. rewrite Hcfg. reflexivity.
Qed.

(** C3.  The interceptor answers a failed request with a retry exactly when
    the method, trimmed and uppercased, is GET, HEAD or OPTIONS, [shouldRetry]
    holds of the classified error, and the retry count is below 2.  The retry
    waits 1000 ms times the incremented retry count and re-issues the same
    request with the incremented count attached.  A request whose method is
    POST, PUT, PATCH or DELETE is never retried. *)
Theorem onResponseError_retry_policy {H : Type} (rt : Runtime) (st : ClientState H)
    (error : AxiosError) :
  ((exists delayMs again, snd (onResponseError rt st error) = Retry delayMs again)
   <-> isReadMethod (requestMethod error)
       /\ shouldRetry (classified rt error) = true
       /\ (retryCountOf error < 2)%Q)
  /\ (forall delayMs again,
        snd (onResponseError rt st error) = Retry delayMs again ->
        delayMs = (1000 * (retryCountOf error + 1))%Q
        /\ exists cfg, config error = Some cfg
           /\ again = {| method := method cfg; url := url cfg;
                         _retryCount := Some (retryCountOf error + 1)%Q |})
  /\ (isWriteMethod (requestMethod error) ->
      forall delayMs again, snd (onResponseError rt st error) <> Retry delayMs again).
Proof.
  assert ((exists delayMs again, snd (onResponseError rt st error) = Retry delayMs again)
          <-> isReadMethod (requestMethod error)
              /\ shouldRetry (classified rt error) = true
              /\ (retryCountOf error < 2)%Q) as Hiff.
  { destruct (config error) as [cfg|] eqn:Hcfg.
    - rewrite (onResponseError_with_config rt st error cfg Hcfg).
      rewrite <- (retry_test_iff rt error cfg Hcfg).
      destruct (Client.Qlt_bool _ _ && _ && _); cbn.
      + split; [reflexivity | eauto].
      + split; [intros (d & a & E); discriminate E | discriminate].
    - unfold onResponseError, requestMethod. rewrite Hcfg. cbn. split.
      + intros (d & a & E). discriminate E.
      + intros ((s & E & _) & _). discriminate E. }
  split; [exact Hiff|]. split.
  - intros delayMs again Hretry.
    destruct (config error) as [cfg|] eqn:Hcfg.
    + rewrite (onResponseError_with_config rt st error cfg Hcfg) in Hretry.
      destruct (Client.Qlt_bool _ _ && _ && _); cbn in Hretry; [|discriminate].
      injection Hretry as <- <-. split; [reflexivity|]. eauto.
    + unfold onResponseError in Hretry. rewrite Hcfg in Hretry. discriminate.
  - intros Hw delayMs again Hretry.
    apply write_not_read in Hw. apply Hw.
    apply Hiff. eauto.
Qed.

Lemma onResponseError_retry_policy_witness :
  snd (onResponseError testRuntime
         {| onUnauthorized := @None nat; unauthorizedCalls := [] |}
         (lostGet (Some 1%Q)))
  = Retry (1000 * (1 + 1))%Q
      {| method := Some "get"; url := "/videos"; _retryCount := Some (1 + 1)%Q |}.
Proof.
  destruct (onResponseError_retry_policy testRuntime
              {| onUnauthorized := @None nat; unauthorizedCalls := [] |}
              (lostGet (Some 1%Q))) as (Hiff & Hshape & _).
  destruct (proj2 Hiff) as (d & again & Hretry).
  - split; [|split].
    + exists "get". split; [reflexivity|]. left. reflexivity.
    + reflexivity.
    + reflexivity.
  - rewrite Hretry. destruct (Hshape d again Hretry) as (-> & cfg & [= <-] & ->).
    reflexivity.
Defined.

Lemma callUnauthorized_calls {H : Type} (st : ClientState H) (h : H) :
  onUnauthorized st = Some h ->
  unauthorizedCalls (callUnauthorized st) = (unauthorizedCalls st ++ [h])%list.
Proof. intros Hh. unfold callUnauthorized. rewrite Hh. reflexivity. Qed.

Lemma calls_not_extended {A : Type} (l : list A) (x : A) : l <> (l ++ [x])%list.
Proof.
  intros E. apply (f_equal (@List.length A)) in E.
  rewrite List.length_app in E. cbn in E. lia.
Qed.

Lemma retried_is_not_auth_failure (m : option string) (e : AppError) :
  shouldRetry e = true -> ~ reauthRequired m e.
Proof.
  intros Hr. apply shouldRetry_true_iff in Hr.
  unfold reauthRequired. intros [E | (E & _)];
    destruct Hr as [E' | (E' & _)]; congruence.
Qed.

(** What the interceptor does to the handler, as one equation. *)
Lemma onResponseError_calls {H : Type} (rt : Runtime) (st : ClientState H)
    (error : AxiosError) :
  (reauthRequired (requestMethod error) (classified rt error) ->
   fst (onResponseError rt st error) = callUnauthorized st)
  /\ (~ reauthRequired (requestMethod error) (classified rt error) ->
      fst (onResponseError rt st error) = st).
Proof.
  destruct (config error) as [cfg|] eqn:Hcfg.
  - rewrite (onResponseError_with_config rt st error cfg Hcfg).
    unfold requestMethod, classified. rewrite Hcfg.
    destruct (Client.Qlt_bool _ _ && _ && _) eqn:Hretry; cbn.
    + apply andb_prop in Hretry as [_ Hretry].
      split; [|reflexivity].
      intros Hre. exfalso. exact (retried_is_not_auth_failure _ _ Hretry Hre).
    + destruct (shouldTriggerReauth (method cfg) (appErrorOf rt error)) eqn:Ht.
      * apply shouldTriggerReauth_iff in Ht. tauto.
      * split; [|reflexivity]. intros Hre.
        apply shouldTriggerReauth_iff in Hre. congruence.
  - unfold onResponseError, requestMethod, classified, reauthRequired.
    rewrite Hcfg. cbn.
    destruct (AppErrorCode_eqb (code (fallbackError rt error)) UNAUTHENTICATED) eqn:Eu.
    + apply AppErrorCode_eqb_eq in Eu. tauto.
    + split; [|reflexivity].
      intros [E | (_ & s & Hs & _)]; [|discriminate Hs].
      apply AppErrorCode_eqb_eq in E. congruence.
Qed.

(** C4.  With a handler registered, the interceptor calls it exactly when
    the classified error is UNAUTHENTICATED, whatever the method, or is
    FORBIDDEN on a method that normalizes to GET, HEAD or OPTIONS, and then
    calls it once; otherwise the handler is not called.  In particular a
    FORBIDDEN error on POST, PUT, PATCH or DELETE does not call it.  The test
    [shouldTriggerReauth] is that policy for every method and error. *)
Theorem onResponseError_reauth_policy {H : Type} (rt : Runtime) (st : ClientState H)
    (error : AxiosError) (handler : H) :
  onUnauthorized st = Some handler ->
  (unauthorizedCalls (fst (onResponseError rt st error))
     = (unauthorizedCalls st ++ [handler])%list
   <-> reauthRequired (requestMethod error) (classified rt error))
  /\ (~ reauthRequired (requestMethod error) (classified rt error) ->
      unauthorizedCalls (fst (onResponseError rt st error)) = unauthorizedCalls st)
  /\ (code (classified rt error) = FORBIDDEN ->
      isWriteMethod (requestMethod error) ->
      unauthorizedCalls (fst (onResponseError rt st error)) = unauthorizedCalls st)
  /\ (forall m e, shouldTriggerReauth m e = true <-> reauthRequired m e).
Proof.
  intros Hh.
  destruct (onResponseError_calls rt st error) as [Hyes Hno].
  assert (~ reauthRequired (requestMethod error) (classified rt error) ->
          unauthorizedCalls (fst (onResponseError rt st error)) = unauthorizedCalls st)
    as Hkeep by (intros Hn; rewrite (Hno Hn); reflexivity).
  split; [|split; [exact Hkeep|split; [|apply shouldTriggerReauth_iff]]].
  - split.
    + intros Hcalls.
      destruct (shouldTriggerReauth (requestMethod error) (classified rt error)) eqn:Ht.
      * apply shouldTriggerReauth_iff. exact Ht.
      * exfalso. assert (~ reauthRequired (requestMethod error) (classified rt error)) as Hn
          by (intros Hre; apply shouldTriggerReauth_iff in Hre; congruence).
        rewrite (Hkeep Hn) in Hcalls. exact (calls_not_extended _ _ Hcalls).
    + intros Hre. rewrite (Hyes Hre). apply callUnauthorized_calls. exact Hh.
  - intros Hf Hw. apply Hkeep. intros [E | (_ & Hr)]; [congruence|].
    exact (write_not_read _ Hw Hr).
Qed.

Lemma onResponseError_reauth_policy_witness :
  unauthorizedCalls
    (fst (onResponseError testRuntime
            {| onUnauthorized := Some 7%nat; unauthorizedCalls := [] |}
            (answered " get " 403)))
  = [7%nat]
  /\ unauthorizedCalls
       (fst (onResponseError testRuntime
               {| onUnauthorized := Some 7%nat; unauthorizedCalls := [] |}
               (answered "POST" 403)))
     = [].
Proof.
  split.
  - refine (proj2 (proj1 (onResponseError_reauth_policy testRuntime
                            {| onUnauthorized := Some 7%nat; unauthorizedCalls := [] |}
                            (answered " get " 403) 7%nat eq_refl)) _).
    right. split; [reflexivity|].
    exists " get ". split; [reflexivity|]. left. reflexivity.
  - refine (proj1 (proj2 (proj2 (onResponseError_reauth_policy testRuntime
                            {| onUnauthorized := Some 7%nat; unauthorizedCalls := [] |}
                            (answered "POST" 403) 7%nat eq_refl))) _ _).
    + reflexivity.
    + exists "POST". split; [reflexivity|]. left. reflexivity.
Defined.

(* ===================================================================== *)
(** * Properties of the polling jitter                                    *)
(* ===================================================================== *)

Lemma Math_max_le_compat (a b b' : Q) :
  (b <= b')%Q -> (Math_max a b <= Math_max a b')%Q.
Proof.
  intros Hb. unfold Math_max.
  destruct (Qle_bool a b) eqn:E1, (Qle_bool a b') eqn:E2;
    try apply Qle_bool_iff in E1; try apply Qle_bool_iff in E2;
    try apply Qle_bool_false_lt in E1; try apply Qle_bool_false_lt in E2; lra.
Qed.

Lemma Math_max_floor (a b : Q) : (a <= Math_max a b)%Q.
Proof.
  unfold Math_max. destruct (Qle_bool a b) eqn:E;
    [apply Qle_bool_iff in E; exact E | apply Qle_refl].
Qed.

Lemma Math_max_below (a b : Q) : (b <= a)%Q -> (Math_max a b == a)%Q.
Proof.
  intros Hb. unfold Math_max. destruct (Qle_bool a b) eqn:E;
    [apply Qle_bool_iff in E; lra | reflexivity].
Qed.

Lemma Math_round_le_compat (x y : Q) :
  (x <= y)%Q -> (inject_Z (Math_round x) <= inject_Z (Math_round y))%Q.
Proof.
  intros Hxy. unfold Math_round. rewrite <- Zle_Qle.
  apply Qfloor_resp_le. lra.
Qed.

Lemma Math_round_nonpositive (x : Q) :
  (x <= 0)%Q -> (inject_Z (Math_round x) <= 0)%Q.
Proof.
  intros Hx. apply (Math_round_le_compat x 0) in Hx. exact Hx.
Qed.

Lemma jitter_factor_band (baseMs random : Q) :
  (0 <= baseMs)%Q -> (0 <= random)%Q -> (random < 1)%Q ->
  ((8 # 10) * baseMs <= baseMs * ((8 # 10) + random * (4 # 10))
   /\ baseMs * ((8 # 10) + random * (4 # 10)) <= (12 # 10) * baseMs)%Q.
Proof. intros HB H0 H1. split; nra. Qed.

Lemma jitter_factor_negative (baseMs random : Q) :
  (baseMs < 0)%Q -> (0 <= random)%Q -> (random < 1)%Q ->
  (baseMs * ((8 # 10) + random * (4 # 10)) <= 0)%Q.
Proof. intros HB H0 H1. nra. Qed.

(** C9, as the code has it.  For every base interval and every draw in
    [[0, 1)] the jittered interval is at least 1000 and lies between
    [max(1000, round(0.8 B))] and [max(1000, round(1.2 B))]: the band of
    plus or minus 20% rounded to whole milliseconds, with the floor of one
    second applied to both of its ends. *)
Theorem getJitteredIntervalMs_band (baseMs random : Q) :
  (0 <= random)%Q -> (random < 1)%Q ->
  (1000 <= getJitteredIntervalMs random baseMs)%Q
  /\ inRoundedJitterBand baseMs (getJitteredIntervalMs random baseMs).
Proof.
  intros H0 H1. split; [apply Math_max_floor|].
  unfold inRoundedJitterBand, getJitteredIntervalMs.
  destruct (Qlt_le_dec baseMs 0) as [Hneg|Hpos].
  - pose proof (jitter_factor_negative baseMs random Hneg H0 H1) as Hx.
    apply Math_round_nonpositive in Hx.
    assert (inject_Z (Math_round ((8 # 10) * baseMs)) <= 0)%Q as Hlo
      by (apply Math_round_nonpositive; lra).
    assert (inject_Z (Math_round ((12 # 10) * baseMs)) <= 0)%Q as Hhi
      by (apply Math_round_nonpositive; lra).
    rewrite (Math_max_below 1000 (inject_Z (Math_round (baseMs * _)))) by lra.
    rewrite (Math_max_below 1000 (inject_Z (Math_round ((8 # 10) * baseMs)))) by lra.
    rewrite (Math_max_below 1000 (inject_Z (Math_round ((12 # 10) * baseMs)))) by lra.
    split; apply Qle_refl.
  - destruct (jitter_factor_band baseMs random Hpos H0 H1) as [Hlo Hhi].
    split; apply Math_max_le_compat, Math_round_le_compat; assumption.
Qed.

Lemma getJitteredIntervalMs_band_witness :
  (1000 <= getJitteredIntervalMs (1 # 2) 2000)%Q
  /\ inRoundedJitterBand 2000 (getJitteredIntervalMs (1 # 2) 2000).
Proof.
  apply (getJitteredIntervalMs_band 2000 (1 # 2)); reflexivity || discriminate.
Defined.

(** C9 as stated fails: for the base interval 100 and the draw 0 the
    jittered interval is the floor, 1000, which is above 1.2 times 100. *)
Lemma getJitteredIntervalMs_floor_above_band :
  (0 <= 0 < 1)%Q
  /\ (getJitteredIntervalMs 0 100 == 1000)%Q
  /\ ~ inJitterBand 100 (getJitteredIntervalMs 0 100).
Proof.
  split; [split; [discriminate | reflexivity]|].
  split; [reflexivity|].
  intros [_ Hhi]. vm_compute in Hhi. apply Hhi. reflexivity.
Qed.

(** Rounding alone also leaves the unrounded band: for the base interval
    2003 and the draw 0 the product is 1602.4, the jittered interval is 1602,
    and 1602 is below 0.8 times 2003. *)
Lemma getJitteredIntervalMs_rounds_below_band :
  (getJitteredIntervalMs 0 2003 == 1602)%Q
  /\ ~ inJitterBand 2003 (getJitteredIntervalMs 0 2003).
Proof.
  split; [reflexivity|].
  intros [Hlo _]. vm_compute in Hlo. apply Hlo. reflexivity.
Qed.

(* ===================================================================== *)
(** * Properties of the in-flight ledger                                  *)
(* ===================================================================== *)

Section LedgerProperties.

Context {F R : Type}.
Local Open Scope list_scope.
Implicit Types (st : Ledger F R) (h : Handle) (k key : string).

Lemma setPhase_lookup st h h' (p : Phase F R) :
  requests (setPhase h p st) !! h' =
  if decide (h = h')
  then (fun r => {| reqKey := reqKey r; reqPhase := p |}) <$> requests st !! h'
  else requests st !! h'.
Proof.
  unfold setPhase. cbn. destruct (decide (h = h')) as [->|Hne].
  - apply list_lookup_alter_eq.
  - apply list_lookup_alter_ne. exact Hne.
Qed.

Lemma withInFlightKey_registered st k (f : F) h :
  inFlightRequests st !! k = Some h -> withInFlightKey k f st = (h, st).
Proof. intros Hk. unfold withInFlightKey. rewrite Hk. reflexivity. Qed.

Lemma withInFlightKey_fresh st k (f : F) :
  inFlightRequests st !! k = None ->
  withInFlightKey k f st =
  (length (requests st),
   {| inFlightRequests := <[k := length (requests st)]> (inFlightRequests st);
      requests := requests st ++ [{| reqKey := k; reqPhase := Queued f |}];
      invocations := invocations st |}).
Proof. intros Hk. unfold withInFlightKey. rewrite Hk. reflexivity. Qed.

Lemma consistent_empty : consistent (@emptyLedger F R).
Proof.
  split; cbn.
  - intros k h Hk. rewrite lookup_empty in Hk. discriminate.
  - intros h k p Hh. rewrite lookup_nil in Hh. discriminate.
Qed.

Lemma consistent_call st k (f : F) :
  consistent st -> consistent (snd (withInFlightKey k f st)).
Proof.
  intros [Hreg Hlive].
  destruct (inFlightRequests st !! k) as [h|] eqn:Hk.
  - rewrite (withInFlightKey_registered st k f h Hk). split; assumption.
  - rewrite (withInFlightKey_fresh st k f Hk). split; cbn.
    + intros k' h' Hk'. destruct (decide (k = k')) as [<-|Hne].
      * rewrite lookup_insert_eq in Hk'. injection Hk' as <-.
        exists (Queued f). split; [|reflexivity].
        apply list_lookup_middle. reflexivity.
      * rewrite lookup_insert_ne in Hk' by exact Hne.
        destruct (Hreg k' h' Hk') as (p & Hp & Hc). exists p. split; [|exact Hc].
        rewrite lookup_app_l; [exact Hp | eapply lookup_lt_Some, Hp].
    + intros h' k' p Hh' Hc. apply lookup_snoc_Some in Hh' as [[_ Hold]|[-> Hnew]].
      * pose proof (Hlive h' k' p Hold Hc) as Hk'.
        rewrite lookup_insert_ne; [exact Hk' | congruence].
      * injection Hnew as <- <-. apply lookup_insert_eq.
Qed.

(** A job that moves the request [h] to a phase that is not cleaned up
    keeps the ledger and the requests in agreement. *)
Lemma consistent_setPhase st h k (p p' : Phase F R) :
  consistent st ->
  requests st !! h = Some {| reqKey := k; reqPhase := p |} ->
  cleanedUp p = false -> cleanedUp p' = false ->
  consistent (setPhase h p' st).
Proof.
  intros [Hreg Hlive] Hh Hc Hc'. split.
  - intros k0 h0 Hk0. cbn in Hk0. rewrite setPhase_lookup.
    destruct (Hreg k0 h0 Hk0) as (p0 & Hp0 & Hc0).
    destruct (decide (h = h0)) as [<-|Hne].
    + rewrite Hp0. cbn. exists p'. split; [reflexivity | exact Hc'].
    + exists p0. split; assumption.
  - intros h0 k0 p0 Hh0 Hc0. cbn. rewrite setPhase_lookup in Hh0.
    destruct (decide (h = h0)) as [<-|Hne].
    + rewrite Hh in Hh0. cbn in Hh0. injection Hh0 as <- <-.
      exact (Hlive h k p Hh Hc).
    + exact (Hlive h0 k0 p0 Hh0 Hc0).
Qed.

Lemma consistent_step st st' (ev : Event F R) :
  consistent st -> step ev st = Some st' -> consistent st'.
Proof.
  intros Hinv Hstep. destruct ev as [k f | h | h out | h]; cbn in Hstep.
  - injection Hstep as <-. apply consistent_call, Hinv.
  - unfold runFactory in Hstep.
    destruct (requests st !! h) as [[k [f|f|out b]]|] eqn:Hh; try discriminate.
    injection Hstep as <-.
    pose proof (consistent_setPhase st h k (Queued f) (Running f) Hinv Hh eq_refl eq_refl)
      as [Hreg Hlive].
    split; [exact Hreg | exact Hlive].
  - unfold settle in Hstep.
    destruct (requests st !! h) as [[k [f|f|out' b]]|] eqn:Hh; try discriminate.
    injection Hstep as <-.
    exact (consistent_setPhase st h k (Running f) (Settled out false) Hinv Hh eq_refl eq_refl).
  - unfold runFinally in Hstep.
    destruct (requests st !! h) as [[k [f|f|out [|]]]|] eqn:Hh; try discriminate.
    destruct Hinv as [Hreg Hlive].
    pose proof (Hlive h k _ Hh eq_refl) as Hk.
    destruct (decide (inFlightRequests st !! k = Some h)) as [_|Hn]; [|contradiction].
    injection Hstep as <-. split; cbn.
    + intros k0 h0 Hk0.
      destruct (decide (k = k0)) as [<-|Hne];
        [rewrite lookup_delete_eq in Hk0; discriminate|].
      rewrite lookup_delete_ne in Hk0 by exact Hne.
      destruct (Hreg k0 h0 Hk0) as (p0 & Hp0 & Hc0).
      exists p0. split; [|exact Hc0].
      rewrite list_lookup_alter_ne; [exact Hp0|].
      intros <-. rewrite Hh in Hp0. congruence.
    + intros h0 k0 p0 Hh0 Hc0.
      destruct (decide (h = h0)) as [<-|Hne].
      * rewrite list_lookup_alter_eq, Hh in Hh0. cbn in Hh0.
        injection Hh0 as <- <-. discriminate Hc0.
      * rewrite list_lookup_alter_ne in Hh0 by exact Hne.
        pose proof (Hlive h0 k0 p0 Hh0 Hc0) as Hk0.
        rewrite lookup_delete_ne; [exact Hk0|].
        intros <-. congruence.
Qed.

Lemma consistent_run (evs : list (Event F R)) st st' :
  consistent st -> run evs st = Some st' -> consistent st'.
Proof.
  revert st. induction evs as [|ev evs IH]; intros st Hinv Hrun; cbn in Hrun.
  - injection Hrun as <-. exact Hinv.
  - destruct (step ev st) as [st1|] eqn:Hstep; [|discriminate].
    apply (IH st1); [eapply consistent_step; eassumption | exact Hrun].
Qed.

Lemma reachable_consistent st : reachable st -> consistent st.
Proof. intros (evs & Hrun). exact (consistent_run evs _ _ consistent_empty Hrun). Qed.

Lemma pending_unique st h1 h2 k :
  consistent st -> pending st h1 k -> pending st h2 k -> h1 = h2.
Proof.
  intros [_ Hlive] (f1 & H1) (f2 & H2).
  assert (inFlightRequests st !! k = Some h1) as E1
    by (destruct H1 as [H1|H1]; exact (Hlive _ _ _ H1 eq_refl)).
  assert (inFlightRequests st !! k = Some h2) as E2
    by (destruct H2 as [H2|H2]; exact (Hlive _ _ _ H2 eq_refl)).
  congruence.
Qed.

Lemma registered_survives_step st st' (ev : Event F R) k h :
  step ev st = Some st' -> notFinallyOf h ev ->
  inFlightRequests st !! k = Some h -> inFlightRequests st' !! k = Some h.
Proof.
  intros Hstep Hev Hk. destruct ev as [k0 f | h0 | h0 out | h0]; cbn in Hstep.
  - injection Hstep as <-.
    destruct (inFlightRequests st !! k0) as [h1|] eqn:Hk0.
    + rewrite (withInFlightKey_registered st k0 f h1 Hk0). exact Hk.
    + rewrite (withInFlightKey_fresh st k0 f Hk0). cbn.
      rewrite lookup_insert_ne; [exact Hk | congruence].
  - unfold runFactory in Hstep.
    destruct (requests st !! h0) as [[k1 [f|f|out b]]|]; try discriminate.
    injection Hstep as <-. exact Hk.
  - unfold settle in Hstep.
    destruct (requests st !! h0) as [[k1 [f|f|out' b]]|]; try discriminate.
    injection Hstep as <-. exact Hk.
  - unfold runFinally in Hstep. cbn in Hev.
    destruct (requests st !! h0) as [[k1 [f|f|out [|]]]|]; try discriminate.
    destruct (decide (inFlightRequests st !! k1 = Some h0)) as [Hk1|_];
      injection Hstep as <-; cbn; [|exact Hk].
    rewrite lookup_delete_ne; [exact Hk | congruence].
Qed.

Lemma registered_survives_run (evs : list (Event F R)) st st' k h :
  run evs st = Some st' -> Forall (notFinallyOf h) evs ->
  inFlightRequests st !! k = Some h -> inFlightRequests st' !! k = Some h.
Proof.
  revert st. induction evs as [|ev evs IH]; intros st Hrun Hall Hk; cbn in Hrun.
  - injection Hrun as <-. exact Hk.
  - destruct (step ev st) as [st1|] eqn:Hstep; [|discriminate].
    apply Forall_cons in Hall as [Hev Hall].
    apply (IH st1 Hrun Hall).
    exact (registered_survives_step st st1 ev k h Hstep Hev Hk).
Qed.

Lemma overlapping_call_shares_handle st0 k (f g : F) (evs : list (Event F R)) st2 :
  inFlightRequests st0 !! k = None ->
  run evs (snd (withInFlightKey k f st0)) = Some st2 ->
  Forall (notFinallyOf (fst (withInFlightKey k f st0))) evs ->
  withInFlightKey k g st2 = (fst (withInFlightKey k f st0), st2).
Proof.
  intros Hk Hrun Hall. apply withInFlightKey_registered.
  apply (registered_survives_run evs _ st2 k _ Hrun Hall).
  rewrite (withInFlightKey_fresh st0 k f Hk). cbn. apply lookup_insert_eq.
Qed.

Lemma runFinally_guarded st h k (out : R) :
  requests st !! h = Some {| reqKey := k; reqPhase := Settled out false |} ->
  exists st',
    runFinally h st = Some st'
    /\ (inFlightRequests st !! k = Some h ->
        inFlightRequests st' = delete k (inFlightRequests st))
    /\ (inFlightRequests st !! k <> Some h ->
        inFlightRequests st' = inFlightRequests st)
    /\ runFinally h st' = None.
Proof.
  intros Hh. unfold runFinally at 1. rewrite Hh.
  assert (forall m, runFinally h
            {| inFlightRequests := m;
               requests := requests (setPhase h (Settled out true) st);
               invocations := invocations st |} = None) as Honce.
  { intros m. unfold runFinally. cbn.
    rewrite list_lookup_alter_eq, Hh. reflexivity. }
  destruct (decide (inFlightRequests st !! k = Some h)) as [Hk|Hk];
    eexists; (split; [reflexivity|]); cbn; repeat split;
    try reflexivity; try contradiction; try apply Honce; intros; contradiction.
Qed.

Lemma settled_entry_is_removed st h k (out : R) st1 :
  consistent st -> inFlightRequests st !! k = Some h ->
  settle h out st = Some st1 ->
  exists st2, runFinally h st1 = Some st2 /\ inFlightRequests st2 !! k = None.
Proof.
  intros [Hreg _] Hk Hsettle. unfold settle in Hsettle.
  destruct (Hreg k h Hk) as (p & Hp & _). rewrite Hp in Hsettle.
  destruct p as [f|f|out' b]; try discriminate. injection Hsettle as <-.
  assert (requests (setPhase h (Settled out false) st) !! h
          = Some {| reqKey := k; reqPhase := Settled out false |}) as Hh
    by (rewrite setPhase_lookup, Hp; destruct (decide (h = h)); [reflexivity|contradiction]).
  destruct (runFinally_guarded _ h k out Hh) as (st2 & Hrun & Hdel & _ & _).
  exists st2. split; [exact Hrun|].
  rewrite (Hdel Hk). apply lookup_delete_eq.
Qed.

Lemma fresh_call_invokes_factory st k (g : F) :
  inFlightRequests st !! k = None ->
  fst (withInFlightKey k g st) = length (requests st)
  /\ inFlightRequests (snd (withInFlightKey k g st)) !! k
     = Some (fst (withInFlightKey k g st))
  /\ exists st',
       runFactory (fst (withInFlightKey k g st)) (snd (withInFlightKey k g st)) = Some st'
       /\ invocations st' = invocations st ++ [(fst (withInFlightKey k g st), g)].
Proof.
  intros Hk. rewrite (withInFlightKey_fresh st k g Hk). cbn.
  split; [reflexivity|]. split; [apply lookup_insert_eq|].
  unfold runFactory. cbn. rewrite list_lookup_middle by reflexivity.
  eexists. split; reflexivity.
Qed.

(** C5.  A call made while an entry for the key is registered returns the
    registered handle and leaves the ledger, the requests and the list of
    called factories as they were: its factory is neither called nor queued.
    Hence, in every ledger reached from the empty one, two requests pending
    under one key are the same request; and a caller that overlaps an earlier
    call, before the finally job of that call has run, holds the handle of the
    earlier call and observes what that caller observes.  The finally job of a
    settled request runs once, removes the entry of its key when that entry is
    still its own request and leaves the ledger alone otherwise, and no other
    step removes the entry; when the registered request settles, its finally
    job removes the entry.  A call under a key without an entry creates a new
    request, registers it, and has its own factory called. *)
Theorem withInFlightKey_deduplicates :
  (forall st k (f : F) h,
     inFlightRequests st !! k = Some h -> withInFlightKey k f st = (h, st))
  /\ (forall st k h1 h2,
        reachable st -> pending st h1 k -> pending st h2 k -> h1 = h2)
  /\ (forall st0 k (f g : F) (evs : list (Event F R)) st2,
        inFlightRequests st0 !! k = None ->
        run evs (snd (withInFlightKey k f st0)) = Some st2 ->
        Forall (notFinallyOf (fst (withInFlightKey k f st0))) evs ->
        withInFlightKey k g st2 = (fst (withInFlightKey k f st0), st2)
        /\ forall st3, observed st3 (fst (withInFlightKey k g st2))
                       = observed st3 (fst (withInFlightKey k f st0)))
  /\ (forall st h k (out : R),
        requests st !! h = Some {| reqKey := k; reqPhase := Settled out false |} ->
        exists st',
          runFinally h st = Some st'
          /\ (inFlightRequests st !! k = Some h ->
              inFlightRequests st' = delete k (inFlightRequests st))
          /\ (inFlightRequests st !! k <> Some h ->
              inFlightRequests st' = inFlightRequests st)
          /\ runFinally h st' = None)
  /\ (forall st st' (ev : Event F R) k h,
        step ev st = Some st' -> notFinallyOf h ev ->
        inFlightRequests st !! k = Some h -> inFlightRequests st' !! k = Some h)
  /\ (forall st h k (out : R) st1,
        reachable st -> inFlightRequests st !! k = Some h ->
        settle h out st = Some st1 ->
        exists st2, runFinally h st1 = Some st2 /\ inFlightRequests st2 !! k = None)
  /\ (forall st k (g : F),
        inFlightRequests st !! k = None ->
        fst (withInFlightKey k g st) = length (requests st)
        /\ inFlightRequests (snd (withInFlightKey k g st)) !! k
           = Some (fst (withInFlightKey k g st))
        /\ exists st',
             runFactory (fst (withInFlightKey k g st)) (snd (withInFlightKey k g st))
             = Some st'
             /\ invocations st' = invocations st ++ [(fst (withInFlightKey k g st), g)]).
Proof.
  repeat apply conj.
  - apply withInFlightKey_registered.
  - intros st k h1 h2 Hreach. apply pending_unique, reachable_consistent, Hreach.
  - intros st0 k f g evs st2 Hk Hrun Hall.
    pose proof (overlapping_call_shares_handle st0 k f g evs st2 Hk Hrun Hall) as Hcall.
    split; [exact Hcall|]. intros st3. rewrite Hcall. reflexivity.
  - apply runFinally_guarded.
  - apply registered_survives_step.
  - intros st h k out st1 Hreach. apply settled_entry_is_removed, reachable_consistent, Hreach.
  - apply fresh_call_invokes_factory.
Qed.

End LedgerProperties.

Lemma withInFlightKey_deduplicates_witness :
  withInFlightKey (buildInFlightKey "post" "/videos/abc/view") "second"
    (snd (withInFlightKey (buildInFlightKey "post" "/videos/abc/view") "first"
            (@emptyLedger string nat)))
  = (0%nat,
     snd (withInFlightKey (buildInFlightKey "post" "/videos/abc/view") "first"
            (@emptyLedger string nat)))
  /\ fst (withInFlightKey (buildInFlightKey "post" "/videos/abc/view") "third"
            (@emptyLedger string nat)) = 0%nat.
Proof.
  split.
  - apply (proj1 (@withInFlightKey_deduplicates string nat)).
    vm_compute. reflexivity.
  - apply (proj2 (proj2 (proj2 (proj2 (proj2 (proj2
             (@withInFlightKey_deduplicates string nat))))))).
    reflexivity.
Defined.

(* ===================================================================== *)
(** * Properties of the in-flight key                                     *)
(* ===================================================================== *)


Lemma split_nonempty (sep : ascii) (s : string) : split sep s <> [].
Proof.
  destruct s as [|c rest]; cbn; [discriminate|].
  destruct (Ascii.eqb c sep); [discriminate|].
  destruct (split sep rest); discriminate.
Qed.

Lemma split_cons_other (c : ascii) (rest : string) :
  isSlash c = false ->
  exists piece pieces,
    split "/" rest = piece :: pieces
    /\ split "/" (String c rest) = String c piece :: pieces.
Proof.
  intros Hc. unfold isSlash in Hc. cbn. rewrite Hc.
  destruct (split "/" rest) as [|piece pieces] eqn:Hs.
  - exfalso. exact (split_nonempty _ _ Hs).
  - eauto.
Qed.

Lemma segments_slash (rest : string) :
  segments (String "/" rest) = segments rest.
Proof. reflexivity. Qed.

Lemma isSlash_true (c : ascii) : isSlash c = true -> c = "/"%char.
Proof. apply Ascii.eqb_eq. Qed.

Lemma concat_cons_cons (sep x y : string) (l : list string) :
  String.concat sep (x :: y :: l) = x ++ sep ++ String.concat sep (y :: l).
Proof. reflexivity. Qed.

Lemma startsWith_slash (rest : string) : startsWith "/" (String "/" rest) = true.
Proof. reflexivity. Qed.

Lemma startsWith_other (c : ascii) (rest : string) :
  isSlash c = false -> startsWith "/" (String c rest) = false.
Proof.
  intros Hc. unfold isSlash in Hc.
  change (startsWith "/" (String c rest)) with (Ascii.eqb "/" c && true).
  rewrite Ascii.eqb_sym, Hc. reflexivity.
Qed.

Lemma collapseSlashes_slash_slash (rest : string) :
  collapseSlashes (String "/" (String "/" rest)) = collapseSlashes (String "/" rest).
Proof. reflexivity. Qed.

Lemma collapseSlashes_slash_other (c : ascii) (rest : string) :
  isSlash c = false ->
  collapseSlashes (String "/" (String c rest))
  = String "/" (collapseSlashes (String c rest)).
Proof.
  intros Hc.
  change (collapseSlashes (String "/" (String c rest)))
    with (if isSlash c then collapseSlashes (String c rest)
          else String "/" (collapseSlashes (String c rest))).
  rewrite Hc. reflexivity.
Qed.

Lemma collapseSlashes_other (c : ascii) (rest : string) :
  isSlash c = false ->
  collapseSlashes (String c rest) = String c (collapseSlashes rest).
Proof.
  intros Hc.
  change (collapseSlashes (String c rest))
    with (if isSlash c
          then match rest with
               | String c' _ =>
                   if isSlash c' then collapseSlashes rest
                   else String c (collapseSlashes rest)
               | EmptyString => String c EmptyString
               end
          else String c (collapseSlashes rest)).
  rewrite Hc. reflexivity.
Qed.

Lemma stripTrailingSlashes_cons (c : ascii) (rest : string) :
  stripTrailingSlashes (String c rest)
  = match stripTrailingSlashes rest with
    | EmptyString => if isSlash c then EmptyString else String c EmptyString
    | kept => String c kept
    end.
Proof. reflexivity. Qed.

Lemma strip_collapse_joined (p : string) :
  stripTrailingSlashes (collapseSlashes p)
  = joined (startsWith "/" p) (segments p).
Proof.
  induction p as [|c rest IH]; [reflexivity|].
  destruct (isSlash c) eqn:Hc.
  - apply isSlash_true in Hc. subst c. rewrite segments_slash.
    destruct rest as [|c' rest']; [reflexivity|].
    destruct (isSlash c') eqn:Hc'.
    + apply isSlash_true in Hc'. subst c'.
      rewrite collapseSlashes_slash_slash, IH, !startsWith_slash. reflexivity.
    + rewrite (collapseSlashes_slash_other c' rest' Hc').
      rewrite stripTrailingSlashes_cons, IH.
      destruct (split_cons_other c' rest' Hc') as (piece & pieces & _ & Hsplit).
      unfold segments. rewrite Hsplit. cbn [List.filter nonEmpty String.eqb negb].
      rewrite (startsWith_other c' rest' Hc').
      cbn [joined]. destruct (List.filter nonEmpty pieces); reflexivity.
  - rewrite (collapseSlashes_other c rest Hc).
    rewrite stripTrailingSlashes_cons, IH, Hc.
    rewrite (startsWith_other c rest Hc).
    destruct (split_cons_other c rest Hc) as (piece & pieces & Hrest & Hsplit).
    unfold segments. rewrite Hsplit, Hrest.
    cbn [List.filter nonEmpty String.eqb negb].
    destruct rest as [|c' rest'].
    + cbn in Hrest. injection Hrest as <- <-. reflexivity.
    + destruct (isSlash c') eqn:Hc'.
      * apply isSlash_true in Hc'. subst c'. cbn in Hrest.
        injection Hrest as <- <-. cbn [nonEmpty String.eqb negb].
        rewrite startsWith_slash.
        destruct (List.filter nonEmpty (split "/" rest')); reflexivity.
      * destruct (split_cons_other c' rest' Hc') as (piece' & pieces' & _ & Hsplit').
        rewrite Hsplit' in Hrest. injection Hrest as <- <-.
        cbn [nonEmpty String.eqb negb].
        rewrite (startsWith_other c' rest' Hc').
        cbn [joined]. destruct (List.filter nonEmpty pieces'); reflexivity.
Qed.

Lemma normalizedPath_canonical (p : string) :
  p = "" \/ startsWith "/" p = true -> normalizedPath p = canonicalPath p.
Proof.
  intros Hp. unfold normalizedPath, canonicalPath.
  rewrite strip_collapse_joined.
  destruct Hp as [-> | Hlead]; [reflexivity|].
  rewrite Hlead. destruct (segments p); reflexivity.
Qed.

(** ** Trimming twice *)

Lemma trimEnd_idem (s : string) : trimEnd (trimEnd s) = trimEnd s.
Proof.
  induction s as [|c rest IH]; [reflexivity|].
  cbn [trimEnd]. destruct (trimEnd rest) as [|k kept] eqn:Hrest.
  - destruct (isWhiteSpace c) eqn:Hc; [reflexivity|].
    cbn [trimEnd]. rewrite Hc. reflexivity.
  - cbn [trimEnd] in *. rewrite IH. reflexivity.
Qed.

Lemma trimEnd_keeps_head (c : ascii) (rest : string) :
  isWhiteSpace c = false ->
  exists kept, trimEnd (String c rest) = String c kept.
Proof.
  intros Hc. cbn [trimEnd]. destruct (trimEnd rest); rewrite ?Hc; eauto.
Qed.

Lemma trimStart_head (s : string) :
  trimStart s = "" \/ exists c rest, trimStart s = String c rest /\ isWhiteSpace c = false.
Proof.
  induction s as [|c rest IH]; [left; reflexivity|].
  cbn [trimStart]. destruct (isWhiteSpace c) eqn:Hc; [exact IH|].
  right. eauto.
Qed.

Lemma trim_idem (s : string) : trim (trim s) = trim s.
Proof.
  unfold trim. destruct (trimStart_head s) as [-> | (c & rest & -> & Hc)];
    [reflexivity|].
  destruct (trimEnd_keeps_head c rest Hc) as (kept & Hkept).
  rewrite Hkept. cbn [trimStart]. rewrite Hc, <- Hkept. apply trimEnd_idem.
Qed.

(** ** Text *)

Lemma append_cons (c : ascii) (a b : string) : String c a ++ b = String c (a ++ b).
Proof. reflexivity. Qed.

Lemma append_empty_l (s : string) : "" ++ s = s.
Proof. reflexivity. Qed.


Lemma append_empty_r (s : string) : s ++ "" = s.
Proof.
  induction s as [|c rest IH]; [reflexivity | rewrite append_cons, IH; reflexivity].
Qed.

Lemma append_assoc (a b c : string) : (a ++ b) ++ c = a ++ b ++ c.
Proof.
  induction a as [|x rest IH]; [reflexivity | rewrite !append_cons, IH; reflexivity].
Qed.


Lemma matchScheme_http (scheme rest : string) :
  isHttpScheme scheme -> matchScheme (scheme ++ rest) = Some (scheme, rest).
Proof. intros [-> | ->]; reflexivity. Qed.






Lemma withLeadingSlash_leads (target : string) :
  startsWith "/" (withLeadingSlash target) = true.
Proof.
  unfold withLeadingSlash.
  destruct (startsWith "/" (trim target)) eqn:E; [exact E | reflexivity].
Qed.

Lemma first_piece_leads (s : string) :
  startsWith "/" s = true -> startsWith "/" (nth 0 (split "?" s) "") = true.
Proof.
  destruct s as [|c rest]; [discriminate|]. intros Hs.
  assert (c = "/"%char) as ->.
  { change (startsWith "/" (String c rest)) with (Ascii.eqb "/" c && true) in Hs.
    apply andb_prop in Hs as [Hc _].
    apply Ascii.eqb_eq in Hc. congruence. }
  cbn. destruct (split "?" rest); reflexivity.
Qed.

Lemma normalizePath_trimmed (target : string) :
  normalizePath (trim target)
  = canonicalPath (nth 0 (split "?" (withLeadingSlash target)) "") ++ keptQuery target.
Proof.
  unfold normalizePath. rewrite trim_idem.
  destruct (String.eqb_spec (trim target) "") as [Hblank | Hsome].
  - unfold keptQuery, withLeadingSlash. rewrite Hblank. reflexivity.
  - fold (withLeadingSlash target). unfold keptQuery.
    rewrite (normalizedPath_canonical (nth 0 (split "?" (withLeadingSlash target)) ""))
      by (right; apply first_piece_leads, withLeadingSlash_leads).
    destruct (nth 1 (split "?" (withLeadingSlash target)) "");
      [rewrite (append_empty_r (canonicalPath _))|]; reflexivity.
Qed.

Lemma normalizeTarget_relative (target : string) :
  isRelative target -> normalizeTarget target = normalizePath (trim target).
Proof.
  intros [Hhttp Hhttps]. unfold normalizeTarget.
  destruct (String.eqb_spec (trim target) "") as [Hblank | Hsome].
  - rewrite Hblank. reflexivity.
  - rewrite Hhttp, Hhttps. reflexivity.
Qed.

Lemma matchAbsoluteUrl_hostless (scheme rest : string) :
  isHttpScheme scheme ->
  match rest with
  | EmptyString => True
  | String c _ => notIn ["/"; "?"; "#"]%char c = false
  end ->
  matchAbsoluteUrl (scheme ++ rest) = None.
Proof.
  intros Hscheme Hrest. unfold matchAbsoluteUrl.
  rewrite (matchScheme_http scheme rest Hscheme).
  destruct rest as [|c rest']; [reflexivity|].
  cbn [span]. rewrite Hrest. reflexivity.
Qed.

Lemma normalizeTarget_hostless (target : string) :
  isHostless target -> normalizeTarget target = normalizePath (trim target).
Proof.
  intros (scheme & rest & Hscheme & Htrim & Hrest). unfold normalizeTarget.
  assert (String.eqb (trim target) "" = false) as ->.
  { rewrite Htrim. destruct Hscheme as [-> | ->]; reflexivity. }
  assert (startsWith "http://" (trim target) || startsWith "https://" (trim target) = true)
    as ->.
  { rewrite Htrim. destruct Hscheme as [-> | ->]; reflexivity. }
  unfold normalizeAbsoluteUrl. rewrite trim_idem, Htrim.
  rewrite (matchAbsoluteUrl_hostless scheme rest Hscheme Hrest). reflexivity.
Qed.

(** ** Every target is of one of the three kinds *)





(** ** The shape of a canonical path *)











(* ===================================================================== *)
(** * The repository's unit tests, replayed on the embedding             *)
(* ===================================================================== *)

(** errors.test.ts: maps network failures when no response body is
    present. *)
Example test_parseApiError_network :
  code (parseApiError testRuntime 0 VNull (Some "Request timeout") VUndefined) = NETWORK
  /\ message (parseApiError testRuntime 0 VNull (Some "Request timeout") VUndefined)
     = VStr "Request timeout"
  /\ httpStatus (parseApiError testRuntime 0 VNull (Some "Request timeout") VUndefined)
     = None.
Proof. repeat split. Qed.

(** errors.test.ts: honors body statusCode on auth endpoints returning
    HTTP 200. *)
Example test_parseApiError_body_status :
  let e := parseApiError testRuntime 200
             (VObj [("success", VBool false); ("message", VStr "Too many attempts");
                    ("statusCode", VNum 429); ("waitTime", VNum 120000)])
             None VUndefined in
  code e = RATE_LIMIT /\ httpStatus e = Some 429%Q
  /\ Errors.waitTimeMs e = Some 120000%Q /\ message e = VStr "Too many attempts".
Proof. repeat split. Qed.

(** errors.test.ts: maps backend type and recoverable flags. *)
Example test_parseApiError_backend_type :
  let e := parseApiError testRuntime 409
             (VObj [("error", VStr "Duplicate"); ("type", VStr "duplicate");
                    ("recoverable", VBool true)])
             None VUndefined in
  code e = CONFLICT /\ backendType e = VStr "duplicate" /\ recoverable e = VBool true.
Proof. repeat split. Qed.

(** errors.test.ts: parses Retry-After seconds into retryAfterMs. *)
Example test_parseApiError_retry_after :
  let rt := {| Number_of_string := fun s => if String.eqb s "120" then Some 120%Q else None;
               Date_parse := fun _ => None; Date_now := 0;
               Number_toString := fun _ => "429" |} in
  let e := parseApiError rt 429 (VObj [("error", VStr "Too many requests")])
             None (VStr "120") in
  code e = RATE_LIMIT /\ retryAfterMs e = Some 120000%Q.
Proof. repeat split. Qed.

(** errors.test.ts: retries network and 5xx errors only. *)
Example test_shouldRetry :
  shouldRetry (plainError NETWORK None "offline") = true
  /\ shouldRetry (plainError SERVER (Some 503%Q) "down") = true
  /\ shouldRetry (plainError UNAUTHENTICATED (Some 401%Q) "auth") = false
  /\ shouldRetry (plainError RATE_LIMIT (Some 429%Q) "slow down") = false.
Proof. repeat split. Qed.

(** client.test.ts: retryable methods. *)
Example test_isRetryableMethod :
  isRetryableMethod (Some "GET") = true
  /\ isRetryableMethod (Some "head") = true
  /\ isRetryableMethod (Some " OPTIONS ") = true
  /\ isRetryableMethod (Some "POST") = false
  /\ isRetryableMethod (Some "PUT") = false
  /\ isRetryableMethod (Some "DELETE") = false
  /\ isRetryableMethod (Some "PATCH") = false
  /\ isRetryableMethod None = false
  /\ isRetryableMethod (Some "") = false
  /\ isRetryableMethod (Some "   ") = false.
Proof. repeat split. Qed.

(** client.test.ts: re-auth trigger policy. *)
Example test_shouldTriggerReauth :
  shouldTriggerReauth (Some "POST") (plainError UNAUTHENTICATED None "auth required") = true
  /\ shouldTriggerReauth (Some "GET") (plainError FORBIDDEN None "forbidden") = true
  /\ shouldTriggerReauth (Some "POST") (plainError FORBIDDEN None "forbidden") = false.
Proof. repeat split. Qed.

(** inFlight test: deduplicates concurrent requests for the same key.  Two
    calls, the then-job, the settlement with 42 and the finally job: one
    factory called, both callers hold handle 0 and observe 42, and the ledger
    is empty again. *)
Example test_inFlight_deduplicates :
  let key := buildInFlightKey "post" "/videos/abc/view" in
  let '(p1, st1) := withInFlightKey key "deferred" (@emptyLedger string Z) in
  let '(p2, st2) := withInFlightKey key "999" st1 in
  p1 = p2
  /\ match run [RunFactory p1] st2 with
     | Some st3 =>
         invocations st3 = [(p1, "deferred")]
         /\ __getInFlightRequestCount st3 = 1%nat
         /\ match run [Settle p1 42%Z; RunFinally p1] st3 with
            | Some st4 =>
                observed st4 p1 = Some 42%Z /\ observed st4 p2 = Some 42%Z
                /\ __getInFlightRequestCount st4 = 0%nat
            | None => False
            end
     | None => False
     end.
Proof. vm_compute. repeat split. Qed.

(** The guard of the finally job: after the test helper has cleared the
    ledger and the key has been registered again, the finally job of the
    first request leaves the entry of the second request in place. *)
Example test_inFlight_stale_finally :
  let key := buildInFlightKey "post" "/videos/abc/view" in
  let '(p1, st1) := withInFlightKey key "first" (@emptyLedger string Z) in
  match run [RunFactory p1] st1 with
  | Some st2 =>
      let '(p2, st3) := withInFlightKey key "second" (__resetInFlightRequestsForTests st2) in
      p2 <> p1
      /\ match run [Settle p1 1%Z; RunFinally p1] st3 with
         | Some st4 => inFlightRequests st4 !! key = Some p2
         | None => False
         end
  | None => False
  end.
Proof. vm_compute. split; [discriminate | reflexivity]. Qed.

(** AuthContext.test.ts: startup role resolution. *)
Example test_resolveStartupRole :
  resolveStartupRole false true (Some visitor) = None
  /\ resolveStartupRole false true (Some admin) = None
  /\ resolveStartupRole true true (Some admin) = Some admin
  /\ resolveStartupRole true true (Some visitor) = Some visitor
  /\ resolveStartupRole true false (Some admin) = None.
Proof. repeat split. Qed.

(** polling test: the floor of one second. *)
Example test_getJitteredIntervalMs_floor :
  (1000 <= getJitteredIntervalMs (3 # 4) 100)%Q.
Proof. vm_compute. discriminate. Qed.

(** Keys of targets that differ only in slashes and white space agree. *)
Example test_buildInFlightKey :
  buildInFlightKey " post " "  /videos//abc/view/ " = "POST /videos/abc/view"
  /\ buildInFlightKey "get" "https://Example.com//a///b/?x=1//2#top"
     = "GET https://Example.com/a/b?x=1//2"
  /\ buildInFlightKey "delete" "" = "DELETE /".
Proof. repeat split. Qed.

(* ===================================================================== *)
(** * Properties of the base64url codec                                   *)
(* ===================================================================== *)

(** A boolean test that holds on every integer below [n] holds on each. *)
Lemma below_forall (n : nat) (P : Z -> bool) :
  forallb P (below n) = true ->
  forall z, (0 <= z < Z.of_nat n)%Z -> P z = true.
Proof.
  intros Hall z Hz. rewrite forallb_forall in Hall. apply Hall.
  unfold below. rewrite in_map_iff. exists (Z.to_nat z).
  split; [lia|]. apply in_seq. lia.
Qed.

Lemma below_forall2 (n m : nat) (P : Z -> Z -> bool) :
  forallb (fun a => forallb (P a) (below m)) (below n) = true ->
  forall a b, (0 <= a < Z.of_nat n)%Z -> (0 <= b < Z.of_nat m)%Z -> P a b = true.
Proof.
  intros Hall a b Ha Hb.
  apply (below_forall m (P a)); [|exact Hb].
  apply (below_forall n (fun a => forallb (P a) (below m))); assumption.
Qed.

(** ** The alphabet *)

Lemma sextet_char_facts (c : Z) :
  (0 <= c < 64)%Z ->
  charAt c = String (sextetChar c) ""
  /\ indexOf BASE64_CHARS (sextetChar c) = c
  /\ isSextetChar (sextetChar c) = true
  /\ Ascii.eqb (sextetChar c) "-" = false
  /\ Ascii.eqb (sextetChar c) "_" = false.
Proof.
  intros Hc.
  pose proof (below_forall 64
    (fun c => String.eqb (charAt c) (String (sextetChar c) "")
              && (indexOf BASE64_CHARS (sextetChar c) =? c)%Z
              && isSextetChar (sextetChar c)
              && negb (Ascii.eqb (sextetChar c) "-")
              && negb (Ascii.eqb (sextetChar c) "_"))
    eq_refl c Hc) as Hcheck.
  cbv beta in Hcheck.
  repeat (apply andb_prop in Hcheck as [Hcheck ?]).
  apply String.eqb_eq in Hcheck.
  repeat match goal with
         | H : negb _ = true |- _ => apply negb_true_iff in H
         | H : (_ =? _)%Z = true |- _ => apply Z.eqb_eq in H
         end.
  auto.
Qed.

(** ** The arithmetic of one group of three bytes *)

Lemma sextet_ranges (b1 b2 : Z) :
  isByte b1 -> isByte b2 ->
  (0 <= sextet1 b1 < 64 /\ 0 <= sextet2 b1 b2 < 64
   /\ 0 <= sextet3 b1 b2 < 64 /\ 0 <= sextet4 b1 < 64)%Z.
Proof.
  intros H1 H2.
  pose proof (below_forall2 256 256
    (fun b1 b2 =>
       (0 <=? sextet1 b1)%Z && (sextet1 b1 <? 64)%Z
       && (0 <=? sextet2 b1 b2)%Z && (sextet2 b1 b2 <? 64)%Z
       && (0 <=? sextet3 b1 b2)%Z && (sextet3 b1 b2 <? 64)%Z
       && (0 <=? sextet4 b1)%Z && (sextet4 b1 <? 64)%Z)
    ltac:(vm_compute; reflexivity) b1 b2 H1 H2) as Hcheck.
  cbv beta in Hcheck.
  repeat (apply andb_prop in Hcheck as [Hcheck ?]).
  repeat match goal with
         | H : (_ <=? _)%Z = true |- _ => apply Z.leb_le in H
         | H : (_ <? _)%Z = true |- _ => apply Z.ltb_lt in H
         end.
  lia.
Qed.

(** What the decoder rebuilds from the six-bit values, two bytes at a
    time. *)
Lemma sextet_pairs (b1 b2 : Z) :
  isByte b1 -> isByte b2 ->
  Z.land (Z.lor (Z.shiftl (sextet1 b1) 2) (Z.shiftr (sextet2 b1 b2) 4)) 255 = b1
  /\ Z.land (sextet2 b1 b2) 15 = Z.shiftr b2 4
  /\ Z.shiftr (sextet3 b1 b2) 2 = Z.land b1 15
  /\ Z.land (sextet3 b1 b2) 3 = Z.shiftr b2 6
  /\ Z.land (Z.lor (Z.shiftl (Z.shiftr b1 4) 4) (Z.land b1 15)) 255 = b1
  /\ Z.land (Z.lor (Z.shiftl (Z.shiftr b1 6) 6) (sextet4 b1)) 255 = b1.
Proof.
  intros H1 H2.
  pose proof (below_forall2 256 256
    (fun b1 b2 =>
       (Z.land (Z.lor (Z.shiftl (sextet1 b1) 2) (Z.shiftr (sextet2 b1 b2) 4)) 255 =? b1)%Z
       && (Z.land (sextet2 b1 b2) 15 =? Z.shiftr b2 4)%Z
       && (Z.shiftr (sextet3 b1 b2) 2 =? Z.land b1 15)%Z
       && (Z.land (sextet3 b1 b2) 3 =? Z.shiftr b2 6)%Z
       && (Z.land (Z.lor (Z.shiftl (Z.shiftr b1 4) 4) (Z.land b1 15)) 255 =? b1)%Z
       && (Z.land (Z.lor (Z.shiftl (Z.shiftr b1 6) 6) (sextet4 b1)) 255 =? b1)%Z)
    ltac:(vm_compute; reflexivity) b1 b2 H1 H2) as Hcheck.
  cbv beta in Hcheck.
  repeat (apply andb_prop in Hcheck as [Hcheck ?]).
  repeat match goal with
         | H : (_ =? _)%Z = true |- _ => apply Z.eqb_eq in H
         end.
  auto 10.
Qed.

Lemma indexOrPad_sextet (c : Z) :
  (0 <= c < 64)%Z -> indexOrPad (Some (sextetChar c)) = c.
Proof.
  intros Hc. destruct (sextet_char_facts c Hc) as (_ & Hidx & Hsex & _).
  unfold indexOrPad. unfold isSextetChar in Hsex.
  apply andb_prop in Hsex as [_ Hpad]. apply negb_true_iff in Hpad.
  rewrite Hpad. exact Hidx.
Qed.

Lemma encodeTriple_chars (b1 b2 b3 : Z) (hasB2 hasB3 : bool) :
  isByte b1 -> isByte b2 -> isByte b3 ->
  encodeTriple b1 b2 b3 hasB2 hasB3
  = String (sextetChar (sextet1 b1))
      (String (sextetChar (sextet2 b1 b2))
         (String (if hasB2 then sextetChar (sextet3 b2 b3) else "="%char)
            (String (if hasB3 then sextetChar (sextet4 b3) else "="%char) ""))).
Proof.
  intros H1 H2 H3.
  destruct (sextet_ranges b1 b2 H1 H2) as (R1 & R2 & _ & _).
  destruct (sextet_ranges b2 b3 H2 H3) as (_ & _ & R3 & _).
  destruct (sextet_ranges b3 b3 H3 H3) as (_ & _ & _ & R4).
  destruct (sextet_char_facts _ R1) as (E1 & _).
  destruct (sextet_char_facts _ R2) as (E2 & _).
  destruct (sextet_char_facts _ R3) as (E3 & _).
  destruct (sextet_char_facts _ R4) as (E4 & _).
  unfold encodeTriple. fold (sextet1 b1) (sextet2 b1 b2) (sextet3 b2 b3) (sextet4 b3).
  rewrite E1, E2, E3, E4. destruct hasB2, hasB3; reflexivity.
Qed.

(** A full group decodes to its three bytes, a group with one padding
    character to its two bytes and a group with two to its one byte. *)
Lemma decodeQuad_three (b1 b2 b3 : Z) :
  isByte b1 -> isByte b2 -> isByte b3 ->
  decodeQuad (sextetChar (sextet1 b1)) (Some (sextetChar (sextet2 b1 b2)))
             (Some (sextetChar (sextet3 b2 b3))) (Some (sextetChar (sextet4 b3)))
  = [b1; b2; b3].
Proof.
  intros H1 H2 H3.
  destruct (sextet_ranges b1 b2 H1 H2) as (R1 & R2 & _ & _).
  destruct (sextet_ranges b2 b3 H2 H3) as (_ & _ & R3 & _).
  destruct (sextet_ranges b3 b3 H3 H3) as (_ & _ & _ & R4).
  destruct (sextet_pairs b1 b2 H1 H2) as (A1 & A2 & _).
  destruct (sextet_pairs b2 b3 H2 H3) as (_ & _ & A3 & A4 & A5 & _).
  destruct (sextet_pairs b3 b3 H3 H3) as (_ & _ & _ & _ & _ & A6).
  unfold decodeQuad. cbn [orA].
  rewrite !indexOrPad_sextet by assumption.
  destruct (sextet_char_facts _ R1) as (_ & -> & _).
  destruct (sextet_char_facts _ R2) as (_ & -> & _).
  assert ((0 <=? sextet3 b2 b3)%Z = true) as -> by (apply Z.leb_le; lia).
  assert ((0 <=? sextet4 b3)%Z = true) as -> by (apply Z.leb_le; lia).
  cbn [andb app]. rewrite A1, A2, A3, A4, A5, A6. reflexivity.
Qed.

Lemma decodeQuad_two (b1 b2 : Z) :
  isByte b1 -> isByte b2 ->
  decodeQuad (sextetChar (sextet1 b1)) (Some (sextetChar (sextet2 b1 b2)))
             (Some (sextetChar (sextet3 b2 0))) (Some "="%char)
  = [b1; b2].
Proof.
  intros H1 H2. assert (isByte 0) as H0 by (unfold isByte; lia).
  destruct (sextet_ranges b1 b2 H1 H2) as (R1 & R2 & _ & _).
  destruct (sextet_ranges b2 0 H2 H0) as (_ & _ & R3 & _).
  destruct (sextet_pairs b1 b2 H1 H2) as (A1 & A2 & _).
  destruct (sextet_pairs b2 0 H2 H0) as (_ & _ & A3 & _ & A5 & _).
  unfold decodeQuad. cbn [orA].
  rewrite indexOrPad_sextet by assumption.
  destruct (sextet_char_facts _ R1) as (_ & -> & _).
  destruct (sextet_char_facts _ R2) as (_ & -> & _).
  assert ((0 <=? sextet3 b2 0)%Z = true) as -> by (apply Z.leb_le; lia).
  change (indexOrPad (Some "="%char)) with (-1)%Z.
  cbn [andb app Z.leb Z.compare]. rewrite A1, A2, A3, A5. reflexivity.
Qed.

Lemma decodeQuad_one (b1 : Z) :
  isByte b1 ->
  decodeQuad (sextetChar (sextet1 b1)) (Some (sextetChar (sextet2 b1 0)))
             (Some "="%char) (Some "="%char)
  = [b1].
Proof.
  intros H1. assert (isByte 0) as H0 by (unfold isByte; lia).
  destruct (sextet_ranges b1 0 H1 H0) as (R1 & R2 & _ & _).
  destruct (sextet_pairs b1 0 H1 H0) as (A1 & _).
  unfold decodeQuad. cbn [orA].
  destruct (sextet_char_facts _ R1) as (_ & -> & _).
  destruct (sextet_char_facts _ R2) as (_ & -> & _).
  change (indexOrPad (Some "="%char)) with (-1)%Z.
  cbn [andb app Z.leb Z.compare]. rewrite A1. reflexivity.
Qed.

(** ** Decoding what was encoded *)

Lemma decodeQuads_encodeBase64 (n : nat) (bytes : list Z) :
  (List.length bytes <= n)%nat -> Forall isByte bytes ->
  decodeQuads (encodeBase64 bytes) = bytes.
Proof.
  revert bytes. induction n as [|n IH]; intros bytes Hlen Hall.
  - destruct bytes; [reflexivity | cbn in Hlen; lia].
  - destruct bytes as [|b1 [|b2 [|b3 rest]]]; [reflexivity| | |].
    + apply Forall_cons in Hall as [H1 _].
      assert (isByte 0) as H0 by (unfold isByte; lia).
      cbn [encodeBase64]. rewrite encodeTriple_chars by assumption.
      cbn [decodeQuads]. rewrite ?List.app_nil_r. apply decodeQuad_one, H1.
    + apply Forall_cons in Hall as [H1 Hall]. apply Forall_cons in Hall as [H2 _].
      assert (isByte 0) as H0 by (unfold isByte; lia).
      cbn [encodeBase64]. rewrite encodeTriple_chars by assumption.
      cbn [decodeQuads]. rewrite ?List.app_nil_r. apply decodeQuad_two; assumption.
    + apply Forall_cons in Hall as [H1 Hall]. apply Forall_cons in Hall as [H2 Hall].
      apply Forall_cons in Hall as [H3 Hall].
      cbn [encodeBase64]. rewrite encodeTriple_chars by assumption.
      rewrite !append_cons, append_empty_l. cbn [decodeQuads].
      rewrite decodeQuad_three by assumption.
      rewrite IH; [reflexivity | cbn in Hlen; lia | exact Hall].
Qed.

Lemma keepChars_all (ok : ascii -> bool) (s : string) :
  allChars ok s = true -> keepChars ok s = s.
Proof.
  induction s as [|c rest IH]; [reflexivity|]. cbn. intros Hall.
  apply andb_prop in Hall as [Hc Hrest]. rewrite Hc, (IH Hrest). reflexivity.
Qed.

Lemma allChars_append (ok : ascii -> bool) (a b : string) :
  allChars ok (a ++ b) = allChars ok a && allChars ok b.
Proof.
  induction a as [|c rest IH]; [reflexivity|].
  rewrite append_cons. cbn [allChars]. rewrite IH, andb_assoc. reflexivity.
Qed.

Lemma allChars_weaken (ok ok' : ascii -> bool) (s : string) :
  (forall c, ok c = true -> ok' c = true) ->
  allChars ok s = true -> allChars ok' s = true.
Proof.
  intros Himp. induction s as [|c rest IH]; [reflexivity|]. cbn. intros Hall.
  apply andb_prop in Hall as [Hc Hrest]. rewrite (Himp c Hc), (IH Hrest). reflexivity.
Qed.

Lemma length_append (a b : string) :
  String.length (a ++ b) = (String.length a + String.length b)%nat.
Proof.
  induction a as [|c rest IH]; [reflexivity|].
  rewrite append_cons. cbn [String.length]. rewrite IH. reflexivity.
Qed.

(** ** The shape of encoded text *)

(** The text of three bytes or fewer: its characters before the padding,
    and how many padding characters follow. *)
Lemma encodeBase64_shape (n : nat) (bytes : list Z) :
  (List.length bytes <= n)%nat -> Forall isByte bytes ->
  exists body k,
    encodeBase64 bytes = body ++ padding k
    /\ allChars isSextetChar body = true
    /\ allChars (fun c => negb (Ascii.eqb c "-") && negb (Ascii.eqb c "_")) body = true
    /\ String.length body = ((4 * List.length bytes + 2) / 3)%nat
    /\ ((k = 0 /\ String.length body mod 4 = 0)
        \/ (k = 1 /\ String.length body mod 4 = 3)
        \/ (k = 2 /\ String.length body mod 4 = 2))%nat.
Proof.
  revert bytes. induction n as [|n IH]; intros bytes Hlen Hall.
  - destruct bytes; [|cbn in Hlen; lia].
    exists "", 0%nat. repeat split. left. split; reflexivity.
  - assert (isByte 0) as H0 by (unfold isByte; lia).
    assert (forall c, (0 <= c < 64)%Z ->
              isSextetChar (sextetChar c) = true
              /\ negb (Ascii.eqb (sextetChar c) "-") && negb (Ascii.eqb (sextetChar c) "_")
                 = true) as Hchar.
    { intros c Hc. destruct (sextet_char_facts c Hc) as (_ & _ & Hs & Hm & Hu).
      rewrite Hs, Hm, Hu. split; reflexivity. }
    destruct bytes as [|b1 [|b2 [|b3 rest]]].
    + exists "", 0%nat. repeat split. left. split; reflexivity.
    + apply Forall_cons in Hall as [H1 _].
      destruct (sextet_ranges b1 0 H1 H0) as (R1 & R2 & _ & _).
      destruct (Hchar _ R1) as [S1 U1]. destruct (Hchar _ R2) as [S2 U2].
      exists (String (sextetChar (sextet1 b1)) (String (sextetChar (sextet2 b1 0)) "")),
             2%nat.
      cbn [encodeBase64]. rewrite encodeTriple_chars by assumption.
      split; [reflexivity|]. cbn [allChars]. rewrite S1, S2, U1, U2.
      repeat split. right. right. split; reflexivity.
    + apply Forall_cons in Hall as [H1 Hall]. apply Forall_cons in Hall as [H2 _].
      destruct (sextet_ranges b1 b2 H1 H2) as (R1 & R2 & _ & _).
      destruct (sextet_ranges b2 0 H2 H0) as (_ & _ & R3 & _).
      destruct (Hchar _ R1) as [S1 U1]. destruct (Hchar _ R2) as [S2 U2].
      destruct (Hchar _ R3) as [S3 U3].
      exists (String (sextetChar (sextet1 b1))
                (String (sextetChar (sextet2 b1 b2))
                   (String (sextetChar (sextet3 b2 0)) ""))), 1%nat.
      cbn [encodeBase64]. rewrite encodeTriple_chars by assumption.
      split; [reflexivity|]. cbn [allChars]. rewrite S1, S2, S3, U1, U2, U3.
      repeat split. right. left. split; reflexivity.
    + apply Forall_cons in Hall as [H1 Hall]. apply Forall_cons in Hall as [H2 Hall].
      apply Forall_cons in Hall as [H3 Hall].
      destruct (sextet_ranges b1 b2 H1 H2) as (R1 & R2 & _ & _).
      destruct (sextet_ranges b2 b3 H2 H3) as (_ & _ & R3 & _).
      destruct (sextet_ranges b3 b3 H3 H3) as (_ & _ & _ & R4).
      destruct (Hchar _ R1) as [S1 U1]. destruct (Hchar _ R2) as [S2 U2].
      destruct (Hchar _ R3) as [S3 U3]. destruct (Hchar _ R4) as [S4 U4].
      destruct (IH rest) as (body & k & Henc & Hsex & Hurl & Hlength & Hpad);
        [cbn in Hlen; lia | exact Hall |].
      exists (String (sextetChar (sextet1 b1))
                (String (sextetChar (sextet2 b1 b2))
                   (String (sextetChar (sextet3 b2 b3))
                      (String (sextetChar (sextet4 b3)) body)))), k.
      cbn [encodeBase64]. rewrite encodeTriple_chars by assumption.
      rewrite Henc. split; [reflexivity|].
      cbn [allChars]. rewrite S1, S2, S3, S4, U1, U2, U3, U4, Hsex, Hurl.
      split; [reflexivity|]. split; [reflexivity|].
      assert (forall m, (S (S (S (S m))) mod 4 = m mod 4)%nat) as Hmod.
      { intros m. change (S (S (S (S m)))) with (4 + m)%nat.
        rewrite Nat.add_comm. apply (Nat.Div0.mod_add m 1 4). }
      cbn [String.length List.length]. rewrite Hmod. split; [|exact Hpad].
      rewrite Hlength.
      replace (4 * S (S (S (List.length rest))) + 2)%nat
        with ((4 * List.length rest + 2) + 4 * 3)%nat by lia.
      rewrite Nat.div_add by discriminate. lia.
Qed.

(** ** Replacing characters and padding *)

Lemma replaceChar_append (x y : ascii) (a b : string) :
  replaceChar x y (a ++ b) = replaceChar x y a ++ replaceChar x y b.
Proof.
  induction a as [|c rest IH]; [reflexivity|].
  rewrite append_cons. cbn [replaceChar]. rewrite IH, append_cons. reflexivity.
Qed.

Lemma replaceChar_length (x y : ascii) (s : string) :
  String.length (replaceChar x y s) = String.length s.
Proof. induction s as [|c rest IH]; cbn; [reflexivity | rewrite IH; reflexivity]. Qed.

Lemma replaceChar_padding (x y : ascii) (k : nat) :
  Ascii.eqb "=" x = false -> replaceChar x y (padding k) = padding k.
Proof.
  intros Hx. induction k as [|k IH]; [reflexivity|].
  cbn [padding replaceChar]. rewrite Hx, IH. reflexivity.
Qed.

Lemma stripPadding_cons (c : ascii) (rest : string) :
  stripPadding (String c rest)
  = match stripPadding rest with
    | EmptyString => if Ascii.eqb c "=" then EmptyString else String c EmptyString
    | kept => String c kept
    end.
Proof. reflexivity. Qed.

Lemma stripPadding_padding (k : nat) : stripPadding (padding k) = "".
Proof.
  induction k as [|k IH]; [reflexivity|].
  cbn [padding]. rewrite stripPadding_cons, IH. reflexivity.
Qed.

Lemma stripPadding_unpadded (body : string) (k : nat) :
  allChars (fun c => negb (Ascii.eqb c "=")) body = true ->
  stripPadding (body ++ padding k) = body.
Proof.
  induction body as [|c rest IH]; intros Hall.
  - apply stripPadding_padding.
  - cbn in Hall. apply andb_prop in Hall as [Hc Hrest]. apply negb_true_iff in Hc.
    rewrite append_cons, stripPadding_cons, (IH Hrest), Hc.
    destruct rest; reflexivity.
Qed.

Lemma fromUrlChars_toUrlChars (body : string) :
  allChars (fun c => negb (Ascii.eqb c "-") && negb (Ascii.eqb c "_")) body = true ->
  fromUrlChars (toUrlChars body) = body.
Proof.
  unfold fromUrlChars, toUrlChars.
  induction body as [|c rest IH]; [reflexivity|]. intros Hall.
  cbn in Hall. apply andb_prop in Hall as [Hc Hrest].
  apply andb_prop in Hc as [Hminus Hunder].
  apply negb_true_iff in Hminus, Hunder.
  cbn [replaceChar]. rewrite (IH Hrest). f_equal.
  destruct (Ascii.eqb_spec c "+") as [-> | Hplus]; [reflexivity|].
  destruct (Ascii.eqb_spec c "/") as [-> | Hslash]; [reflexivity|].
  rewrite Hminus, Hunder. reflexivity.
Qed.

Lemma toUrlChars_safe (body : string) :
  allChars isSextetChar body = true ->
  allChars isUrlSafeChar (toUrlChars body) = true
  /\ allChars (fun c => negb (Ascii.eqb c "=")) (toUrlChars body) = true.
Proof.
  unfold toUrlChars.
  induction body as [|c rest IH]; [split; reflexivity|]. intros Hall.
  cbn in Hall. apply andb_prop in Hall as [Hc Hrest].
  destruct (IH Hrest) as [Hsafe Hnopad].
  cbn [replaceChar allChars]. rewrite Hsafe, Hnopad, !andb_true_r.
  unfold isSextetChar in Hc. apply andb_prop in Hc as [Hb64 Hpad].
  destruct (Ascii.eqb_spec c "+") as [-> | Hplus]; [split; reflexivity|].
  destruct (Ascii.eqb_spec c "/") as [-> | Hslash]; [split; reflexivity|].
  split; [|exact Hpad].
  unfold isBase64Char in Hb64. unfold isUrlSafeChar.
  apply negb_true_iff in Hpad. rewrite Hpad in Hb64.
  destruct (Ascii.eqb_spec c "+"); [contradiction|].
  destruct (Ascii.eqb_spec c "/"); [contradiction|].
  rewrite !orb_false_r in Hb64. rewrite Hb64. reflexivity.
Qed.

Lemma length_append_pad (s : string) :
  String.length (s ++ "=") = S (String.length s).
Proof. rewrite length_append. cbn. lia. Qed.

(** The loop restores exactly the padding that was stripped. *)
Lemma padLoop_restores (body : string) (k : nat) :
  ((k = 0 /\ String.length body mod 4 = 0)
   \/ (k = 1 /\ String.length body mod 4 = 3)
   \/ (k = 2 /\ String.length body mod 4 = 2))%nat ->
  padLoop 3 body = body ++ padding k.
Proof.
  assert (forall m r, (m mod 4 = r)%nat -> (S m mod 4 = S r mod 4)%nat) as Hnext.
  { intros m r <-. change (S m) with (1 + m)%nat. change (S (m mod 4)) with (1 + m mod 4)%nat.
    rewrite Nat.Div0.add_mod_idemp_r. reflexivity. }
  intros [(-> & Hlen) | [(-> & Hlen) | (-> & Hlen)]].
  - cbn [padLoop padding]. rewrite Hlen, append_empty_r. reflexivity.
  - assert (S (String.length body) mod 4 = 0)%nat as E1
      by (rewrite (Hnext _ _ Hlen); reflexivity).
    cbn [padLoop padding]. rewrite !length_append_pad, Hlen, E1. reflexivity.
  - assert (S (String.length body) mod 4 = 3)%nat as E1
      by (rewrite (Hnext _ _ Hlen); reflexivity).
    assert (S (S (String.length body)) mod 4 = 0)%nat as E2
      by (rewrite (Hnext _ _ E1); reflexivity).
    cbn [padLoop padding].
    rewrite !length_append_pad, Hlen, E1, E2.
    rewrite append_assoc. reflexivity.
Qed.

Lemma land_255_byte (x : Z) : isByte (Z.land x 255).
Proof.
  unfold isByte. change 255%Z with (Z.ones 8).
  rewrite Z.land_ones by lia. apply Z.mod_pos_bound. reflexivity.
Qed.

Lemma decodeQuad_bytes (a : ascii) (b c d : option ascii) :
  Forall isByte (decodeQuad a b c d).
Proof.
  unfold decodeQuad.
  repeat (apply Forall_app; split);
    repeat match goal with
           | |- Forall _ (if ?t then _ else _) => destruct t
           | |- Forall _ [_] => constructor
           | |- Forall _ [] => constructor
           | |- isByte _ => apply land_255_byte
           end.
Qed.

Lemma decodeQuads_bytes (n : nat) (s : string) :
  (String.length s <= n)%nat -> Forall isByte (decodeQuads s).
Proof.
  revert s. induction n as [|n IH]; intros s Hlen.
  - destruct s; [constructor | cbn in Hlen; lia].
  - destruct s as [|a [|b [|c [|d rest]]]]; cbn [decodeQuads];
      [constructor | apply decodeQuad_bytes.. |].
    apply Forall_app. split; [apply decodeQuad_bytes|].
    apply IH. cbn in Hlen. lia.
Qed.

Lemma encodeBase64_clean (bytes : list Z) :
  Forall isByte bytes ->
  keepChars isBase64Char (encodeBase64 bytes) = encodeBase64 bytes.
Proof.
  intros Hall.
  destruct (encodeBase64_shape _ bytes (le_n _) Hall) as (body & k & -> & Hsex & _).
  apply keepChars_all. rewrite allChars_append. apply andb_true_intro. split.
  - apply (allChars_weaken isSextetChar); [|exact Hsex].
    intros c Hc. unfold isSextetChar in Hc. apply andb_prop in Hc as [Hc _]. exact Hc.
  - clear. induction k as [|k IH]; [reflexivity | exact IH].
Qed.

(** X1.  Decoding the base64 text of a byte sequence gives the sequence
    back, for every sequence of bytes, whatever its length. *)
Theorem decodeBase64_encodeBase64 (bytes : list Z) :
  Forall isByte bytes -> decodeBase64 (encodeBase64 bytes) = bytes.
Proof.
  intros Hall. unfold decodeBase64. rewrite (encodeBase64_clean bytes Hall).
  exact (decodeQuads_encodeBase64 _ bytes (le_n _) Hall).
Qed.

Lemma decodeBase64_encodeBase64_witness :
  decodeBase64 (encodeBase64 [77; 97; 110; 255; 0]%Z) = [77; 97; 110; 255; 0]%Z.
Proof.
  apply decodeBase64_encodeBase64.
  repeat constructor; unfold isByte; lia.
Defined.

Lemma toBase64Url_body (bytes : list Z) :
  Forall isByte bytes ->
  exists body k,
    encodeBase64 bytes = body ++ padding k
    /\ toBase64Url bytes = toUrlChars body
    /\ padLoop 3 (fromUrlChars (toUrlChars body)) = body ++ padding k
    /\ allChars isSextetChar body = true
    /\ String.length body = ((4 * List.length bytes + 2) / 3)%nat.
Proof.
  intros Hall.
  destruct (encodeBase64_shape _ bytes (le_n _) Hall)
    as (body & k & Henc & Hsex & Hurl & Hlength & Hpad).
  exists body, k. split; [exact Henc|].
  destruct (toUrlChars_safe body Hsex) as [_ Hnopad].
  split; [|split; [|split; assumption]].
  - unfold toBase64Url. rewrite Henc.
    rewrite !replaceChar_append, !replaceChar_padding by reflexivity.
    apply (stripPadding_unpadded (toUrlChars body) k Hnopad).
  - rewrite (fromUrlChars_toUrlChars body Hurl). apply padLoop_restores, Hpad.
Qed.

(** X2.  [base64UrlToArrayBuffer] undoes [toBase64Url]: the padding that
    the encoder strips is put back by the decoder, and the byte sequence
    comes back unchanged. *)
Theorem base64UrlToArrayBuffer_toBase64Url (bytes : list Z) :
  Forall isByte bytes -> base64UrlToArrayBuffer (toBase64Url bytes) = bytes.
Proof.
  intros Hall.
  destruct (toBase64Url_body bytes Hall) as (body & k & Henc & Hurl & Hpad & _).
  unfold base64UrlToArrayBuffer. rewrite Hurl.
  fold (fromUrlChars (toUrlChars body)). rewrite Hpad, <- Henc.
  unfold decodeBase64. rewrite (encodeBase64_clean bytes Hall).
  exact (decodeQuads_encodeBase64 _ bytes (le_n _) Hall).
Qed.

Lemma base64UrlToArrayBuffer_toBase64Url_witness :
  base64UrlToArrayBuffer (toBase64Url [251; 255; 254; 62]%Z) = [251; 255; 254; 62]%Z.
Proof.
  apply base64UrlToArrayBuffer_toBase64Url.
  repeat constructor; unfold isByte; lia.
Defined.

(** X3.  The text [toBase64Url] produces for [n] bytes consists of letters,
    digits, [-] and [_] only, so it carries no [+], [/] or padding, and it
    has [ceil(4 n / 3)] characters. *)
Theorem toBase64Url_url_safe (bytes : list Z) :
  Forall isByte bytes ->
  allChars isUrlSafeChar (toBase64Url bytes) = true
  /\ String.length (toBase64Url bytes) = ((4 * List.length bytes + 2) / 3)%nat.
Proof.
  intros Hall.
  destruct (toBase64Url_body bytes Hall) as (body & k & _ & -> & _ & Hsex & Hlength).
  split; [apply (toUrlChars_safe body Hsex)|].
  unfold toUrlChars. rewrite !replaceChar_length. exact Hlength.
Qed.

Lemma toBase64Url_url_safe_witness :
  allChars isUrlSafeChar (toBase64Url [251; 255; 254; 62]%Z) = true
  /\ String.length (toBase64Url [251; 255; 254; 62]%Z) = 6%nat.
Proof.
  apply (toBase64Url_url_safe [251; 255; 254; 62]%Z).
  repeat constructor; unfold isByte; lia.
Defined.

Lemma keepChars_append (ok : ascii -> bool) (a b : string) :
  keepChars ok (a ++ b) = keepChars ok a ++ keepChars ok b.
Proof.
  induction a as [|c rest IH]; [reflexivity|].
  rewrite append_cons. cbn [keepChars]. rewrite IH.
  destruct (ok c); [rewrite append_cons|]; reflexivity.
Qed.

Lemma keepChars_none (ok : ascii -> bool) (s : string) :
  allChars (fun c => negb (ok c)) s = true -> keepChars ok s = "".
Proof.
  induction s as [|c rest IH]; [reflexivity|]. cbn. intros Hall.
  apply andb_prop in Hall as [Hc Hrest]. apply negb_true_iff in Hc.
  rewrite Hc. exact (IH Hrest).
Qed.

(** X4.  [decodeBase64] skips every character outside the base64 alphabet,
    wherever it stands in the text (line breaks, blanks, [-] and [_]
    included), and whatever text it is given, with padding in odd places or
    a length that is no multiple of four, it yields integers between 0 and
    255 only; so does [base64UrlToArrayBuffer]. *)
Theorem decodeBase64_skips_and_bytes (text : string) :
  (forall before skipped after,
     text = before ++ skipped ++ after ->
     allChars (fun c => negb (isBase64Char c)) skipped = true ->
     decodeBase64 text = decodeBase64 (before ++ after))
  /\ Forall isByte (decodeBase64 text)
  /\ Forall isByte (base64UrlToArrayBuffer text).
Proof.
  split.
  - intros before skipped after -> Hskipped. unfold decodeBase64.
    rewrite !keepChars_append, (keepChars_none _ _ Hskipped). reflexivity.
  - split; [|unfold base64UrlToArrayBuffer]; unfold decodeBase64;
      apply (decodeQuads_bytes _ _ (le_n _)).
Qed.

Lemma decodeBase64_skips_and_bytes_witness :
  decodeBase64 "TWFu - TWE=" = decodeBase64 ("TWFu" ++ "TWE=").
Proof.
  refine (proj1 (decodeBase64_skips_and_bytes _) "TWFu" " - " "TWE=" eq_refl _).
  reflexivity.
Defined.

(* ===================================================================== *)
(** * Properties of the duration helpers                                  *)
(* ===================================================================== *)


















(* ===================================================================== *)
(** * Properties of the polling policy                                    *)
(* ===================================================================== *)






(* ===================================================================== *)
(** * The polling of the downloads screen                                 *)
(* ===================================================================== *)

Lemma shouldStopPolling_iff (error : option AppError) :
  shouldStopPolling error = true <-> isAuthError error.
Proof.
  unfold shouldStopPolling, isAuthError. destruct error as [e|].
  - rewrite orb_true_iff, !AppErrorCode_eqb_eq. split.
    + intros H. exists e. split; [reflexivity | exact H].
    + intros [e' [[= <-] H]]. exact H.
  - split; [discriminate | intros [e [[=] _]]].
Qed.

Lemma isRateLimited_iff (error : option AppError) :
  isRateLimited error = true <-> rateLimited error.
Proof.
  unfold isRateLimited, rateLimited. destruct error as [e|].
  - rewrite AppErrorCode_eqb_eq. split.
    + intros H. exists e. split; [reflexivity | exact H].
    + intros [e' [[= <-] H]]. exact H.
  - split; [discriminate | intros [e [[=] _]]].
Qed.

Lemma getJitteredIntervalMs_upper (random baseMs : Q) :
  (0 <= baseMs)%Q -> (0 <= random)%Q -> (random < 1)%Q ->
  (getJitteredIntervalMs random baseMs
   <= Math_max 1000 (inject_Z (Math_round ((12 # 10) * baseMs))))%Q.
Proof.
  intros HB H0 H1. unfold getJitteredIntervalMs.
  apply Math_max_le_compat, Math_round_le_compat.
  apply (jitter_factor_band baseMs random HB H0 H1).
Qed.

Lemma Math_max_right (a b : Q) : (b <= Math_max a b)%Q.
Proof.
  unfold Math_max. destruct (Qle_bool a b) eqn:E;
    [apply Qle_refl | apply Qle_bool_false_lt in E; lra].
Qed.

Lemma rateLimitInterval_hint (random : Q) (error : option AppError) (hint : Q) :
  isRateLimited error = true -> serverHint error = Some hint ->
  rateLimitInterval random error = Math_max 1000 hint.
Proof.
  unfold isRateLimited, serverHint, rateLimitInterval.
  destruct error as [e|]; [|discriminate]. intros ->. destruct e as [? ? ? ? ? ? []]; cbn.
  - intros [= ->]. reflexivity.
  - discriminate.
Qed.

Lemma rateLimitInterval_no_hint (random : Q) (error : option AppError) :
  isRateLimited error = true -> serverHint error = None ->
  rateLimitInterval random error = getJitteredIntervalMs random 60000.
Proof.
  unfold isRateLimited, serverHint, rateLimitInterval.
  destruct error as [e|]; [|discriminate]. intros ->. destruct e as [? ? ? ? ? ? []]; cbn.
  - discriminate.
  - reflexivity.
Qed.

Lemma serverHint_not_limited (error : option AppError) :
  isRateLimited error = false -> serverHint error = None.
Proof.
  unfold isRateLimited, serverHint. destruct error as [e|]; [|reflexivity].
  intros ->. reflexivity.
Qed.

(** What either query can schedule: nothing, the interval after a rate
    limit, or a jittered interval over one of the three base intervals. *)
Lemma refetchInterval_cases (random : Q) (canPoll : bool) (error : option AppError)
    (data : option DownloadStatusResponse) (work : bool) (ms : Q) :
  statusRefetchInterval random canPoll error data = Some ms
  \/ historyRefetchInterval random canPoll error work = Some ms ->
  (isRateLimited error = true /\ ms = rateLimitInterval random error)
  \/ (isRateLimited error = false
      /\ exists baseMs, In baseMs [2000; 5000; 30000]%Q
                        /\ ms = getJitteredIntervalMs random baseMs).
Proof.
  unfold statusRefetchInterval, historyRefetchInterval.
  destruct (negb canPoll); [intros [|]; discriminate|].
  destruct (shouldStopPolling error); [intros [|]; discriminate|].
  destruct (isRateLimited error).
  - intros [[= <-] | [= <-]]; left; split; reflexivity.
  - intros [Hs | Hh]; right; (split; [reflexivity|]).
    + destruct (_ || _); [|discriminate]. injection Hs as <-.
      exists 2000%Q. split; [left; reflexivity | reflexivity].
    + destruct work; injection Hh as <-.
      * exists 5000%Q. split; [right; left; reflexivity | reflexivity].
      * exists 30000%Q. split; [right; right; left; reflexivity | reflexivity].
Qed.

(** X7.  Whatever interval the status query or the history query schedules,
    it is at least one second.  After a rate limit whose error carries the
    retry hint of the server the interval is the larger of one second and that
    hint, so a poll never comes sooner than the server asked; in every other
    case the interval is at most 72 seconds. *)
Theorem refetchInterval_bounds (random : Q) (canPoll : bool) (error : option AppError)
    (data : option DownloadStatusResponse) (work : bool) (ms : Q) :
  (0 <= random)%Q -> (random < 1)%Q ->
  statusRefetchInterval random canPoll error data = Some ms
  \/ historyRefetchInterval random canPoll error work = Some ms ->
  (1000 <= ms)%Q
  /\ (forall hint, serverHint error = Some hint ->
        ms = Math_max 1000 hint /\ (hint <= ms)%Q)
  /\ (serverHint error = None -> (ms <= 72000)%Q).
Proof.
  intros H0 H1 Hms.
  destruct (refetchInterval_cases _ _ _ _ _ _ Hms)
    as [[Hlimited ->] | [Hlimited [baseMs [Hbase ->]]]].
  - destruct (serverHint error) as [hint|] eqn:Hhint.
    + rewrite (rateLimitInterval_hint random error hint Hlimited Hhint).
      split; [apply Math_max_floor|]. split; [|discriminate].
      intros ? [= <-]. split; [reflexivity | apply Math_max_right].
    + rewrite (rateLimitInterval_no_hint random error Hlimited Hhint).
      split; [apply Math_max_floor|]. split; [discriminate|]. intros _.
      eapply Qle_trans; [apply getJitteredIntervalMs_upper; [discriminate | exact H0 | exact H1]|].
      vm_compute. discriminate.
  - rewrite (serverHint_not_limited error Hlimited).
    split; [apply Math_max_floor|]. split; [discriminate|]. intros _.
    assert (0 <= baseMs /\ baseMs <= 30000)%Q as [Hlow Hhigh].
    { destruct Hbase as [<- | [<- | [<- | []]]]; split; discriminate. }
    eapply Qle_trans; [apply getJitteredIntervalMs_upper; [exact Hlow | exact H0 | exact H1]|].
    eapply Qle_trans; [apply Math_max_le_compat, Math_round_le_compat
                       with (y := ((12 # 10) * 30000)%Q); lra|].
    vm_compute. discriminate.
Qed.

Lemma refetchInterval_bounds_witness :
  (1000 <= 5000)%Q
  /\ (forall hint, Some 5000%Q = Some hint ->
        5000%Q = Math_max 1000 hint /\ (hint <= 5000)%Q)
  /\ (Some 5000%Q = None -> (5000 <= 72000)%Q).
Proof.
  refine (refetchInterval_bounds (1 # 2) true
            (Some {| code := RATE_LIMIT; httpStatus := Some 429%Q;
                     message := VStr "Too many requests";
                     backendType := VUndefined; recoverable := VUndefined;
                     Errors.waitTimeMs := None; retryAfterMs := Some 5000%Q;
                     raw := VUndefined |})
            None false 5000 _ _ _);
    [discriminate | reflexivity | left; reflexivity].
Defined.

Lemma lengthOrZero_positive (items : option (list value)) :
  Client.Qlt_bool 0 (lengthOrZero items)
  = Client.Qlt_bool 0
      (inject_Z (Z.of_nat (List.length (match items with Some xs => xs | None => [] end)))).
Proof. destruct items; reflexivity. Qed.

Lemma hasQueueWork_lengths (data : option DownloadStatusResponse) :
  hasQueueWork data
  = Client.Qlt_bool 0 (lengthOrZero (field data activeDownloads))
    || Client.Qlt_bool 0 (lengthOrZero (field data queuedDownloads)).
Proof. unfold hasQueueWork. rewrite !lengthOrZero_positive. reflexivity. Qed.

(** X8.  The history query schedules no refetch exactly when the screen may
    not poll or the last error is an authentication failure.  The status
    query schedules none exactly in those cases and when, not being rate
    limited, the status it holds shows no active and no queued download, that
    is when [hasQueueWork] is false. *)
Theorem refetchInterval_stops (random : Q) (canPoll : bool) (error : option AppError)
    (data : option DownloadStatusResponse) (work : bool) :
  (historyRefetchInterval random canPoll error work = None
   <-> canPoll = false \/ isAuthError error)
  /\ (statusRefetchInterval random canPoll error data = None
      <-> canPoll = false \/ isAuthError error
          \/ (~ rateLimited error /\ hasQueueWork data = false)).
Proof.
  unfold historyRefetchInterval, statusRefetchInterval.
  rewrite <- shouldStopPolling_iff, <- isRateLimited_iff, hasQueueWork_lengths.
  destruct canPoll; cbn [negb]; [|split; split; auto].
  destruct (shouldStopPolling error); [split; split; auto|].
  destruct (isRateLimited error).
  - split; split; try discriminate.
    + intros [|]; discriminate.
    + intros [| [| [H _]]]; try discriminate. exfalso. apply H. reflexivity.
  - split.
    + destruct work; split; try discriminate; intros [|]; discriminate.
    + destruct (_ || _); split; try discriminate.
      * intros [| [| [_ H]]]; discriminate.
      * intros _. right. right. split; [discriminate | reflexivity].
      * reflexivity.
Qed.

Lemma refetchInterval_stops_witness :
  historyRefetchInterval (1 # 2) true
    (Some (plainError FORBIDDEN (Some 403%Q) "Forbidden")) true = None.
Proof.
  apply (proj2 (proj1 (refetchInterval_stops (1 # 2) true
                         (Some (plainError FORBIDDEN (Some 403%Q) "Forbidden"))
                         None true))).
  right. exists (plainError FORBIDDEN (Some 403%Q) "Forbidden").
  split; [reflexivity | right; reflexivity].
Defined.

(** X9.  A failed poll is retried exactly when the screen may poll, the
    error is a transient one (its code is NETWORK or SERVER) and fewer than
    five attempts have failed; the tests for authentication failures and for
    the rate limit add nothing to the test for a transient error. *)
Theorem retry_transient_only (canPoll : bool) (failureCount : Q) (appError : AppError) :
  retry canPoll failureCount appError = true
  <-> canPoll = true /\ isTransient (code appError) /\ (failureCount < 5)%Q.
Proof.
  unfold retry, shouldStopPolling, shouldRetryPollingError, isTransient.
  rewrite <- (Qlt_bool_iff failureCount 5).
  destruct canPoll; cbn [negb]; [|split; [discriminate | intros [[=] _]]].
  destruct (code appError); cbn;
    (split;
     [intros H; try discriminate H; repeat split; auto
     | intros [_ [[Hc | Hc] H]]; try discriminate Hc; exact H]).
Qed.

Lemma retry_transient_only_witness :
  retry true 4 (plainError SERVER (Some 503%Q) "Unavailable") = true.
Proof.
  apply (proj2 (retry_transient_only true 4 (plainError SERVER (Some 503%Q) "Unavailable"))).
  split; [reflexivity|]. split; [right; reflexivity | reflexivity].
Defined.

(* ===================================================================== *)
(** * The errors the classifier produces                                  *)
(* ===================================================================== *)






Lemma mapStatusToCode_not_network (status : Q) : mapStatusToCode status <> NETWORK.
Proof.
  unfold mapStatusToCode.
  repeat match goal with
         | |- context [if ?b then _ else _] => destruct b
         end; discriminate.
Qed.

Lemma mapStatusToCode_server (status : Q) :
  mapStatusToCode status = SERVER <-> (500 <= status)%Q.
Proof.
  pose proof (mapStatusToCode_table status) as H. unfold codeForStatus in H.
  split.
  - intros E. rewrite E in H.
    destruct H as [[_ H]|[[_ H]|[[_ H]|[[_ H]|[[_ H]|[[_ H]|[[H _]|H]]]]]]];
      try discriminate H; [exact H|].
    destruct H as (_ & _ & _ & _ & _ & _ & _ & H). discriminate H.
  - intros Hs.
    destruct H as [[H E]|[[H E]|[[H E]|[[H E]|[[H E]|[[H E]|[[H E]|H]]]]]]];
      try (rewrite H in Hs; exfalso; revert Hs; discriminate || (intros Hs; lra));
      [exact E|].
    destruct H as (_ & _ & _ & _ & _ & _ & H & _). lra.
Qed.

(** The error of the network branch, and the parts of the other errors
    that the policies read. *)
Lemma parseApiError_shape (rt : Runtime) (wire : Q) (body : value)
    (networkMessage : option string) (retryAfter : value) :
  let e := parseApiError rt wire body networkMessage retryAfter in
  retryAfterMs e = parseRetryAfterMs rt retryAfter
  /\ ((code e = NETWORK /\ httpStatus e = None /\ raw e = VUndefined
       /\ exists m, networkMessage = Some m /\ m <> "" /\ message e = VStr m)
      \/ (exists s, httpStatus e = Some s /\ code e = mapStatusToCode s /\ raw e = body
                    /\ message e
                       = getMessage (nullish body (VObj []))
                           ("Request failed (" ++ Number_toString rt s ++ ")"))).
Proof.
  unfold parseApiError.
  destruct (isNullish body && _) eqn:Hnet.
  - split; [reflexivity|].
    left. apply networkFailure_test in Hnet as (_ & m & -> & Hm).
    cbn. repeat split; try reflexivity. exists m. auto.
  - split; [reflexivity|]. right. eexists. cbn. repeat split; reflexivity.
Qed.

Lemma getMessage_not_nullish (body : value) (fallback : string) :
  isNullish (getMessage body fallback) = false.
Proof.
  unfold getMessage, nullish.
  destruct (getProp body "error"), (getProp body "message"); reflexivity.
Qed.

(** X11.  Every error [parseApiError] produces either is the network
    failure, with code NETWORK, no [httpStatus] and no [raw] body, or carries
    an [httpStatus], the code the table gives for that status, never NETWORK,
    and the body as [raw].  So its code is NETWORK exactly when it has no
    status.  Its message is never [null] or [undefined], and its
    [retryAfterMs] is what [parseRetryAfterMs] reads from the header value,
    whichever of the two it is. *)
Theorem parseApiError_wellformed (rt : Runtime) (wire : Q) (body : value)
    (networkMessage : option string) (retryAfter : value) :
  let e := parseApiError rt wire body networkMessage retryAfter in
  (code e = NETWORK <-> httpStatus e = None)
  /\ (code e = NETWORK -> raw e = VUndefined)
  /\ (forall s, httpStatus e = Some s -> code e = mapStatusToCode s /\ raw e = body)
  /\ isNullish (message e) = false
  /\ retryAfterMs e = parseRetryAfterMs rt retryAfter.
Proof.
  pose proof (parseApiError_shape rt wire body networkMessage retryAfter) as Hshape.
  cbv zeta in *.
  generalize dependent (parseApiError rt wire body networkMessage retryAfter).
  intros e [Hafter [(Hc & Hs & Hr & m & _ & _ & Hm) | (s & Hs & Hc & Hr & Hm)]].
  - split; [tauto|]. split; [auto|]. split; [intros s E; congruence|].
    split; [rewrite Hm; reflexivity | exact Hafter].
  - assert (code e <> NETWORK) as Hn by (rewrite Hc; apply mapStatusToCode_not_network).
    split; [split; [contradiction | congruence]|].
    split; [contradiction|]. split; [intros s' E; split; congruence|].
    split; [rewrite Hm; apply getMessage_not_nullish | exact Hafter].
Qed.

Lemma parseApiError_wellformed_witness :
  raw (parseApiError testRuntime 0 VNull (Some "Network Error") VUndefined) = VUndefined.
Proof.
  apply (proj1 (proj2 (parseApiError_wellformed testRuntime 0 VNull
                         (Some "Network Error") VUndefined))).
  reflexivity.
Defined.

(** X12.  On every error [parseApiError] produces the retry policy of the
    transport, [shouldRetry], and the retry policy of the polling,
    [shouldRetryPollingError], agree: both hold exactly when the error is the
    network failure or its status is at least 500. *)
Theorem parseApiError_policies_agree (rt : Runtime) (wire : Q) (body : value)
    (networkMessage : option string) (retryAfter : value) :
  let e := parseApiError rt wire body networkMessage retryAfter in
  shouldRetry e = shouldRetryPollingError (Some e)
  /\ (shouldRetry e = true
      <-> httpStatus e = None \/ exists s, httpStatus e = Some s /\ (500 <= s)%Q).
Proof.
  pose proof (parseApiError_shape rt wire body networkMessage retryAfter) as Hshape.
  cbv zeta in *.
  generalize dependent (parseApiError rt wire body networkMessage retryAfter).
  intros e [_ Hshape].
  assert (shouldRetry e = true
          <-> httpStatus e = None \/ exists s, httpStatus e = Some s /\ (500 <= s)%Q)
    as Hretry.
  { rewrite shouldRetry_true_iff.
    destruct Hshape as [(Hc & Hs & _) | (s & Hs & Hc & _)].
    - tauto.
    - rewrite Hs, Hc. pose proof (mapStatusToCode_not_network s) as Hn.
      rewrite mapStatusToCode_server. split.
      + intros [E | (Hle & _)]; [contradiction|]. right. eauto.
      + intros [E | (s' & [= <-] & Hle)]; [discriminate|]. right. eauto. }
  split; [|exact Hretry].
  assert (shouldRetryPollingError (Some e) = true
          <-> httpStatus e = None \/ exists s, httpStatus e = Some s /\ (500 <= s)%Q)
    as Hpoll.
  { unfold shouldRetryPollingError. rewrite orb_true_iff, !AppErrorCode_eqb_eq.
    destruct Hshape as [(Hc & Hs & _) | (s & Hs & Hc & _)].
    - tauto.
    - rewrite Hs, Hc. pose proof (mapStatusToCode_not_network s) as Hn.
      rewrite mapStatusToCode_server. split.
      + intros [E | Hle]; [contradiction|]. right. eauto.
      + intros [E | (s' & [= <-] & Hle)]; [discriminate|]. right. exact Hle. }
  destruct (shouldRetry e), (shouldRetryPollingError (Some e)); try reflexivity.
  - symmetry. apply Hpoll, Hretry. reflexivity.
  - apply Hretry, Hpoll. reflexivity.
Qed.

Lemma parseApiError_policies_agree_witness :
  shouldRetry (parseApiError testRuntime 503 (VObj []) None VUndefined) = true.
Proof.
  apply (proj2 (proj2 (parseApiError_policies_agree testRuntime 503 (VObj []) None VUndefined))).
  right. exists 503%Q. split; [reflexivity | discriminate].
Defined.

(** The two policies differ on an error that was not produced by
    [parseApiError]: the code SERVER without a status is retried by the
    polling and not by the transport. *)
Lemma policies_differ_without_status :
  shouldRetry (plainError SERVER None "Server error") = false
  /\ shouldRetryPollingError (Some (plainError SERVER None "Server error")) = true.
Proof. split; reflexivity. Qed.

(* ===================================================================== *)
(** * The transport client: lost requests and the retry loop              *)
(* ===================================================================== *)

Lemma messageOrDefault_nonempty (error : AxiosError) : messageOrDefault error <> "".
Proof.
  unfold messageOrDefault. destruct (String.eqb_spec (errorMessage error) "").
  - discriminate.
  - assumption.
Qed.

Lemma parseApiError_network_iff (rt : Runtime) (wire : Q) (body : value)
    (networkMessage : option string) (retryAfter : value) :
  code (parseApiError rt wire body networkMessage retryAfter) = NETWORK
  <-> networkFailure body networkMessage.
Proof.
  rewrite networkFailure_test. unfold parseApiError.
  destruct (isNullish body && _); cbn.
  - tauto.
  - split; [|discriminate]. intros E. exfalso.
    exact (mapStatusToCode_not_network _ E).
Qed.

(** X13.  The interceptor classifies a failure as NETWORK exactly when the
    failure has no response, or when it has neither a request configuration
    nor a response body.  So a lost request, one without a response, is always
    a NETWORK error, whatever axios reports about it, and with a request
    configuration at hand it is retried exactly when its method is GET, HEAD
    or OPTIONS and fewer than two retries have been made. *)
Theorem classified_network_iff {H : Type} (rt : Runtime) (st : ClientState H)
    (error : AxiosError) :
  (code (classified rt error) = NETWORK
   <-> response error = None
       \/ (config error = None /\ isNullish (responseData error) = true))
  /\ (forall cfg, config error = Some cfg -> response error = None ->
        ((exists delayMs again, snd (onResponseError rt st error) = Retry delayMs again)
         <-> isReadMethod (method cfg) /\ (retryCountOf error < 2)%Q)).
Proof.
  assert (code (classified rt error) = NETWORK
          <-> response error = None
              \/ (config error = None /\ isNullish (responseData error) = true)) as Hnet.
  { unfold classified, appErrorOf, fallbackError, responseData.
    destruct (config error) as [cfg|]; rewrite parseApiError_network_iff;
      unfold networkFailure.
    - destruct (response error) as [r|].
      + split.
        * intros (_ & m & [=] & _).
        * intros [[=] | [[=] _]].
      + split; [auto|]. intros _. split; [reflexivity|].
        destruct (errorCode error) as [c|]; [destruct (String.eqb c "ECONNABORTED")|];
          eexists; (split; [reflexivity|]);
          discriminate || apply messageOrDefault_nonempty.
    - split.
      + intros (Hb & _). destruct (response error); auto.
      + intros Hor. split.
        * destruct (response error); [|reflexivity].
          destruct Hor as [[=] | [_ Hb]]. exact Hb.
        * eexists. split; [reflexivity | apply messageOrDefault_nonempty]. }
  split; [exact Hnet|].
  intros cfg Hcfg Hlost.
  assert (shouldRetry (appErrorOf rt error) = true) as Hretry.
  { apply shouldRetry_true_iff. left.
    assert (classified rt error = appErrorOf rt error) as <-
      by (unfold classified; rewrite Hcfg; reflexivity).
    apply Hnet. left. exact Hlost. }
  rewrite (onResponseError_with_config rt st error cfg Hcfg), Hretry, andb_true_r.
  destruct (Client.Qlt_bool (retryCountOf error) MAX_RETRIES) eqn:Hcount;
    destruct (isRetryableMethod (method cfg)) eqn:Hmethod; cbn.
  - apply Qlt_bool_iff in Hcount. apply isRetryableMethod_read in Hmethod.
    split; [auto | eauto].
  - split; [intros (d & again & [=])|]. intros [Hread _].
    apply isRetryableMethod_read in Hread. congruence.
  - split; [intros (d & again & [=])|]. intros [_ Hlt].
    apply Qlt_bool_iff in Hlt. unfold MAX_RETRIES in Hcount. congruence.
  - split; [intros (d & again & [=])|]. intros [Hread _].
    apply isRetryableMethod_read in Hread. congruence.
Qed.

Lemma classified_network_iff_witness :
  code (classified testRuntime (lostGet None)) = NETWORK.
Proof.
  apply (proj2 (proj1 (classified_network_iff testRuntime
                         {| onUnauthorized := @None nat; unauthorizedCalls := [] |}
                         (lostGet None)))).
  left. reflexivity.
Defined.

(** One send that fails, as the loop handles it. *)
Lemma request_fails {H : Type} (rt : Runtime) (rest : list Attempt)
    (cfg : RequestConfig) (st : ClientState H) (r : option Response)
    (c : option string) (m : string) :
  request rt (Fails r c m :: rest) cfg st
  = let error := failureOf cfg r c m in
    if Client.Qlt_bool (retryCountOf error) MAX_RETRIES
       && isRetryableMethod (method cfg) && shouldRetry (appErrorOf rt error)
    then
      match request rt rest
              {| method := method cfg; url := url cfg;
                 _retryCount := Some (retryCountOf error + 1)%Q |} st with
      | Some (st'', delays, settlement) =>
          Some (st'', (RETRY_DELAY_MS * (retryCountOf error + 1))%Q :: delays, settlement)
      | None => None
      end
    else Some (if shouldTriggerReauth (method cfg) (appErrorOf rt error)
               then callUnauthorized st else st,
               [], RejectedWith (appErrorOf rt error)).
Proof.
  cbn [request]. fold (failureOf cfg r c m).
  rewrite (onResponseError_with_config rt st (failureOf cfg r c m) cfg eq_refl).
  cbv zeta. destruct (_ && _ && _); reflexivity.
Qed.

(** The loop from a given retry count on: the delays still to come. *)
Lemma request_from {H : Type} (rt : Runtime) (network : list Attempt)
    (cfg : RequestConfig) (st st' : ClientState H) (delays : list Q)
    (settlement : Settlement) :
  request rt network cfg st = Some (st', delays, settlement) ->
  (st' = st \/ st' = callUnauthorized st)
  /\ (isRetryableMethod (method cfg) = false -> delays = [])
  /\ (_retryCount cfg = Some 2%Q -> delays = [])
  /\ (_retryCount cfg = Some 1%Q -> delays = [] \/ delays = [2000%Q])
  /\ (_retryCount cfg = None ->
      delays = [] \/ delays = [1000%Q] \/ delays = [1000%Q; 2000%Q]).
Proof.
  assert (forall network cfg (st st' : ClientState H) delays settlement,
             request rt network cfg st = Some (st', delays, settlement) ->
             (st' = st \/ st' = callUnauthorized st)
             /\ (isRetryableMethod (method cfg) = false -> delays = [])) as Hany.
  { clear. induction network as [|[r|r c m] rest IH]; intros cfg st st' delays settlement.
    - discriminate.
    - intros [= <- <- <-]. auto.
    - rewrite request_fails. cbv zeta.
      destruct (isRetryableMethod (method cfg)) eqn:Hm.
      + destruct (_ && _ && _).
        * destruct (request rt rest _ st) as [[[st'' ds] s]|] eqn:Hrest; [|discriminate].
          intros [= <- <- <-]. destruct (IH _ _ _ _ _ Hrest) as [Hst _].
          split; [exact Hst | discriminate].
        * destruct (shouldTriggerReauth _ _); intros [= <- <- <-]; auto.
      + rewrite andb_false_r. cbn [andb].
        destruct (shouldTriggerReauth _ _); intros [= <- <- <-]; auto. }
  assert (forall network cfg (st st' : ClientState H) delays settlement,
             request rt network cfg st = Some (st', delays, settlement) ->
             _retryCount cfg = Some 2%Q -> delays = []) as Htwo.
  { clear. intros [|[r|r c m] rest] cfg st st' delays settlement.
    - discriminate.
    - intros [= <- <- <-]. reflexivity.
    - rewrite request_fails. cbv zeta. unfold retryCountOf, failureOf. cbn [config].
      intros Hreq Hcount. rewrite Hcount in Hreq.
      change (Client.Qlt_bool 2 MAX_RETRIES) with false in Hreq. cbn [andb] in Hreq.
      injection Hreq as _ <- _. reflexivity. }
  assert (forall network cfg (st st' : ClientState H) delays settlement,
             request rt network cfg st = Some (st', delays, settlement) ->
             _retryCount cfg = Some 1%Q -> delays = [] \/ delays = [2000%Q]) as Hone.
  { clear - Htwo. intros [|[r|r c m] rest] cfg st st' delays settlement.
    - discriminate.
    - intros [= <- <- <-]. auto.
    - rewrite request_fails. cbv zeta. unfold retryCountOf, failureOf. cbn [config].
      intros Hreq Hcount. rewrite Hcount in Hreq.
      destruct (_ && _ && _).
      + destruct (request rt rest _ st) as [[[st'' ds] s]|] eqn:Hrest; [|discriminate].
        injection Hreq as _ <- _. rewrite (Htwo _ _ _ _ _ _ Hrest eq_refl).
        right. reflexivity.
      + injection Hreq as _ <- _. auto. }
  intros Hreq. destruct (Hany _ _ _ _ _ _ Hreq) as [Hst Hwrite].
  split; [exact Hst|]. split; [exact Hwrite|].
  split; [exact (Htwo _ _ _ _ _ _ Hreq)|]. split; [exact (Hone _ _ _ _ _ _ Hreq)|].
  clear Hst Hwrite. revert Hreq.
  destruct network as [|[r|r c m] rest].
  - discriminate.
  - intros [= <- <- <-]. auto.
  - rewrite request_fails. cbv zeta. unfold retryCountOf, failureOf. cbn [config].
    intros Hreq Hcount. rewrite Hcount in Hreq.
    destruct (_ && _ && _).
    + destruct (request rt rest _ st) as [[[st'' ds] s]|] eqn:Hrest; [|discriminate].
      injection Hreq as _ <- _.
      destruct (Hone _ _ _ _ _ _ Hrest eq_refl) as [-> | ->].
      * right. left. reflexivity.
      * right. right. reflexivity.
    + injection Hreq as _ <- _. auto.
Qed.

(** The loop settles once the network has met it often enough. *)
Lemma request_settles {H : Type} (rt : Runtime) (network : list Attempt)
    (cfg : RequestConfig) (st : ClientState H) :
  (_retryCount cfg = Some 2%Q -> (1 <= List.length network)%nat ->
   request rt network cfg st <> None)
  /\ (_retryCount cfg = Some 1%Q -> (2 <= List.length network)%nat ->
      request rt network cfg st <> None)
  /\ (_retryCount cfg = None -> (3 <= List.length network)%nat ->
      request rt network cfg st <> None).
Proof.
  assert (forall network cfg (st : ClientState H),
             _retryCount cfg = Some 2%Q -> (1 <= List.length network)%nat ->
             request rt network cfg st <> None) as Htwo.
  { clear. intros [|[r|r c m] rest] cfg st Hcount Hlen.
    - cbn in Hlen. lia.
    - discriminate.
    - rewrite request_fails. cbv zeta. unfold retryCountOf, failureOf. cbn [config].
      rewrite Hcount. change (Client.Qlt_bool 2 MAX_RETRIES) with false. discriminate. }
  assert (forall network cfg (st : ClientState H),
             _retryCount cfg = Some 1%Q -> (2 <= List.length network)%nat ->
             request rt network cfg st <> None) as Hone.
  { clear - Htwo. intros [|[r|r c m] rest] cfg st Hcount Hlen.
    - cbn in Hlen. lia.
    - discriminate.
    - rewrite request_fails. cbv zeta. unfold retryCountOf, failureOf. cbn [config].
      rewrite Hcount. destruct (_ && _ && _); [|discriminate].
      destruct (request rt rest _ st) as [[[st'' ds] s]|] eqn:Hrest; [discriminate|].
      exfalso. revert Hrest. apply Htwo; [reflexivity|]. cbn in Hlen. lia. }
  split; [apply Htwo|]. split; [apply Hone|].
  destruct network as [|[r|r c m] rest]; intros Hcount Hlen.
  - cbn in Hlen. lia.
  - discriminate.
  - rewrite request_fails. cbv zeta. unfold retryCountOf, failureOf. cbn [config].
    rewrite Hcount. destruct (_ && _ && _); [|discriminate].
    destruct (request rt rest _ st) as [[[st'' ds] s]|] eqn:Hrest; [discriminate|].
    exfalso. revert Hrest. apply Hone; [reflexivity|]. cbn in Hlen. lia.
Qed.

(** X14.  A request sent without a retry count settles after at most three
    sends, whatever the network does: the interceptor retries it at most
    twice, waiting 1000 ms and then 2000 ms, so at most 3000 ms in all.  A
    request whose method is not GET, HEAD or OPTIONS is never sent again.  The
    handler for authentication failures is called at most once per request. *)
Theorem request_bounded {H : Type} (rt : Runtime) (network : list Attempt)
    (cfg : RequestConfig) (st : ClientState H) :
  freshRequest cfg ->
  ((3 <= List.length network)%nat ->
   exists st' delays settlement,
     request rt network cfg st = Some (st', delays, settlement))
  /\ forall st' delays settlement,
       request rt network cfg st = Some (st', delays, settlement) ->
       (delays = [] \/ delays = [1000%Q] \/ delays = [1000%Q; 2000%Q])
       /\ (~ isReadMethod (method cfg) -> delays = [])
       /\ (st' = st \/ st' = callUnauthorized st).
Proof.
  intros Hfresh. split.
  - intros Hlen.
    destruct (request rt network cfg st) as [[[st' delays] settlement]|] eqn:Hreq.
    + eauto.
    + exfalso. revert Hreq.
      apply (proj2 (proj2 (request_settles rt network cfg st)) Hfresh Hlen).
  - intros st' delays settlement Hreq.
    destruct (request_from rt network cfg st st' delays settlement Hreq)
      as (Hst & Hwrite & _ & _ & Hdelays).
    split; [exact (Hdelays Hfresh)|]. split; [|exact Hst].
    intros Hnot. apply Hwrite.
    destruct (isRetryableMethod (method cfg)) eqn:Hm; [|reflexivity].
    exfalso. apply Hnot, isRetryableMethod_read, Hm.
Qed.

Lemma request_bounded_witness :
  exists st' delays settlement,
    request testRuntime [Fails None None "Network Error"; Fails None None "Network Error";
                         Fails None None "Network Error"]
      {| method := Some "get"; url := "/videos"; _retryCount := None |}
      {| onUnauthorized := @None nat; unauthorizedCalls := [] |}
    = Some (st', delays, settlement).
Proof.
  apply (proj1 (request_bounded testRuntime
                  [Fails None None "Network Error"; Fails None None "Network Error";
                   Fails None None "Network Error"]
                  {| method := Some "get"; url := "/videos"; _retryCount := None |}
                  {| onUnauthorized := @None nat; unauthorizedCalls := [] |}
                  eq_refl)).
  cbn. lia.
Defined.

(* ===================================================================== *)
(** * The session: sign-out on authentication failures, logins, roles     *)
(* ===================================================================== *)

Lemma unauthorizedHandler_signs_out (w : Session) :
  signedOut (unauthorizedHandler w)
  /\ loginRequired (state (unauthorizedHandler w)) = loginRequired (state w)
  /\ error (state (unauthorizedHandler w)) = error (state w).
Proof.
  unfold signedOut, unauthorizedHandler. cbn. repeat split.
  destruct (storage w) as [text [|]]; reflexivity.
Qed.

(** X15.  With the handler of the session provider registered, a failed
    request signs the session out exactly when its error requires
    reauthentication (UNAUTHENTICATED, or FORBIDDEN on GET, HEAD or OPTIONS):
    the role and the stored role are cleared and the session is marked
    invalid, while the login requirement and the error shown are kept.  Any
    other failure, and every failure that is retried, leaves the session as
    it was. *)
Theorem reauth_signs_out (rt : Runtime) (st0 : ClientState (Session -> Session))
    (error : AxiosError) (w : Session) :
  unauthorizedCalls st0 = [] ->
  let st := setUnauthorizedHandler unauthorizedHandler st0 in
  let w' := runCalls (unauthorizedCalls (fst (onResponseError rt st error))) w in
  (reauthRequired (requestMethod error) (classified rt error) ->
   signedOut w'
   /\ loginRequired (state w') = loginRequired (state w)
   /\ AuthContext.error (state w') = AuthContext.error (state w))
  /\ (~ reauthRequired (requestMethod error) (classified rt error) -> w' = w)
  /\ ((exists delayMs again, snd (onResponseError rt st error) = Retry delayMs again) ->
      w' = w).
Proof.
  intros Hnone st w'.
  destruct (onResponseError_calls rt st error) as [Hyes Hno].
  assert (~ reauthRequired (requestMethod error) (classified rt error) -> w' = w) as Hkeep.
  { intros Hn. unfold w'. rewrite (Hno Hn). cbn. rewrite Hnone. reflexivity. }
  split; [|split; [exact Hkeep|]].
  - intros Hre. unfold w'. rewrite (Hyes Hre). cbn. rewrite Hnone. cbn.
    apply unauthorizedHandler_signs_out.
  - intros (d & again & Hretry). apply Hkeep. intros Hre.
    destruct (config error) as [cfg|] eqn:Hcfg.
    + rewrite (onResponseError_with_config rt st error cfg Hcfg) in Hretry.
      destruct (_ && _ && _) eqn:Htest; [|discriminate Hretry].
      apply andb_prop in Htest as [_ Hshould].
      apply (retried_is_not_auth_failure (requestMethod error) _ Hshould).
      unfold classified in Hre. rewrite Hcfg in Hre. exact Hre.
    + unfold onResponseError in Hretry. rewrite Hcfg in Hretry. discriminate Hretry.
Qed.

Lemma reauth_signs_out_witness :
  signedOut
    (runCalls
       (unauthorizedCalls
          (fst (onResponseError testRuntime
                  (setUnauthorizedHandler unauthorizedHandler
                     {| onUnauthorized := None; unauthorizedCalls := [] |})
                  (answered "POST" 401))))
       (initialSession {| slot := Some "admin"; working := true |})).
Proof.
  refine (proj1 (proj1 (reauth_signs_out testRuntime
                          {| onUnauthorized := None; unauthorizedCalls := [] |}
                          (answered "POST" 401)
                          (initialSession {| slot := Some "admin"; working := true |})
                          eq_refl) _)).
  left. reflexivity.
Defined.

(** X16.  Each of [loginAsAdmin], [loginAsVisitor] and [loginWithPasskey]
    resolves to [true] exactly when the server answers with a success.  The
    session then has the role the answer grants, whichever login was used, is
    valid and shows no error, and that role is written to the storage.  When
    the login resolves to [false] the role and the stored role stay as they
    were, the session is marked invalid and an error is shown whose wait time
    is copied to the state; for a failure answer its code is RATE_LIMIT when
    the answer carries the status code 429 and UNAUTHENTICATED otherwise, and
    for a rejected call it is the error the call was rejected with. *)
Theorem login_outcome (login : Awaited LoginResponse -> Session -> Session * bool)
    (verify : Awaited LoginResponse) (w : Session) :
  In login logins ->
  (snd (login verify w) = true
   <-> exists granted, verify = Resolved (LoginSucceeded granted))
  /\ (forall granted, verify = Resolved (LoginSucceeded granted) ->
        role (state (fst (login verify w))) = Some granted
        /\ hasValidSession (state (fst (login verify w))) = true
        /\ error (state (fst (login verify w))) = None
        /\ storage (fst (login verify w)) = safeSetStoredRole (Some granted) (storage w))
  /\ (snd (login verify w) = false ->
        role (state (fst (login verify w))) = role (state w)
        /\ storage (fst (login verify w)) = storage w
        /\ hasValidSession (state (fst (login verify w))) = false
        /\ exists e, error (state (fst (login verify w))) = Some e
                     /\ AuthContext.waitTimeMs (state (fst (login verify w)))
                        = Errors.waitTimeMs e
                     /\ (forall fail, verify = Resolved (LoginFailed fail) ->
                           (code e = RATE_LIMIT
                            <-> exists sc, lf_statusCode fail = Some sc /\ (sc == 429)%Q)
                           /\ (code e = RATE_LIMIT \/ code e = UNAUTHENTICATED))
                     /\ (forall err, verify = Rejected err -> e = err)).
Proof.
  intros Hlogin.
  assert (exists fallback, login = loginWith fallback) as [fallback ->]
    by (destruct Hlogin as [<- | [<- | [<- | []]]]; eexists; reflexivity).
  destruct verify as [[granted | fail] | err]; cbn.
  - split; [split; [eauto | reflexivity]|].
    split; [intros g [= <-]; auto | discriminate].
  - split; [split; [discriminate | intros [g [=]]]|].
    split; [intros g [=]|]. intros _. repeat split.
    eexists. split; [reflexivity|]. split; [reflexivity|]. split; [|intros err [=]].
    intros fail' [= <-]. cbn. unfold loginFailureErrorCode.
    destruct (lf_statusCode fail) as [sc|].
    + destruct (Qeq_bool sc 429) eqn:E.
      * apply Qeq_bool_iff in E. split; [|auto]. split; [eauto | reflexivity].
      * apply Qeq_bool_false_neq in E. split; [|auto].
        split; [discriminate | intros (sc' & [= <-] & E'); contradiction].
    + split; [|auto]. split; [discriminate | intros (sc & [=] & _)].
  - split; [split; [discriminate | intros [g [=]]]|].
    split; [intros g [=]|]. intros _. repeat split.
    eexists. split; [reflexivity|]. split; [reflexivity|].
    split; [intros fail [=] | intros err' [= <-]; reflexivity].
Qed.

Lemma login_outcome_witness :
  role (state (fst (loginAsVisitor (Resolved (LoginSucceeded admin))
                      (initialSession {| slot := None; working := true |}))))
  = Some admin.
Proof.
  refine (proj1 (proj1 (proj2 (login_outcome loginAsVisitor
                                 (Resolved (LoginSucceeded admin))
                                 (initialSession {| slot := None; working := true |}) _))
                   admin eq_refl)).
  right. left. reflexivity.
Defined.


Lemma roleOfText_textOfRole (r : RoleName) : roleOfText (Some (textOfRole r)) = Some r.
Proof. destruct r; reflexivity. Qed.





(* ===================================================================== *)
(** * The role gate                                                       *)
(* ===================================================================== *)

Lemma has_visitor_key (key : string) :
  has VISITOR_SETTINGS_EDITABLE_KEYS key = true <-> visitorEditable key.
Proof.
  unfold has, VISITOR_SETTINGS_EDITABLE_KEYS, visitorEditable.
  rewrite bool_decide_eq_true, elem_of_union, !elem_of_singleton. tauto.
Qed.

(** X18.  Whoever may mutate may write every settings key, and whoever may
    write settings either may mutate or is a visitor.  A visitor never may
    mutate, with or without required login, and may write a set of settings
    keys exactly when each key is one of the two tunnel keys.  Switching the
    login requirement off never takes a right away; without a role one may
    mutate exactly when login is not required. *)
Theorem roleGate_policy (role : Role) (keys : list string) (loginRequired : bool) :
  (canMutate role loginRequired = true -> canEditSettings role keys loginRequired = true)
  /\ (canEditSettings role keys loginRequired = true ->
      canMutate role loginRequired = true \/ role = Some visitor)
  /\ canMutate (Some visitor) loginRequired = false
  /\ (canEditSettings (Some visitor) keys loginRequired = true
      <-> Forall visitorEditable keys)
  /\ (canMutate role true = true -> canMutate role false = true)
  /\ (canEditSettings role keys true = true -> canEditSettings role keys false = true)
  /\ (canMutate None loginRequired = negb loginRequired).
Proof.
  assert (forallb (has VISITOR_SETTINGS_EDITABLE_KEYS) keys = true
          <-> Forall visitorEditable keys) as Hkeys.
  { rewrite forallb_forall, List.Forall_forall. split; intros Hall key Hin.
    - apply has_visitor_key, Hall, Hin.
    - apply has_visitor_key, Hall, Hin. }
  repeat split.
  - destruct role as [[|]|], loginRequired; cbn; auto; discriminate.
  - destruct role as [[|]|], loginRequired; cbn; auto; discriminate.
  - destruct loginRequired; reflexivity.
  - destruct loginRequired; cbn; apply Hkeys.
  - destruct loginRequired; cbn; apply Hkeys.
  - destruct role as [[|]|]; cbn; auto.
  - destruct role as [[|]|]; cbn; auto.
  - destruct loginRequired; reflexivity.
Qed.

Lemma roleGate_policy_witness :
  canEditSettings (Some visitor) ["cloudflaredToken"] true = true.
Proof.
  apply (proj2 (proj1 (proj2 (proj2 (proj2
           (roleGate_policy (Some visitor) ["cloudflaredToken"] true)))))).
  constructor; [right; reflexivity | constructor].
Defined.

(** X19.  What the startup probe leaves for [useCanMutate].  When it ends
    with login required, mutation is allowed exactly for the role admin, and
    never while the session is not valid, where the role is [null].  When the
    password probe answered and it ends with login not required, the role is
    [null] and mutation is allowed.  Only when the password probe failed can
    it end with login not required and the role visitor, read from the
    settings, and then mutation is not allowed. *)
Theorem startup_mutation_rights (passwordEnabledResult : Awaited PasswordEnabledResponse)
    (settingsResult : Awaited value) (w : Session) :
  let s := state (refreshAuthConfig passwordEnabledResult settingsResult w) in
  (loginRequired s = true -> (useCanMutate s = true <-> role s = Some admin))
  /\ (loginRequired s = true -> hasValidSession s = false ->
      role s = None /\ useCanMutate s = false)
  /\ (loginRequired s = false ->
      (forall pe, passwordEnabledResult = Resolved pe -> role s = None)
      /\ (useCanMutate s = false <-> role s = Some visitor))
  /\ (role s = Some visitor -> loginRequired s = false ->
      exists err settings,
        passwordEnabledResult = Rejected err /\ settingsResult = Resolved settings
        /\ getRoleFromSettings settings = Some visitor).
Proof.
  intros s.
  assert (forall r lr, lr = true -> (canMutate r lr = true <-> r = Some admin)) as Hreq.
  { intros [[|]|] lr ->; cbn; split; congruence. }
  assert (forall r lr, lr = false -> (canMutate r lr = false <-> r = Some visitor)) as Hopen.
  { intros [[|]|] lr ->; cbn; split; congruence. }
  split; [intros Hlr; apply Hreq, Hlr|].
  split; [|split].
  - intros Hlr Hvalid.
    assert (role s = None) as Hrole.
    { revert Hlr Hvalid. unfold s, refreshAuthConfig.
      destruct passwordEnabledResult as [pe | err].
      - destruct (match pe_loginRequired pe with
                  | Some b => b
                  | None => match pe_enabled pe with Some b => b | None => false end
                  end).
        + destruct settingsResult as [settings | probeErr]; cbn.
          * discriminate 2.
          * destruct (isAuthFailure probeErr); cbn; [reflexivity | discriminate 1].
        + cbn. discriminate 1.
      - destruct settingsResult as [settings | probeErr]; cbn.
        + discriminate 1.
        + destruct (isAuthFailure probeErr); cbn; [reflexivity | discriminate 1]. }
    split; [exact Hrole|]. unfold useCanMutate. rewrite Hrole, Hlr. reflexivity.
  - intros Hlr. split; [|apply Hopen, Hlr].
    intros pe ->. revert Hlr.
    destruct (refreshAuthConfig_role_resolved pe settingsResult w) as (probeRole & Hrole & _).
    fold s in Hrole. rewrite Hrole. intros ->. reflexivity.
  - intros Hrole Hlr. revert Hrole Hlr. unfold s.
    destruct passwordEnabledResult as [pe | err].
    + destruct (refreshAuthConfig_role_resolved pe settingsResult w)
        as (probeRole & Hrole & _).
      rewrite Hrole. intros Hv Hlr. rewrite Hlr in Hv. discriminate Hv.
    + destruct (refreshAuthConfig_fallback_role err settingsResult w) as [Hrole _].
      rewrite Hrole. destruct settingsResult as [settings | probeErr]; [|discriminate].
      intros Hv _. exists err, settings. auto.
Qed.

Lemma startup_mutation_rights_witness :
  role (state (refreshAuthConfig
                 (Resolved {| pe_loginRequired := Some true; pe_enabled := Some true |})
                 (Rejected (plainError UNAUTHENTICATED (Some 401%Q) "Unauthorized"))
                 (initialSession {| slot := Some "admin"; working := true |})))
  = None
  /\ useCanMutate
       (state (refreshAuthConfig
                 (Resolved {| pe_loginRequired := Some true; pe_enabled := Some true |})
                 (Rejected (plainError UNAUTHENTICATED (Some 401%Q) "Unauthorized"))
                 (initialSession {| slot := Some "admin"; working := true |})))
     = false.
Proof.
  apply (proj1 (proj2 (startup_mutation_rights
                         (Resolved {| pe_loginRequired := Some true; pe_enabled := Some true |})
                         (Rejected (plainError UNAUTHENTICATED (Some 401%Q) "Unauthorized"))
                         (initialSession {| slot := Some "admin"; working := true |}))));
    reflexivity.
Defined.

(* ===================================================================== *)
(** * The in-flight ledger over whole runs                                *)
(* ===================================================================== *)

Section LedgerRuns.

Context {F R : Type}.
Local Open Scope list_scope.
Implicit Types (st : Ledger F R) (h : nat) (k key : string).

Lemma consistent_entries st :
  consistent st ->
  (inFlightRequests st = ∅ <-> allCleanedUp st)
  /\ forall k,
       (exists h, inFlightRequests st !! k = Some h)
       <-> exists h p, requests st !! h = Some {| reqKey := k; reqPhase := p |}
                       /\ cleanedUp p = false.
Proof.
  intros [Hreg Hlive]. split.
  - unfold allCleanedUp. split.
    + intros Hempty h [k p] Hh. cbn. destruct (cleanedUp p) eqn:Hc; [reflexivity|].
      pose proof (Hlive h k p Hh Hc) as Hk. rewrite Hempty, lookup_empty in Hk.
      discriminate Hk.
    + intros Hall. apply map_empty. intros k.
      destruct (inFlightRequests st !! k) as [h|] eqn:Hk; [|reflexivity].
      destruct (Hreg k h Hk) as (p & Hp & Hc).
      apply Hall in Hp. cbn in Hp. congruence.
  - intros k. split.
    + intros [h Hk]. destruct (Hreg k h Hk) as (p & Hp & Hc). eauto.
    + intros (h & p & Hp & Hc). exists h. exact (Hlive h k p Hp Hc).
Qed.






Lemma run_app (evs evs' : list (Event F R)) st :
  run (evs ++ evs') st
  = match run evs st with Some st1 => run evs' st1 | None => None end.
Proof.
  revert st. induction evs as [|ev evs IH]; intros st; cbn; [reflexivity|].
  destruct (step ev st); [apply IH | reflexivity].
Qed.

(** One job on the request [h]: the request moves to the next phase, the
    other requests stay as they are. *)
Lemma job_moves st st1 h k (p p' : Phase F R) :
  requests st !! h = Some {| reqKey := k; reqPhase := p |} ->
  requests st1
  = alter (fun r => {| reqKey := reqKey r; reqPhase := p' |}) h (requests st) ->
  requests st1 !! h = Some {| reqKey := k; reqPhase := p' |}
  /\ (forall h', h' <> h -> requests st1 !! h' = requests st !! h')
  /\ List.length (requests st1) = List.length (requests st).
Proof.
  intros Hh ->. split; [|split].
  - rewrite list_lookup_alter_eq, Hh. reflexivity.
  - intros h' Hne. apply list_lookup_alter_ne. congruence.
  - apply length_alter.
Qed.

Lemma finish_one (outcome : R) st h k (p : Phase F R) :
  consistent st ->
  requests st !! h = Some {| reqKey := k; reqPhase := p |} ->
  exists st',
    run (finish outcome h p) st = Some st'
    /\ consistent st'
    /\ (exists o, requests st' !! h = Some {| reqKey := k; reqPhase := Settled o true |})
    /\ (forall h', h' <> h -> requests st' !! h' = requests st !! h')
    /\ List.length (requests st') = List.length (requests st).
Proof.
  assert (forall st o, consistent st ->
            requests st !! h = Some {| reqKey := k; reqPhase := Settled o false |} ->
            exists st', run [RunFinally h] st = Some st' /\ consistent st'
              /\ (exists o', requests st' !! h
                             = Some {| reqKey := k; reqPhase := Settled o' true |})
              /\ (forall h', h' <> h -> requests st' !! h' = requests st !! h')
              /\ List.length (requests st') = List.length (requests st)) as Hfinally.
  { clear. intros st o Hinv Hh.
    destruct (runFinally_guarded st h k o Hh) as (st' & Hrun & _).
    exists st'. cbn. rewrite Hrun. split; [reflexivity|].
    split; [exact (consistent_step st st' (RunFinally h) Hinv Hrun)|].
    assert (requests st'
            = alter (fun r => {| reqKey := reqKey r; reqPhase := Settled o true |}) h
                (requests st)) as Hreq.
    { unfold runFinally in Hrun. rewrite Hh in Hrun.
      destruct (decide (inFlightRequests st !! k = Some h));
        injection Hrun as <-; reflexivity. }
    destruct (job_moves st st' h k _ _ Hh Hreq) as (H1 & H2 & H3). eauto. }
  assert (forall st f, consistent st ->
            requests st !! h = Some {| reqKey := k; reqPhase := Running f |} ->
            exists st', run [Settle h outcome; RunFinally h] st = Some st' /\ consistent st'
              /\ (exists o', requests st' !! h
                             = Some {| reqKey := k; reqPhase := Settled o' true |})
              /\ (forall h', h' <> h -> requests st' !! h' = requests st !! h')
              /\ List.length (requests st') = List.length (requests st)) as Hsettle.
  { clear - Hfinally. intros st f Hinv Hh.
    assert (settle h outcome st = Some (setPhase h (Settled outcome false) st)) as Hstep
      by (unfold settle; rewrite Hh; reflexivity).
    destruct (job_moves st (setPhase h (Settled outcome false) st) h k _
                (Settled outcome false) Hh eq_refl) as (H1 & H2 & H3).
    destruct (Hfinally _ outcome (consistent_step st _ (Settle h outcome) Hinv Hstep) H1)
      as (st' & Hrun & Hinv' & Hdone & Hothers & Hlen).
    exists st'. change (run [Settle h outcome; RunFinally h] st)
      with (match settle h outcome st with
            | Some st1 => run [RunFinally h] st1 | None => None end).
    rewrite Hstep. split; [exact Hrun|]. split; [exact Hinv'|]. split; [exact Hdone|].
    split; [|congruence]. intros h' Hne. rewrite (Hothers h' Hne). apply H2, Hne. }
  intros Hinv Hh. destruct p as [f | f | o [|]]; cbn [finish].
  - assert (exists st1, runFactory h st = Some st1
                        /\ requests st1
                           = alter (fun r => {| reqKey := reqKey r; reqPhase := Running f |})
                               h (requests st)) as (st1 & Hstep & Hreq).
    { unfold runFactory. rewrite Hh. eexists. split; reflexivity. }
    destruct (job_moves st st1 h k _ _ Hh Hreq) as (H1 & H2 & H3).
    destruct (Hsettle st1 f (consistent_step st st1 (RunFactory h) Hinv Hstep) H1)
      as (st' & Hrun & Hinv' & Hdone & Hothers & Hlen).
    exists st'. change (run [RunFactory h; Settle h outcome; RunFinally h] st)
      with (match runFactory h st with
            | Some st1 => run [Settle h outcome; RunFinally h] st1 | None => None end).
    rewrite Hstep. split; [exact Hrun|]. split; [exact Hinv'|]. split; [exact Hdone|].
    split; [|congruence]. intros h' Hne. rewrite (Hothers h' Hne). apply H2, Hne.
  - apply (Hsettle st f Hinv Hh).
  - exists st. cbn. split; [reflexivity|]. split; [exact Hinv|]. eauto.
  - apply (Hfinally st o Hinv Hh).
Qed.

(** The requests below [n] completed, the others untouched. *)
Lemma drain_below (outcome : R) (n : nat) st :
  consistent st -> (n <= List.length (requests st))%nat ->
  exists evs st',
    run evs st = Some st'
    /\ consistent st'
    /\ List.length (requests st') = List.length (requests st)
    /\ (forall h r, (h < n)%nat -> requests st' !! h = Some r ->
          cleanedUp (reqPhase r) = true)
    /\ (forall h, (n <= h)%nat -> requests st' !! h = requests st !! h).
Proof.
  intros Hinv. induction n as [|n IH]; intros Hn.
  - exists [], st. split; [reflexivity|]. split; [exact Hinv|]. split; [reflexivity|].
    split; [intros h r Hlt; lia | reflexivity].
  - destruct IH as (evs & st1 & Hrun & Hinv1 & Hlen1 & Hdone & Hrest); [lia|].
    destruct (lookup_lt_is_Some_2 (requests st1) n) as [[k p] Hp]; [lia|].
    destruct (finish_one outcome st1 n k p Hinv1 Hp)
      as (st' & Hrun' & Hinv' & (o & Ho) & Hothers & Hlen').
    exists (evs ++ finish outcome n p), st'.
    rewrite run_app, Hrun. split; [exact Hrun'|]. split; [exact Hinv'|].
    split; [congruence|]. split.
    + intros h r Hlt Hr. destruct (decide (h = n)) as [->|Hne].
      * rewrite Ho in Hr. injection Hr as <-. reflexivity.
      * rewrite (Hothers h Hne) in Hr. apply (Hdone h r); [lia | exact Hr].
    + intros h Hle. rewrite (Hothers h) by lia. apply Hrest. lia.
Qed.

(** X22.  No request can block the ledger: from every ledger reached from
    the empty one, letting each outstanding request run its remaining jobs,
    its operation settling one way or the other, is always possible and ends
    in a ledger without entries; no request is added on the way. *)
Theorem ledger_can_drain (outcome : R) st :
  reachable st ->
  exists evs st',
    run evs st = Some st'
    /\ __getInFlightRequestCount st' = 0%nat
    /\ allCleanedUp st'
    /\ List.length (requests st') = List.length (requests st).
Proof.
  intros Hreach.
  destruct (drain_below outcome (List.length (requests st)) st
              (reachable_consistent st Hreach) (le_n _))
    as (evs & st' & Hrun & Hinv' & Hlen & Hdone & _).
  exists evs, st'. split; [exact Hrun|].
  assert (allCleanedUp st') as Hall.
  { intros h r Hr. apply (Hdone h r); [|exact Hr].
    apply lookup_lt_Some in Hr. lia. }
  split; [|split; [exact Hall | exact Hlen]].
  unfold __getInFlightRequestCount. apply map_size_empty_iff.
  apply (consistent_entries st' Hinv'), Hall.
Qed.

End LedgerRuns.



Lemma ledger_can_drain_witness :
  exists evs st',
    run evs (snd (withInFlightKey "POST /videos" "first" (@emptyLedger string nat)))
    = Some st'
    /\ __getInFlightRequestCount st' = 0%nat
    /\ allCleanedUp st'
    /\ List.length (requests st') = 1%nat.
Proof.
  apply (@ledger_can_drain string nat 0%nat
           (snd (withInFlightKey "POST /videos" "first" emptyLedger))
           (ex_intro _ [Call "POST /videos" "first"] eq_refl)).
Defined.

(* ===================================================================== *)
(** * In-flight keys tell requests apart                                  *)
(* ===================================================================== *)

Lemma upperChar_space (c : ascii) : notSpace (upperChar c) = notSpace c.
Proof. destruct c as [[] [] [] [] [] [] [] []]; reflexivity. Qed.

Lemma toUpperCase_token (s : string) :
  allChars notSpace (toUpperCase s) = allChars notSpace s.
Proof.
  induction s as [|c rest IH]; [reflexivity|].
  cbn [toUpperCase allChars]. rewrite upperChar_space, IH. reflexivity.
Qed.

Lemma word_then_space (a b x y : string) :
  allChars notSpace a = true -> allChars notSpace b = true ->
  a ++ " " ++ x = b ++ " " ++ y -> a = b /\ x = y.
Proof.
  revert b. induction a as [|c a IH]; intros [|d b] Ha Hb E;
    repeat (rewrite ?append_empty_l, ?append_cons in E).
  - injection E as ->. auto.
  - injection E as <- _. cbn in Hb. discriminate Hb.
  - injection E as -> _. cbn in Ha. discriminate Ha.
  - injection E as -> E. cbn [allChars] in Ha, Hb.
    apply andb_prop in Ha as [_ Ha]. apply andb_prop in Hb as [_ Hb].
    destruct (IH b Ha Hb E) as [-> ->]. auto.
Qed.

(** X23.  Two requests whose methods are single words get the same
    in-flight key exactly when their methods agree after trimming and
    uppercasing and their targets have the same normal form: requests with
    different methods, or with targets that normalize differently, are never
    taken for one another. *)
Theorem buildInFlightKey_injective (method method' target target' : string) :
  isToken method -> isToken method' ->
  (buildInFlightKey method target = buildInFlightKey method' target'
   <-> toUpperCase (trim method) = toUpperCase (trim method')
       /\ normalizeTarget target = normalizeTarget target').
Proof.
  unfold isToken, buildInFlightKey. intros Hm Hm'. split.
  - apply word_then_space; rewrite toUpperCase_token; assumption.
  - intros [-> ->]. reflexivity.
Qed.

Lemma buildInFlightKey_injective_witness :
  buildInFlightKey " post " "videos//abc/" = buildInFlightKey "POST" "/videos/abc".
Proof.
  apply (proj2 (buildInFlightKey_injective " post " "POST" "videos//abc/" "/videos/abc"
                  eq_refl eq_refl)).
  split; reflexivity.
Defined.

(** Without the condition on the methods keys can collide: a method with
    a space in it and a target with a space in it. *)
Lemma buildInFlightKey_collision :
  buildInFlightKey "A /B" "/x" = buildInFlightKey "A" "/B /x"
  /\ toUpperCase (trim "A /B") <> toUpperCase (trim "A").
Proof. split; [reflexivity | discriminate]. Qed.

(** ** When two relative targets normalize alike *)

Lemma split_pieces_without (sep : ascii) (s : string) :
  Forall (fun piece => allChars (notIn [sep]) piece = true) (split sep s).
Proof.
  induction s as [|c rest IH]; [repeat constructor|].
  cbn [split]. destruct (Ascii.eqb c sep) eqn:Hc.
  - constructor; [reflexivity | exact IH].
  - destruct (split sep rest) as [|piece pieces].
    + constructor; [|constructor]. cbn. unfold notIn. cbn. rewrite Hc. reflexivity.
    + apply Forall_cons in IH as [Hpiece Hpieces]. constructor; [|exact Hpieces].
      cbn [allChars]. rewrite Hpiece. unfold notIn. cbn. rewrite Hc. reflexivity.
Qed.

Lemma split_pieces_keep (ok : ascii -> bool) (sep : ascii) (s : string) :
  allChars ok s = true ->
  Forall (fun piece => allChars ok piece = true) (split sep s).
Proof.
  induction s as [|c rest IH]; [repeat constructor|].
  cbn [allChars split]. intros Hall. apply andb_prop in Hall as [Hc Hrest].
  specialize (IH Hrest). destruct (Ascii.eqb c sep).
  - constructor; [reflexivity | exact IH].
  - destruct (split sep rest) as [|piece pieces].
    + constructor; [|constructor]. cbn. rewrite Hc. reflexivity.
    + apply Forall_cons in IH as [Hpiece Hpieces]. constructor; [|exact Hpieces].
      cbn [allChars]. rewrite Hc, Hpiece. reflexivity.
Qed.

Lemma pathPart_without_query (target : string) :
  allChars (notIn ["?"]%char) (pathPart target) = true.
Proof.
  unfold pathPart.
  pose proof (split_pieces_without "?" (withLeadingSlash target)) as Hall.
  destruct (split "?" (withLeadingSlash target)) as [|piece pieces]; [reflexivity|].
  apply Forall_cons in Hall as [Hpiece _]. exact Hpiece.
Qed.

Lemma segments_plain (p : string) :
  allChars (notIn ["?"]%char) p = true ->
  Forall (fun seg => seg <> "" /\ allChars isSegmentChar seg = true) (segments p).
Proof.
  intros Hp. unfold segments.
  pose proof (split_pieces_without "/" p) as Hslash.
  pose proof (split_pieces_keep _ "/" p Hp) as Hquery.
  induction (split "/" p) as [|piece pieces IH]; [constructor|].
  apply Forall_cons in Hslash as [Hs Hslash]. apply Forall_cons in Hquery as [Hq Hquery].
  specialize (IH Hslash Hquery). cbn [List.filter].
  destruct piece as [|c rest]; [exact IH|]. constructor; [|exact IH].
  split; [discriminate|]. clear - Hs Hq.
  revert Hs Hq. generalize (String c rest). intros s.
  induction s as [|d s IH]; [reflexivity|]. cbn [allChars]. intros Hs Hq.
  apply andb_prop in Hs as [Hd Hs]. apply andb_prop in Hq as [Hd' Hq].
  rewrite (IH Hs Hq), andb_true_r. unfold isSegmentChar, notIn in *. cbn in *.
  rewrite !orb_false_r in *. apply negb_true_iff in Hd, Hd'.
  rewrite Hd, Hd'. reflexivity.
Qed.

Lemma word_then_stop (ok : ascii -> bool) (a b x y : string) :
  allChars ok a = true -> allChars ok b = true -> stopsAt ok x -> stopsAt ok y ->
  a ++ x = b ++ y -> a = b /\ x = y.
Proof.
  revert b. induction a as [|c a IH]; intros [|d b] Ha Hb Hx Hy E;
    repeat (rewrite ?append_empty_l, ?append_cons in E).
  - auto.
  - subst x. cbn in Hx, Hb. apply andb_prop in Hb as [Hd _]. congruence.
  - subst y. cbn in Hy, Ha. apply andb_prop in Ha as [Hc _]. congruence.
  - injection E as -> E. cbn [allChars] in Ha, Hb.
    apply andb_prop in Ha as [_ Ha]. apply andb_prop in Hb as [_ Hb].
    destruct (IH b Ha Hb Hx Hy E) as [-> ->]. auto.
Qed.

(** Segments joined by slashes and followed by a query can be read back. *)
Lemma joined_segments_injective (segs segs' : list string) (q q' : string) :
  Forall (fun seg => seg <> "" /\ allChars isSegmentChar seg = true) segs ->
  Forall (fun seg => seg <> "" /\ allChars isSegmentChar seg = true) segs' ->
  (q = "" \/ exists rest, q = String "?" rest) ->
  (q' = "" \/ exists rest, q' = String "?" rest) ->
  String.concat "/" segs ++ q = String.concat "/" segs' ++ q' ->
  segs = segs' /\ q = q'.
Proof.
  intros Hsegs Hsegs' Hq Hq'.
  assert (forall t, (t = "" \/ exists rest, t = String "?" rest) -> stopsAt isSegmentChar t)
    as Hstop by (intros t [-> | [rest ->]]; reflexivity).
  assert (forall (seg : string) t,
             seg <> "" -> allChars isSegmentChar seg = true ->
             (t = "" \/ exists rest, t = String "?" rest) ->
             forall tail, t <> seg ++ tail) as Hclash.
  { intros [|c seg] t Hne Hall Ht tail E; [contradiction|].
    rewrite append_cons in E. cbn in Hall. apply andb_prop in Hall as [Hc _].
    destruct Ht as [-> | [rest ->]]; [discriminate|]. injection E as <- _.
    discriminate Hc. }
  revert segs' Hsegs'. induction Hsegs as [|seg segs [Hne Hseg] Hsegs IH];
    intros segs' Hsegs' E.
  - destruct Hsegs' as [|seg' segs' [Hne' Hseg'] Hsegs']; [auto|]. exfalso.
    rewrite append_empty_l in E.
    destruct segs' as [|seg2 segs'].
    + exact (Hclash seg' q Hne' Hseg' Hq q' E).
    + rewrite concat_cons_cons, append_assoc in E.
      exact (Hclash seg' q Hne' Hseg' Hq _ E).
  - destruct Hsegs' as [|seg' segs' [Hne' Hseg'] Hsegs'].
    + exfalso. rewrite append_empty_l in E. symmetry in E.
      destruct segs as [|seg2 segs].
      * exact (Hclash seg q' Hne Hseg Hq' q E).
      * rewrite concat_cons_cons, append_assoc in E.
        exact (Hclash seg q' Hne Hseg Hq' _ E).
    + assert (forall (s : string) (tl : list string) t,
                 String.concat "/" (s :: tl) ++ t
                 = s ++ match tl with
                        | [] => t
                        | _ => "/" ++ String.concat "/" tl ++ t
                        end) as Hhead.
      { intros s [|x tl] t; [reflexivity|].
        rewrite concat_cons_cons, !append_assoc. reflexivity. }
      rewrite !Hhead in E.
      assert (forall (tl : list string) t,
                 (t = "" \/ exists rest, t = String "?" rest) ->
                 stopsAt isSegmentChar
                   match tl with [] => t | _ => "/" ++ String.concat "/" tl ++ t end)
        as Hrest.
      { intros [|x tl] t Ht; [apply Hstop, Ht | reflexivity]. }
      destruct (word_then_stop isSegmentChar seg seg' _ _ Hseg Hseg'
                  (Hrest segs q Hq) (Hrest segs' q' Hq') E) as [-> Etail].
      destruct segs as [|seg2 segs], segs' as [|seg2' segs'].
      * subst q'. auto.
      * exfalso. destruct Hq as [-> | [rest ->]]; discriminate Etail.
      * exfalso. destruct Hq' as [-> | [rest ->]]; discriminate Etail.
      * rewrite !append_cons, !append_empty_l in Etail. injection Etail as Etail.
        destruct (IH (seg2' :: segs') Hsegs' Etail) as [-> ->]. auto.
Qed.

Lemma keptQuery_shape (target : string) :
  keptQuery target = "" \/ exists rest, keptQuery target = String "?" rest.
Proof.
  unfold keptQuery. destruct (nth 1 (split "?" (withLeadingSlash target)) "").
  - left. reflexivity.
  - right. eexists. reflexivity.
Qed.

Lemma normalizeTarget_path (target : string) :
  isRelative target \/ isHostless target ->
  normalizeTarget target
  = "/" ++ String.concat "/" (segments (pathPart target)) ++ keptQuery target.
Proof.
  intros Hkind.
  assert (normalizeTarget target = normalizePath (trim target)) as ->
    by (destruct Hkind; [apply normalizeTarget_relative | apply normalizeTarget_hostless];
        assumption).
  rewrite normalizePath_trimmed. unfold canonicalPath. fold (pathPart target).
  rewrite append_assoc. reflexivity.
Qed.

(** X24.  Two relative targets (and targets with a scheme but no host) get
    the same normal form exactly when the paths before their first question
    mark have the same segments, in the same order, and the queries kept are
    the same: leading, repeated and trailing slashes never tell two targets
    apart, and nothing else is confused. *)
Theorem normalizeTarget_same_iff (target target' : string) :
  isRelative target \/ isHostless target ->
  isRelative target' \/ isHostless target' ->
  (normalizeTarget target = normalizeTarget target'
   <-> segments (pathPart target) = segments (pathPart target')
       /\ keptQuery target = keptQuery target').
Proof.
  intros Hkind Hkind'.
  rewrite (normalizeTarget_path target Hkind), (normalizeTarget_path target' Hkind').
  split.
  - intros E. rewrite !append_cons, !append_empty_l in E. injection E as E.
    apply (joined_segments_injective _ _ _ _
             (segments_plain _ (pathPart_without_query target))
             (segments_plain _ (pathPart_without_query target'))
             (keptQuery_shape target) (keptQuery_shape target') E).
  - intros [-> ->]. reflexivity.
Qed.

Lemma normalizeTarget_same_iff_witness :
  normalizeTarget "videos//abc/?page=2" = normalizeTarget " /videos/abc?page=2 ".
Proof.
  apply (proj2 (normalizeTarget_same_iff "videos//abc/?page=2" " /videos/abc?page=2 "
                  (or_introl (conj eq_refl eq_refl)) (or_introl (conj eq_refl eq_refl)))).
  split; reflexivity.
Defined.

(* ===================================================================== *)
(** * A rate-limited poll, from the response to the next poll             *)
(* ===================================================================== *)

Lemma parseApiError_wire (rt : Runtime) (wire : Q) (body retryAfter : value) :
  (forall sc, ~ declaresStatus body sc) ->
  httpStatus (parseApiError rt wire body None retryAfter) = Some wire
  /\ code (parseApiError rt wire body None retryAfter) = mapStatusToCode wire
  /\ retryAfterMs (parseApiError rt wire body None retryAfter)
     = parseRetryAfterMs rt retryAfter.
Proof.
  intros Hno. pose proof (not_declaresStatus_effective body Hno) as Heff.
  unfold parseApiError. rewrite andb_false_r.
  destruct (isFalse (getProp (nullish body (VObj [])) "success"));
    destruct (asNumber (getProp (nullish body (VObj [])) "statusCode"));
    cbn; try contradiction; auto.
Qed.

Lemma mapStatusToCode_429 (status : Q) :
  (status == 429)%Q -> mapStatusToCode status = RATE_LIMIT.
Proof.
  intros Hs. pose proof (mapStatusToCode_table status) as H. unfold codeForStatus in H.
  destruct H as [[H E]|[[H E]|[[H E]|[[H E]|[[H E]|[[H E]|[[H E]|H]]]]]]];
    first [exact E | exfalso; lra
          | destruct H as (_ & _ & _ & _ & H & _); contradiction].
Qed.

(** X25.  A poll answered with status 429 is rejected by the interceptor
    at once, without a retry and without a call of the unauthorized handler,
    as a RATE_LIMIT error that carries the delay read from the response's
    [Retry-After] header.  The downloads screen does not retry that poll, and
    both of its queries schedule the next one after the larger of one second
    and that delay. *)
Theorem rate_limited_poll {H : Type} (rt : Runtime) (st : ClientState H)
    (error : AxiosError) (cfg : RequestConfig) (r : Response) (ms random failureCount : Q)
    (data : option DownloadStatusResponse) (work : bool) :
  config error = Some cfg -> response error = Some r ->
  (status r == 429)%Q -> (forall sc, ~ declaresStatus (Client.data r) sc) ->
  parseRetryAfterMs rt (getRetryAfterHeader (Some r)) = Some ms ->
  exists e,
    onResponseError rt st error = (st, Reject e)
    /\ code e = RATE_LIMIT /\ retryAfterMs e = Some ms
    /\ retry true failureCount e = false
    /\ statusRefetchInterval random true (Some e) data = Some (Math_max 1000 ms)
    /\ historyRefetchInterval random true (Some e) work = Some (Math_max 1000 ms)
    /\ (ms <= Math_max 1000 ms)%Q.
Proof.
  intros Hcfg Hresp Hstatus Hbody Hafter.
  assert (appErrorOf rt error
          = parseApiError rt (status r) (Client.data r) None (getRetryAfterHeader (Some r)))
    as Herr by (unfold appErrorOf, responseStatus, responseData; rewrite Hresp; reflexivity).
  destruct (parseApiError_wire rt (status r) (Client.data r)
              (getRetryAfterHeader (Some r)) Hbody) as (_ & Hcode & Hms).
  rewrite <- Herr in Hcode, Hms. rewrite (mapStatusToCode_429 _ Hstatus) in Hcode.
  rewrite Hafter in Hms.
  exists (appErrorOf rt error).
  assert (shouldRetry (appErrorOf rt error) = false) as Hretry.
  { apply not_true_is_false. intros Hr. apply shouldRetry_true_iff in Hr.
    destruct Hr as [E | (E & _)]; congruence. }
  assert (shouldTriggerReauth (method cfg) (appErrorOf rt error) = false) as Hreauth.
  { apply not_true_is_false. intros Hr. apply shouldTriggerReauth_iff in Hr.
    destruct Hr as [E | (E & _)]; congruence. }
  split.
  { rewrite (onResponseError_with_config rt st error cfg Hcfg), Hretry, Hreauth.
    rewrite andb_false_r. reflexivity. }
  split; [exact Hcode|]. split; [exact Hms|].
  assert (isRateLimited (Some (appErrorOf rt error)) = true) as Hlimited
    by (cbn; rewrite Hcode; reflexivity).
  assert (serverHint (Some (appErrorOf rt error)) = Some ms) as Hhint
    by (cbn; rewrite Hcode; exact Hms).
  split; [unfold retry, shouldStopPolling; rewrite Hcode; reflexivity|].
  split; [|split; [|apply Math_max_right]].
  - unfold statusRefetchInterval, shouldStopPolling.
    rewrite Hlimited, (rateLimitInterval_hint random _ ms Hlimited Hhint), Hcode.
    reflexivity.
  - unfold historyRefetchInterval, shouldStopPolling.
    rewrite Hlimited, (rateLimitInterval_hint random _ ms Hlimited Hhint), Hcode.
    reflexivity.
Qed.

Lemma rate_limited_poll_witness :
  exists e,
    onResponseError testRuntime {| onUnauthorized := @None nat; unauthorizedCalls := [] |}
      {| config := Some {| method := Some "get"; url := "/download-status";
                           _retryCount := None |};
         response := Some {| status := 429; data := VObj [];
                             headers := Some (HeadersRecord [("retry-after", VNum 5)]) |};
         errorCode := None; errorMessage := "Request failed with status code 429" |}
    = ({| onUnauthorized := @None nat; unauthorizedCalls := [] |}, Reject e)
    /\ code e = RATE_LIMIT /\ retryAfterMs e = Some 5000%Q
    /\ retry true 0 e = false
    /\ statusRefetchInterval (1 # 2) true (Some e) None = Some (Math_max 1000 5000)
    /\ historyRefetchInterval (1 # 2) true (Some e) false = Some (Math_max 1000 5000)
    /\ (5000 <= Math_max 1000 5000)%Q.
Proof.
  apply (rate_limited_poll testRuntime {| onUnauthorized := @None nat; unauthorizedCalls := [] |}
           {| config := Some {| method := Some "get"; url := "/download-status";
                                _retryCount := None |};
              response := Some {| status := 429; data := VObj [];
                                  headers := Some (HeadersRecord [("retry-after", VNum 5)]) |};
              errorCode := None; errorMessage := "Request failed with status code 429" |}
           {| method := Some "get"; url := "/download-status"; _retryCount := None |}
           {| status := 429; data := VObj [];
              headers := Some (HeadersRecord [("retry-after", VNum 5)]) |}
           5000 (1 # 2) 0 None false eq_refl eq_refl).
  - reflexivity.
  - intros sc (fields & [= <-] & Hs & _). discriminate Hs.
  - reflexivity.
Defined.

(* ===================================================================== *)
(** * More of the repository's unit tests, replayed on the model          *)
(* ===================================================================== *)

(** polling.test: uses bounded backoff steps. *)
Example test_getPollingRetryDelayMs :
  getPollingRetryDelayMs 0 = Some 2000%Q
  /\ getPollingRetryDelayMs 1 = Some 5000%Q
  /\ getPollingRetryDelayMs 2 = Some 10000%Q
  /\ getPollingRetryDelayMs 99 = Some 60000%Q.
Proof. repeat split; reflexivity. Qed.

(** polling.test: retries only transient network/server errors. *)
Example test_shouldRetryPollingError :
  shouldRetryPollingError (Some (plainError NETWORK None "offline")) = true
  /\ shouldRetryPollingError (Some (plainError SERVER (Some 503%Q) "unavailable")) = true
  /\ shouldRetryPollingError (Some (plainError VALIDATION (Some 400%Q) "bad input")) = false
  /\ shouldRetryPollingError (Some (plainError NOT_FOUND (Some 404%Q) "missing")) = false.
Proof. repeat split; reflexivity. Qed.

(** roleGate.test: requires admin when login is enabled; allows null and
    admin when login is disabled. *)
Example test_canMutate :
  canMutate (Some admin) true = true
  /\ canMutate (Some visitor) true = false
  /\ canMutate None true = false
  /\ canMutate (Some admin) false = true
  /\ canMutate None false = true
  /\ canMutate (Some visitor) false = false.
Proof. repeat split; reflexivity. Qed.

(** roleGate.test: visitor can edit only cloudflare keys; null role can
    edit when login is disabled. *)
Example test_canEditSettings :
  canEditSettings (Some visitor) ["cloudflaredToken"] true = true
  /\ canEditSettings (Some visitor) ["websiteName"] true = false
  /\ canEditSettings None ["websiteName"] false = true.
Proof. repeat split; reflexivity. Qed.

(** The examples in the comment of [parseDurationToSeconds]. *)
Example test_parseDurationToSeconds :
  parseDurationToSeconds "1:23:45" = 5025%Z
  /\ parseDurationToSeconds "12:34" = 754%Z
  /\ parseDurationToSeconds "90" = 90%Z.
Proof. repeat split; reflexivity. Qed.
